(** * CAVTool: the script interpreter and the simulation engine

    A shallow embedding of [js/tokenizer.js], [js/parser.js] and
    [js/simulation.js].  JavaScript numbers are IEEE 754 binary64 values and
    are modelled by Rocq's primitive floats; the variable environment and the
    static store are finite maps from names to numbers; an exception is an
    explicit outcome that keeps the state reached when it was thrown.

    Scope of the model: every script value is a number, and a character is
    an 8-bit code unit.  The names that a JavaScript object inherits from
    [Object.prototype] ([constructor], [toString], ...) are not modelled:
    [name in obj] is membership among the entries the program stored
    itself. *)

From Stdlib Require Import ZArith Floats Ascii String List Bool Lia.
From stdpp Require Import gmap strings list.

#[local] Open Scope Z_scope.

(** ** Numbers *)

Module Number.

(** The integer [z] as a number (exact whenever [|z| < 2^53]). *)
Definition of_Z (z : Z) : float :=
  SF2Prim (binary_normalize prec emax z 0 false).

Definition of_nat (n : nat) : float := of_Z (Z.of_nat n).

(** [n / d] for two integers, rounded once to the nearest number. *)
Definition of_ratio (n : Z) (d : positive) : float :=
  match n with
  | Z0 => PrimFloat.zero
  | Zpos p => SF2Prim (SFdiv prec emax (S754_finite false p 0) (S754_finite false d 0))
  | Zneg p => SF2Prim (SFdiv prec emax (S754_finite true p 0) (S754_finite false d 0))
  end.

(** JavaScript's [n % d]: the remainder of the truncating division, with
    the sign of the dividend; it is always exact. *)
Definition rem (n d : float) : float :=
  match Prim2SF n, Prim2SF d with
  | S754_nan, _ | _, S754_nan => nan
  | S754_infinity _, _ => nan
  | _, S754_zero _ => nan
  | S754_zero _, _ => n
  | S754_finite _ _ _, S754_infinity _ => n
  | S754_finite sn mn en, S754_finite _ md ed =>
      let e := Z.min en ed in
      let a := Z.pos mn * 2 ^ (en - e) in
      let b := Z.pos md * 2 ^ (ed - e) in
      let r := a mod b in
      if r =? 0 then (if sn then neg_zero else PrimFloat.zero)
      else
        let f := Z.ldexp (of_Z r) e in
        if sn then PrimFloat.opp f else f
  end.

(** [ToBoolean] on a number: [NaN], [+0] and [-0] are falsy. *)
Definition truthy (x : float) : bool :=
  negb (PrimFloat.is_nan x || PrimFloat.is_zero x).

(** [x || 0] *)
Definition or_zero (x : float) : float :=
  if truthy x then x else PrimFloat.zero.

(** [0 <= x <= 1] *)
Definition in_unit_interval (x : float) : Prop :=
  PrimFloat.leb PrimFloat.zero x = true /\ PrimFloat.leb x PrimFloat.one = true.

End Number.

(** ** The part of [Math] that the program uses *)

Module Math.

(** [Math.min], [Math.max]: [NaN] when an argument is [NaN]; [-0] is
    smaller than [+0]. *)
Definition min (a b : float) : float :=
  if PrimFloat.is_nan a || PrimFloat.is_nan b then nan
  else if PrimFloat.ltb a b then a
  else if PrimFloat.ltb b a then b
  else if PrimFloat.get_sign a then a else b.

Definition max (a b : float) : float :=
  if PrimFloat.is_nan a || PrimFloat.is_nan b then nan
  else if PrimFloat.ltb a b then b
  else if PrimFloat.ltb b a then a
  else if PrimFloat.get_sign a then b else a.

Definition abs (x : float) : float := PrimFloat.abs x.

Definition sqrt (x : float) : float := PrimFloat.sqrt x.

(** [Math.round]: the nearest integer, a tie going towards [+∞]; the sign
    of a zero result is the sign of the argument. *)
Definition round (x : float) : float :=
  match Prim2SF x with
  | S754_finite s m e =>
      if 0 <=? e then x
      else
        let x2 := (if s then Z.neg m else Z.pos m) * 2 in
        let n := (x2 + 2 ^ (- e)) / 2 ^ (1 - e) in
        if n =? 0 then (if s then neg_zero else PrimFloat.zero)
        else Number.of_Z n
  | _ => x
  end.

(** The functions whose results the language leaves to the host
    (implementation-approximated): the transcendental functions and
    [Math.pow].  [Math.random] is not part of the host: the numbers it hands
    out are an input of every invocation of the interpreter. *)
Class Host := {
  cos : float -> float;
  sin : float -> float;
  tan : float -> float;
  exp : float -> float;
  pow : float -> float -> float;
}.

End Math.

#[local] Close Scope Z_scope.
#[local] Open Scope char_scope.
#[local] Open Scope list_scope.

(** ** Characters and text *)

Module Text.

Definition code (c : ascii) : nat := nat_of_ascii c.

(** [c >= lo && c <= hi] on one-character strings *)
Definition between (lo hi c : ascii) : bool :=
  (code lo <=? code c)%nat && (code c <=? code hi)%nat.

Definition isDigit (c : ascii) : bool := between "0" "9" c.

Definition isAlpha (c : ascii) : bool :=
  between "a" "z" c || between "A" "Z" c.

Definition isAlphaNumeric (c : ascii) : bool :=
  isAlpha c || isDigit c || Ascii.eqb c "_".

(** White space and line terminators: what [\s], [trim] and the prefix
    skipped by [parseFloat] agree on (TAB, LF, VT, FF, CR, SP, NBSP). *)
Definition isSpace (c : ascii) : bool :=
  let n := code c in
  ((9 <=? n)%nat && (n <=? 13)%nat) || (n =? 32)%nat || (n =? 160)%nat.

Definition lower (c : ascii) : ascii :=
  if between "A" "Z" c then ascii_of_nat (code c + 32) else c.

Definition toLowerCase (s : string) : string :=
  string_of_list_ascii (map lower (list_ascii_of_string s)).

(** [s.substring(from, to)] on the characters of [s] *)
Definition substring (from to : nat) (s : list ascii) : list ascii :=
  take (to - from) (drop from s).

Fixpoint dropWhile (p : ascii -> bool) (s : list ascii) : list ascii :=
  match s with
  | c :: rest => if p c then dropWhile p rest else s
  | [] => []
  end.

Fixpoint takeWhile (p : ascii -> bool) (s : list ascii) : list ascii :=
  match s with
  | c :: rest => if p c then c :: takeWhile p rest else []
  | [] => []
  end.

Definition trim (s : list ascii) : list ascii :=
  rev (dropWhile isSpace (rev (dropWhile isSpace s))).

Fixpoint startsWith (p s : list ascii) : bool :=
  match p, s with
  | [], _ => true
  | a :: p', b :: s' => Ascii.eqb a b && startsWith p' s'
  | _ :: _, [] => false
  end.

Definition digitsValue (ds : list ascii) : Z :=
  fold_left (fun acc c => (10 * acc + Z.of_nat (code c - 48))%Z) ds 0%Z.

(** The global [parseFloat]: the longest prefix that is a decimal literal
    (sign, digits, fraction, exponent) or [Infinity]; [NaN] without one. *)
Definition parseFloat (s : list ascii) : float :=
  let s := dropWhile isSpace s in
  let '(negative, s) :=
    match s with
    | "-" :: rest => (true, rest)
    | "+" :: rest => (false, rest)
    | _ => (false, s)
    end in
  let signed (x : float) := if negative then PrimFloat.opp x else x in
  if startsWith (list_ascii_of_string "Infinity") s then signed infinity
  else
    let ip := takeWhile isDigit s in
    let s1 := dropWhile isDigit s in
    let '(fp, s2) :=
      match s1 with
      | "." :: rest => (takeWhile isDigit rest, dropWhile isDigit rest)
      | _ => ([], s1)
      end in
    match ip ++ fp with
    | [] => nan
    | mantissa =>
        let exponent :=
          match s2 with
          | c :: rest =>
              if Ascii.eqb (lower c) "e" then
                let '(eneg, rest) :=
                  match rest with
                  | "-" :: r => (true, r)
                  | "+" :: r => (false, r)
                  | _ => (false, rest)
                  end in
                match takeWhile isDigit rest with
                | [] => 0%Z
                | ds => if eneg then (- digitsValue ds)%Z else digitsValue ds
                end
              else 0%Z
          | [] => 0%Z
          end in
        let e10 := (exponent - Z.of_nat (length fp))%Z in
        let m := digitsValue mantissa in
        signed
          (if (0 <=? e10)%Z then Number.of_ratio (m * 10 ^ e10) 1
           else Number.of_ratio m (Z.to_pos (10 ^ (- e10))))
    end.

End Text.

(** ** Tokens *)

Inductive TokenType :=
| NUMBER | NAME | KEYWORD | OPERATOR
| LPAREN | RPAREN | LBRACE | RBRACE
| SEMICOLON | COMMA | ASSIGN
| PREPROCESSOR | EOF.

#[global] Instance TokenType_eq_dec : EqDecision TokenType.
Proof. solve_decision. Defined.

(** The literal value of a token: a number for [NUMBER], [null] for [EOF],
    text otherwise. *)
Inductive TokenValue :=
| Num (x : float)
| Str (s : string)
| Null.

Module Token.
Record t := make { type : TokenType; value : TokenValue; line : nat }.
End Token.

(** The messages of the errors that are thrown; each constructor stands for
    one template of the source. *)
Inductive Message :=
| UnexpectedCharacter (char : ascii) (line : nat)
    (* `Unexpected character '${char}' at line ${this.line}` *)
| UnexpectedToken (value : TokenValue) (line : nat)
    (* `Unexpected token '${token.value}' at line ${token.line}` *)
| Expected (expected : string) (line : nat)
    (* `Expected '${expected}' at line ${this.current().line}` *)
| CannotReassignConstant (name : string) (line : nat)
    (* `Cannot reassign constant '${name}' at line ${this.previous().line}` *)
| DivisionByZero
    (* 'Division by zero' *)
| UndefinedVariable (name : string) (line : nat)
    (* `Undefined variable '${name}' at line ${token.line}` *)
| UnknownFunction (name : string)
    (* `Unknown function '${name}'` *)
| CannotReadLength.
    (* the TypeError of reading [length] of [undefined], raised by the
       JavaScript engine itself *)

(** ** The tokenizer ([tokenizer.js]) *)

Module Tokenizer.

Definition KEYWORDS : list string := ["if"; "else"]%string.

(** multi-character operators come before their one-character prefixes *)
Definition OPERATORS : list string :=
  ["<="; ">="; "=="; "!="; "&&"; "||"; "+"; "-"; "*"; "/"; "%"; "<"; ">"]%string.

Record t := make {
  source : list ascii;
  pos : nat;
  line : nat;
  tokens : list Token.t;
}.

Definition create (source : string) : t :=
  make (list_ascii_of_string source) 0 1 [].

Definition push (type : TokenType) (value : TokenValue) (tk : t) : list Token.t :=
  tokens tk ++ [Token.make type value (line tk)].

Definition text (cs : list ascii) : TokenValue := Str (string_of_list_ascii cs).

(** The rest of the source from the current position. *)
Definition rest (tk : t) : list ascii := drop (pos tk) (source tk).

Fixpoint skipWhitespace_from (cs : list ascii) (tk : t) : t :=
  match cs with
  | c :: cs' =>
      if Ascii.eqb c " " || Ascii.eqb c "009" || Ascii.eqb c "013" then
        skipWhitespace_from cs' (make (source tk) (S (pos tk)) (line tk) (tokens tk))
      else if Ascii.eqb c "010" then
        skipWhitespace_from cs' (make (source tk) (S (pos tk)) (S (line tk)) (tokens tk))
      else tk
  | [] => tk
  end.

Definition skipWhitespaceAndComments (tk : t) : t :=
  skipWhitespace_from (rest tk) tk.

(** The number of characters before the end of the line. *)
Definition lineLength (cs : list ascii) : nat :=
  length (Text.takeWhile (fun c => negb (Ascii.eqb c "010")) cs).

Definition skipLineComment (tk : t) : t :=
  make (source tk) (pos tk + lineLength (rest tk)) (line tk) (tokens tk).

Definition peek (offset : nat) (tk : t) : ascii :=
  nth (pos tk + offset) (source tk) "000".

Fixpoint numberLength (cs : list ascii) (hasDot : bool) : nat :=
  match cs with
  | c :: cs' =>
      if Text.isDigit c then S (numberLength cs' hasDot)
      else if Ascii.eqb c "." && negb hasDot then S (numberLength cs' true)
      else 0
  | [] => 0
  end.

Definition readNumber (tk : t) : t :=
  let start := pos tk in
  let stop := start + numberLength (rest tk) false in
  let value := Text.parseFloat (Text.substring start stop (source tk)) in
  make (source tk) stop (line tk) (push NUMBER (Num value) tk).

Definition readName (tk : t) : t :=
  let start := pos tk in
  let stop := start + length (Text.takeWhile Text.isAlphaNumeric (rest tk)) in
  let name := string_of_list_ascii (Text.substring start stop (source tk)) in
  let lowered := Text.toLowerCase name in
  let type := if bool_decide (lowered ∈ KEYWORDS) then KEYWORD else NAME in
  let value :=
    if String.eqb lowered "if" || String.eqb lowered "else" then lowered else name in
  make (source tk) stop (line tk) (push type (Str value) tk).

Definition readPreprocessor (tk : t) : t :=
  let start := pos tk in
  let stop := start + lineLength (rest tk) in
  let directive := Text.trim (Text.substring start stop (source tk)) in
  make (source tk) stop (line tk) (push PREPROCESSOR (text directive) tk).

Fixpoint tryReadOperator_in (ops : list string) (tk : t) : option t :=
  match ops with
  | op :: ops' =>
      let n := String.length op in
      if String.eqb
           (string_of_list_ascii (Text.substring (pos tk) (pos tk + n) (source tk))) op
      then Some (make (source tk) (pos tk + n) (line tk) (push OPERATOR (Str op) tk))
      else tryReadOperator_in ops' tk
  | [] => None
  end.

Definition tryReadOperator (tk : t) : option t := tryReadOperator_in OPERATORS tk.

Definition punctuation (char : ascii) : option (TokenType * string) :=
  if Ascii.eqb char "(" then Some (LPAREN, "("%string)
  else if Ascii.eqb char ")" then Some (RPAREN, ")"%string)
  else if Ascii.eqb char "{" then Some (LBRACE, "{"%string)
  else if Ascii.eqb char "}" then Some (RBRACE, "}"%string)
  else if Ascii.eqb char ";" then Some (SEMICOLON, ";"%string)
  else if Ascii.eqb char "," then Some (COMMA, ","%string)
  else if Ascii.eqb char "=" then Some (ASSIGN, "="%string)
  else None.

(** One round of the [while] loop of [tokenize], after the white space has
    been skipped and with a character left to read. *)
Definition scan (char : ascii) (tk : t) : Message + t :=
  if Ascii.eqb char "#"
     && (bool_decide (pos tk = 0) || Ascii.eqb (nth (pos tk - 1) (source tk) "000") "010")
  then inr (readPreprocessor tk)
  else if Ascii.eqb char "#" then inr (skipLineComment tk)
  else if Text.isDigit char || (Ascii.eqb char "." && Text.isDigit (peek 1 tk))
  then inr (readNumber tk)
  else if Text.isAlpha char || Ascii.eqb char "_" then inr (readName tk)
  else
    match tryReadOperator tk with
    | Some tk' => inr tk'
    | None =>
        match punctuation char with
        | Some (type, value) =>
            inr (make (source tk) (S (pos tk)) (line tk) (push type (Str value) tk))
        | None => inl (UnexpectedCharacter char (line tk))
        end
    end.

(** The [while (this.pos < this.source.length)] loop; every round reads at
    least one character, so [fuel] rounds with [fuel] above the number of
    characters left always reach the end of the loop. *)
Fixpoint tokenize_loop (fuel : nat) (tk : t) : Message + t :=
  match fuel with
  | S fuel' =>
      if bool_decide (pos tk < length (source tk)) then
        let tk := skipWhitespaceAndComments tk in
        match source tk !! pos tk with
        | None => inr tk
        | Some char =>
            match scan char tk with
            | inl e => inl e
            | inr tk' => tokenize_loop fuel' tk'
            end
        end
      else inr tk
  | 0 => inr tk
  end.

(** [tokenize()]: the token sequence, ended by [EOF], or the lexical error
    thrown. *)
Definition tokenize (tk : t) : Message + list Token.t :=
  match tokenize_loop (S (length (source tk))) tk with
  | inl e => inl e
  | inr tk' => inr (push EOF Null tk')
  end.

End Tokenizer.

(** ** Regular expressions

    The fragment of JavaScript's regular expressions that the two directive
    patterns are written in, with the backtracking semantics of
    [String.prototype.match]: the leftmost match, greedy quantifiers, and the
    text of every capture group that took part in the match. *)

Module RegExp.

Inductive t :=
| Lit (s : string)             (* literal text, compared ignoring case (flag [i]) *)
| Plus (class : ascii -> bool)  (* [c+]: one or more characters of a class *)
| Seq (r1 r2 : t)
| Opt (r : t)                  (* [(?:r)?] *)
| Group (n : nat) (r : t).     (* the [n]-th capture group [(r)] *)

Definition word (c : ascii) : bool := Text.isAlphaNumeric c.   (* \w *)
Definition space (c : ascii) : bool := Text.isSpace c.          (* \s *)
Definition nonspace (c : ascii) : bool := negb (Text.isSpace c). (* \S *)

Definition captures := gmap nat string.

Fixpoint startsWith_ci (p s : list ascii) : option (list ascii) :=
  match p, s with
  | [], _ => Some s
  | a :: p', b :: s' =>
      if Ascii.eqb (Text.lower a) (Text.lower b) then startsWith_ci p' s' else None
  | _ :: _, [] => None
  end.

(** [c+] followed by [k]: the longest run first, then shorter ones. *)
Fixpoint plus {R} (class : ascii -> bool) (s : list ascii)
    (k : list ascii -> option R) : option R :=
  match s with
  | c :: s' =>
      if class c then
        match plus class s' k with
        | Some r => Some r
        | None => k s'
        end
      else None
  | [] => None
  end.

(** [matchHere r s caps k]: [r] matches a prefix of [s] and [k] accepts the
    rest; the alternatives are tried in the order of a backtracking
    matcher. *)
Fixpoint matchHere {R} (r : t) (s : list ascii) (caps : captures)
    (k : list ascii -> captures -> option R) : option R :=
  match r with
  | Lit p =>
      match startsWith_ci (list_ascii_of_string p) s with
      | Some s' => k s' caps
      | None => None
      end
  | Plus class => plus class s (fun s' => k s' caps)
  | Seq r1 r2 => matchHere r1 s caps (fun s' caps' => matchHere r2 s' caps' k)
  | Opt r' =>
      match matchHere r' s caps k with
      | Some x => Some x
      | None => k s caps
      end
  | Group n r' =>
      matchHere r' s caps (fun s' caps' =>
        k s' (<[n := string_of_list_ascii (take (length s - length s') s)]> caps'))
  end.

(** [s.match(r)] for a pattern without the [g] flag: the captures of the
    leftmost match, [None] for [null]. *)
Fixpoint exec (r : t) (s : list ascii) : option captures :=
  match matchHere r s ∅ (fun _ caps => Some caps) with
  | Some caps => Some caps
  | None =>
      match s with
      | _ :: s' => exec r s'
      | [] => None
      end
  end.

Definition seq (rs : list t) : t := foldr Seq (Lit "") rs.

Definition spaces : t := Plus space.        (* \s+ *)
Definition words : t := Plus word.          (* \w+ *)
Definition nonspaces : t := Plus nonspace.  (* \S+ *)

End RegExp.

#[local] Open Scope string_scope.

(** ** The parser ([parser.js]) *)

(** A parameter descriptor; [#define_var] leaves [min] and [max] out. *)
Module Param.
Record t := make {
  name : string;
  min : option float;
  max : option float;
  default : float;
  isStatic : bool;
}.
End Param.

(** What a call returns or how it ends: [Throw] is a JavaScript exception,
    [Diverge] a computation that never returns. *)
Inductive Outcome (A : Type) :=
| Ok (a : A)
| Throw (e : Message)
| Diverge.
Arguments Ok {A} a.
Arguments Throw {A} e.
Arguments Diverge {A}.

Module ScriptParser.

(** [Math.PI] and [Math.E] *)
Definition CONSTANTS : gmap string float :=
  {[ "pi" := 0x1.921fb54442d18p+1%float; "e" := 0x1.5bf0a8b145769p+1%float ]}.

(** The argument of [parse]. *)
Record Context := { rate : float; traffic : float }.

(** The fields of a [ScriptParser], and [drawn], the number of calls of
    [Math.random] made so far by the current invocation. *)
Record t := make {
  source : string;
  tokens : list Token.t;
  pos : nat;
  variables : gmap string float;
  staticVariables : gmap string float;
  params : list Param.t;
  errors : list Message;
  drawn : nat;
}.

Definition create (source : string) : t :=
  make source [] 0 ∅ ∅ [] [] 0.

Definition set_tokens (ts : list Token.t) (p : t) : t :=
  make (source p) ts (pos p) (variables p) (staticVariables p) (params p) (errors p) (drawn p).
Definition set_pos (n : nat) (p : t) : t :=
  make (source p) (tokens p) n (variables p) (staticVariables p) (params p) (errors p) (drawn p).
Definition set_variables (vs : gmap string float) (p : t) : t :=
  make (source p) (tokens p) (pos p) vs (staticVariables p) (params p) (errors p) (drawn p).
Definition set_staticVariables (vs : gmap string float) (p : t) : t :=
  make (source p) (tokens p) (pos p) (variables p) vs (params p) (errors p) (drawn p).
Definition set_params (ps : list Param.t) (p : t) : t :=
  make (source p) (tokens p) (pos p) (variables p) (staticVariables p) ps (errors p) (drawn p).
Definition set_errors (es : list Message) (p : t) : t :=
  make (source p) (tokens p) (pos p) (variables p) (staticVariables p) (params p) es (drawn p).
Definition set_drawn (n : nat) (p : t) : t :=
  make (source p) (tokens p) (pos p) (variables p) (staticVariables p) (params p) (errors p) n.

(** *** Methods as state transformers with exceptions *)

Definition M (A : Type) : Type := t -> Outcome A * t.

Definition ret {A} (a : A) : M A := fun p => (Ok a, p).
Definition throw {A} (e : Message) : M A := fun p => (Throw e, p).
Definition diverge {A} : M A := fun p => (Diverge, p).
Definition bind {A B} (m : M A) (f : A -> M B) : M B :=
  fun p =>
    match m p with
    | (Ok a, p') => f a p'
    | (Throw e, p') => (Throw e, p')
    | (Diverge, p') => (Diverge, p')
    end.

#[local] Notation "'let*' x := m 'in' k" := (bind m (fun x => k))
  (at level 10, x name, m at level 100, k at level 200, only parsing).
#[local] Notation "m ;;; k" := (bind m (fun _ => k))
  (at level 100, k at level 200, right associativity, only parsing).

(** *** Utility methods *)

(** [this.tokens[this.pos]]; the position never leaves the sequence, which
    ends with [EOF]. *)
Definition current (p : t) : Token.t :=
  nth (pos p) (tokens p) (Token.make EOF Null 0).

Definition previous (p : t) : Token.t :=
  nth (pos p - 1) (tokens p) (Token.make EOF Null 0).

Definition isAtEnd (p : t) : bool :=
  bool_decide (Token.type (current p) = EOF).

Definition check (type : TokenType) (p : t) : bool :=
  negb (isAtEnd p) && bool_decide (Token.type (current p) = type).

(** [advance()]; no caller uses the token it returns. *)
Definition advance : M unit :=
  fun p => (Ok tt, if isAtEnd p then p else set_pos (S (pos p)) p).

Definition valueIs (v : string) (tok : Token.t) : bool :=
  match Token.value tok with
  | Str s => String.eqb s v
  | _ => false
  end.

Definition matchOperator (value : string) : M bool :=
  fun p =>
    if check OPERATOR p && valueIs value (current p)
    then (advance ;;; ret true) p
    else (Ok false, p).

Definition expect (type : TokenType) (expected : string) : M unit :=
  fun p =>
    if check type p then advance p
    else (Throw (Expected expected (Token.line (current p))), p).

(** [matchOperator(o1) || matchOperator(o2) || ...] followed by
    [this.previous().value]: the operator that was consumed, if any. *)
Fixpoint matchAny (ops : list string) : M (option string) :=
  match ops with
  | op :: ops' =>
      let* matched := matchOperator op in
      if matched : bool then ret (Some op) else matchAny ops'
  | [] => ret None
  end.

(** The number carried by a [NUMBER] token and the text carried by a token
    of another type. *)
Definition numberOf (tok : Token.t) : float :=
  match Token.value tok with Num x => x | _ => nan end.
Definition textOf (tok : Token.t) : string :=
  match Token.value tok with Str s => s | _ => "" end.

Definition truth (b : bool) : float := if b then 1%float else 0%float.

Section Evaluator.

Context `{host : Math.Host}.

(** The numbers that [Math.random()] returns during this invocation, in
    order. *)
Variable random : nat -> float.

(** [args[i]] converted to a number: a missing argument is [undefined],
    which [Math] reads as [NaN]. *)
Definition arg (i : nat) (args : list float) : float := nth i args nan.

Definition BUILTIN_FUNCTIONS : gmap string (list float -> M float) :=
  list_to_map
    [ ("abs", fun args => ret (Math.abs (arg 0 args)));
      ("cos", fun args => ret (Math.cos (arg 0 args)));
      ("sin", fun args => ret (Math.sin (arg 0 args)));
      ("tan", fun args => ret (Math.tan (arg 0 args)));
      ("exp", fun args => ret (Math.exp (arg 0 args)));
      ("sqrt", fun args => ret (Math.sqrt (arg 0 args)));
      ("int", fun args => ret (Math.round (arg 0 args)));
      ("pow", fun args => ret (Math.pow (arg 0 args) (arg 1 args)));
      ("min", fun args => ret (Math.min (arg 0 args) (arg 1 args)));
      ("max", fun args => ret (Math.max (arg 0 args) (arg 1 args)));
      ("random", fun _ => fun p => (Ok (random (drawn p)), set_drawn (S (drawn p)) p)) ].

(** *** Expressions

    Every method takes the [expression] it calls back for a nested
    expression, and [fuel], which bounds the rounds of its loop. *)

(** [let left = operand(); while (matchOperator(...)) { const right =
    operand(); left = apply(op, left, right); } return left;] *)
Fixpoint binaryLoop (fuel : nat) (ops : list string) (operand : M float)
    (apply : string -> float -> float -> M float) (left : float) : M float :=
  match fuel with
  | S fuel' =>
      let* op := matchAny ops in
      match op with
      | Some op =>
          let* right := operand in
          let* left' := apply op left right in
          binaryLoop fuel' ops operand apply left'
      | None => ret left
      end
  | 0 => diverge
  end.

Definition binary (fuel : nat) (ops : list string) (operand : M float)
    (apply : string -> float -> float -> M float) : M float :=
  let* left := operand in
  binaryLoop fuel ops operand apply left.

(** [while (this.check(TokenType.COMMA)) { this.advance();
    args.push(this.expression()); }] *)
Fixpoint argumentsLoop (fuel : nat) (expression : M float) (args : list float)
    : M (list float) :=
  match fuel with
  | S fuel' =>
      fun p =>
        if check COMMA p then
          (advance ;;;
           let* a := expression in
           argumentsLoop fuel' expression (args ++ [a])) p
        else (Ok args, p)
  | 0 => diverge
  end.

Definition functionCall (fuel : nat) (expression : M float) (name : string) : M float :=
  expect LPAREN "(" ;;;
  let* args :=
    (fun p =>
       if negb (check RPAREN p) then
         (let* a := expression in argumentsLoop fuel expression [a]) p
       else (Ok [], p)) in
  expect RPAREN ")" ;;;
  match BUILTIN_FUNCTIONS !! Text.toLowerCase name with
  | Some f => f args
  | None => throw (UnknownFunction name)
  end.

Definition primary (fuel : nat) (expression : M float) : M float :=
  fun p =>
    let token := current p in
    if bool_decide (Token.type token = NUMBER) then
      (advance ;;; ret (numberOf token)) p
    else if bool_decide (Token.type token = LPAREN) then
      (advance ;;;
       let* value := expression in
       expect RPAREN ")" ;;;
       ret value) p
    else if bool_decide (Token.type token = NAME) then
      (advance ;;;
       fun p =>
         if check LPAREN p then functionCall fuel expression (textOf token) p
         else
           let name := textOf token in
           match variables p !! name with
           | Some v => (Ok v, p)
           | None =>
               match CONSTANTS !! Text.toLowerCase name with
               | Some v => (Ok v, p)
               | None => (Throw (UndefinedVariable name (Token.line token)), p)
               end
           end) p
    else (Throw (UnexpectedToken (Token.value token) (Token.line token)), p).

Fixpoint unary (fuel : nat) (expression : M float) : M float :=
  match fuel with
  | S fuel' =>
      let* minus := matchOperator "-" in
      if minus : bool then
        let* v := unary fuel' expression in
        ret (PrimFloat.opp v)
      else primary (S fuel') expression
  | 0 => diverge
  end.

Definition factor (fuel : nat) (expression : M float) : M float :=
  binary fuel ["*"; "/"; "%"] (unary fuel expression)
    (fun op left right =>
       if String.eqb op "*" then ret (PrimFloat.mul left right)
       else if String.eqb op "/" then
         if PrimFloat.eqb right 0 then throw DivisionByZero
         else ret (PrimFloat.div left right)
       else ret (Number.rem left right)).

Definition term (fuel : nat) (expression : M float) : M float :=
  binary fuel ["+"; "-"] (factor fuel expression)
    (fun op left right =>
       if String.eqb op "+" then ret (PrimFloat.add left right)
       else ret (PrimFloat.sub left right)).

Definition comparison (fuel : nat) (expression : M float) : M float :=
  binary fuel ["<"; ">"; "<="; ">="] (term fuel expression)
    (fun op left right =>
       if String.eqb op "<" then ret (truth (PrimFloat.ltb left right))
       else if String.eqb op ">" then ret (truth (PrimFloat.ltb right left))
       else if String.eqb op "<=" then ret (truth (PrimFloat.leb left right))
       else ret (truth (PrimFloat.leb right left))).

Definition equality (fuel : nat) (expression : M float) : M float :=
  binary fuel ["=="; "!="] (comparison fuel expression)
    (fun op left right =>
       if String.eqb op "==" then ret (truth (PrimFloat.eqb left right))
       else ret (truth (negb (PrimFloat.eqb left right)))).

Definition and (fuel : nat) (expression : M float) : M float :=
  binary fuel ["&&"] (equality fuel expression)
    (fun _ left right =>
       ret (truth (PrimFloat.ltb 0 left && PrimFloat.ltb 0 right))).

Definition or (fuel : nat) (expression : M float) : M float :=
  binary fuel ["||"] (and fuel expression)
    (fun _ left right =>
       ret (truth (PrimFloat.ltb 0 left || PrimFloat.ltb 0 right))).

Fixpoint expression (fuel : nat) : M float :=
  match fuel with
  | S fuel' => or (S fuel') (expression fuel')
  | 0 => diverge
  end.

(** *** Statements *)

(** [while (!this.check(TokenType.RBRACE) && !this.isAtEnd())
    this.statement();] *)
Fixpoint blockLoop (fuel : nat) (statement : M unit) : M unit :=
  match fuel with
  | S fuel' =>
      fun p =>
        if negb (check RBRACE p) && negb (isAtEnd p)
        then (statement ;;; blockLoop fuel' statement) p
        else (Ok tt, p)
  | 0 => diverge
  end.

(** [while (depth > 0 && !this.isAtEnd()) { ... }] of [skipBlock] *)
Fixpoint skipLoop (fuel : nat) (depth : nat) : M unit :=
  match fuel with
  | S fuel' =>
      fun p =>
        if (0 <? depth)%nat && negb (isAtEnd p) then
          let depth := if check LBRACE p then S depth else depth in
          let depth := if check RBRACE p then depth - 1 else depth in
          if (0 <? depth)%nat then (advance ;;; skipLoop fuel' depth) p
          else skipLoop fuel' depth p
        else (Ok tt, p)
  | 0 => diverge
  end.

Definition skipBlock (fuel : nat) : M unit := skipLoop (S fuel) 1.

Definition isElse (p : t) : bool :=
  check KEYWORD p && valueIs "else" (current p).

Definition ifStatement (fuel : nat) (statement : M unit) : M unit :=
  advance ;;;
  expect LPAREN "(" ;;;
  let* condition := expression fuel in
  expect RPAREN ")" ;;;
  expect LBRACE "{" ;;;
  if PrimFloat.ltb 0 condition then
    blockLoop fuel statement ;;;
    expect RBRACE "}" ;;;
    fun p =>
      if isElse p then
        (advance ;;;
         expect LBRACE "{" ;;;
         skipBlock fuel ;;;
         expect RBRACE "}") p
      else (Ok tt, p)
  else
    skipBlock fuel ;;;
    expect RBRACE "}" ;;;
    fun p =>
      if isElse p then
        (advance ;;;
         expect LBRACE "{" ;;;
         blockLoop fuel statement ;;;
         expect RBRACE "}") p
      else (Ok tt, p).

Definition isConstant (name : string) : bool :=
  bool_decide (is_Some (CONSTANTS !! Text.toLowerCase name)).

Definition assignment (fuel : nat) : M unit :=
  fun p =>
    let name := textOf (current p) in
    (advance ;;;
     expect ASSIGN "=" ;;;
     let* value := expression fuel in
     expect SEMICOLON ";" ;;;
     fun p =>
       if isConstant name
       then (Throw (CannotReassignConstant name (Token.line (previous p))), p)
       else (Ok tt, set_variables (<[name := value]> (variables p)) p)) p.

Fixpoint statement (fuel : nat) : M unit :=
  match fuel with
  | S fuel' =>
      fun p =>
        let token := current p in
        if bool_decide (Token.type token = KEYWORD) && valueIs "if" token then
          ifStatement (S fuel') (statement fuel') p
        else if bool_decide (Token.type token = NAME) then
          assignment (S fuel') p
        else if bool_decide (Token.type token = RBRACE)
                || bool_decide (Token.type token = EOF) then
          (Ok tt, p)
        else (Throw (UnexpectedToken (Token.value token) (Token.line token)), p)
  | 0 => diverge
  end.

(** [while (!this.isAtEnd()) { this.statement(); }] *)
Fixpoint statements (fuel : nat) : M unit :=
  match fuel with
  | S fuel' =>
      fun p =>
        if negb (isAtEnd p) then (statement (S fuel') ;;; statements fuel') p
        else (Ok tt, p)
  | 0 => diverge
  end.

End Evaluator.

(** *** The preprocessor *)

(** [/#define_param\s+(\w+)\s+range\s+(?:from\s+)?(\S+)\s+to\s+(\S+)(?:\s+default\s+(\S+))?/i] *)
Definition paramPattern : RegExp.t :=
  RegExp.seq
    [ RegExp.Lit "#define_param"; RegExp.spaces;
      RegExp.Group 1 RegExp.words; RegExp.spaces;
      RegExp.Lit "range"; RegExp.spaces;
      RegExp.Opt (RegExp.Seq (RegExp.Lit "from") RegExp.spaces);
      RegExp.Group 2 RegExp.nonspaces; RegExp.spaces;
      RegExp.Lit "to"; RegExp.spaces;
      RegExp.Group 3 RegExp.nonspaces;
      RegExp.Opt
        (RegExp.seq
           [ RegExp.spaces; RegExp.Lit "default"; RegExp.spaces;
             RegExp.Group 4 RegExp.nonspaces ]) ].

(** [/#define_var\s+(\w+)\s+(\S+)/i] *)
Definition varPattern : RegExp.t :=
  RegExp.seq
    [ RegExp.Lit "#define_var"; RegExp.spaces;
      RegExp.Group 1 RegExp.words; RegExp.spaces;
      RegExp.Group 2 RegExp.nonspaces ].

(** The text of a capture group; a group of these patterns that took part
    in the match is never empty. *)
Definition group (n : nat) (caps : RegExp.captures) : string := default "" (caps !! n).

Definition number (s : string) : float := Text.parseFloat (list_ascii_of_string s).

Definition handlePreprocessor (directive : string) (p : t) : t :=
  match RegExp.exec paramPattern (list_ascii_of_string directive) with
  | Some paramMatch =>
      let name := group 1 paramMatch in
      let min := number (group 2 paramMatch) in
      let max := number (group 3 paramMatch) in
      let defaultVal :=
        match paramMatch !! 4 with
        | Some defaultStr => number defaultStr
        | None => min
        end in
      let p := set_params (params p ++ [Param.make name (Some min) (Some max) defaultVal false]) p in
      if bool_decide (is_Some (variables p !! name)) then p
      else set_variables (<[name := defaultVal]> (variables p)) p
  | None =>
      match RegExp.exec varPattern (list_ascii_of_string directive) with
      | Some varMatch =>
          let name := group 1 varMatch in
          let value := number (group 2 varMatch) in
          let p := set_params (params p ++ [Param.make name None None value true]) p in
          if bool_decide (is_Some (staticVariables p !! name)) then p
          else
            set_variables (<[name := value]> (variables p))
              (set_staticVariables (<[name := value]> (staticVariables p)) p)
      | None => p
      end
  end.

(** The loop of [processPreprocessor] over [this.tokens]. *)
Fixpoint processTokens (ts newTokens : list Token.t) (p : t) : list Token.t * t :=
  match ts with
  | token :: ts' =>
      if bool_decide (Token.type token = PREPROCESSOR)
      then processTokens ts' newTokens (handlePreprocessor (textOf token) p)
      else processTokens ts' (newTokens ++ [token]) p
  | [] => (newTokens, p)
  end.

Definition processPreprocessor (p : t) : t :=
  let p := set_params [] p in
  let '(newTokens, p) := processTokens (tokens p) [] p in
  set_tokens newTokens p.

(** *** [parse] *)

(** What [parse] returns: on a lexical error the [context] object it was
    given, which has no [errors] property; otherwise a fresh object
    [{rate, errors}]. *)
Inductive Result :=
| ReturnedContext (context : Context)
| Returned (rate : float) (errors : list Message).

(** [for (const param of this.params.filter(p => p.isStatic))
    this.staticVariables[param.name] = this.variables[param.name];]
    the variable of a static parameter is always defined. *)
Definition saveStatic (p : t) : t :=
  set_staticVariables
    (fold_left
       (fun statics param =>
          <[Param.name param := default nan (variables p !! Param.name param)]> statics)
       (filter (fun param => Param.isStatic param = true) (params p))
       (staticVariables p))
    p.

Definition rateOf (p : t) : float :=
  match variables p !! "rate" with
  | Some x => Number.or_zero x
  | None => 0%float
  end.

Section Parse.

Context `{host : Math.Host}.
Variable random : nat -> float.

(** The start of [parse]: the state is reset and the variables are built
    from the context, the constants and the static variables. *)
Definition initialise (context : Context) (p : t) : t :=
  let p := set_drawn 0 (set_errors [] (set_pos 0 p)) in
  let p := set_variables {[ "rate" := rate context; "traffic" := traffic context ]} p in
  let p := set_variables (CONSTANTS ∪ variables p) p in
  set_variables (staticVariables p ∪ variables p) p.

(** [parse] up to the end of the [try] block around the statements: the
    lexical error of the tokenizer, or the way the execution of the
    statements ended, each with the state reached. *)
Definition execute (context : Context) (p : t) : Message * t + Outcome unit * t :=
  let p := initialise context p in
  match Tokenizer.tokenize (Tokenizer.create (source p)) with
  | inl e => inl (e, p)
  | inr ts =>
      let p := processPreprocessor (set_tokens ts p) in
      inr (statements random (S (length (tokens p))) p)
  end.

(** [parse(context)]; [None] when the call never returns. *)
Definition parse (context : Context) (p : t) : option Result * t :=
  match execute context p with
  | inl (e, p) => (Some (ReturnedContext context), set_errors (errors p ++ [e]) p)
  | inr (Diverge, p) => (None, p)
  | inr (outcome, p) =>
      let p :=
        match outcome with
        | Throw e => set_errors (errors p ++ [e]) p
        | _ => p
        end in
      let p := saveStatic p in
      (Some (Returned (rateOf p) (errors p)), p)
  end.

End Parse.

Definition getParams (p : t) : list Param.t := params p.

Definition setVariable (name : string) (value : float) (p : t) : t :=
  set_variables (<[name := value]> (variables p)) p.

Definition resetStaticVars (p : t) : t := set_staticVariables ∅ p.

End ScriptParser.

(** ** The simulation ([simulation.js]) *)

Module Sender.

Record t := make {
  rate : float;
  parser : ScriptParser.t;
  scriptContent : string;
}.

Definition create (scriptContent : string) : t :=
  make 0%float (ScriptParser.create scriptContent) scriptContent.

Definition setScript (content : string) (s : t) : t :=
  make (rate s) (ScriptParser.create content) content.

(** [Math.max(0, Math.min(1, rate))] *)
Definition clamp (rate : float) : float := Math.max 0 (Math.min 1 rate).

Definition setRate (rate : float) (s : t) : t :=
  make (clamp rate) (parser s) (scriptContent s).

Definition getRate (s : t) : float := rate s.

(** [{ success: false, errors }] or [{ success: true, rate }] *)
Inductive Result :=
| Failure (errors : list Message)
| Success (rate : float).

Definition success (r : Result) : bool :=
  match r with Success _ => true | Failure _ => false end.

(** [for (const [name, value] of Object.entries(params))
    this.parser.setVariable(name, value);] *)
Definition setVariables (params : list (string * float)) (p : ScriptParser.t)
    : ScriptParser.t :=
  fold_left (fun p entry => ScriptParser.setVariable entry.1 entry.2 p) params p.

Section Methods.

Context `{host : Math.Host}.
Variable random : nat -> float.

(** [calculate(traffic, params)], [params] being the entries of the
    object in their order.  Reading [result.errors.length] throws when
    [parse] returned its [context], which has no [errors]. *)
Definition calculate (traffic : float) (params : list (string * float)) (s : t)
    : Outcome Result * t :=
  let parser := setVariables params (parser s) in
  let context := {| ScriptParser.rate := rate s; ScriptParser.traffic := traffic |} in
  match ScriptParser.parse random context parser with
  | (None, parser) => (Diverge, make (rate s) parser (scriptContent s))
  | (Some (ScriptParser.ReturnedContext _), parser) =>
      (Throw CannotReadLength, make (rate s) parser (scriptContent s))
  | (Some (ScriptParser.Returned rate' errors), parser) =>
      if (0 <? length errors)%nat then
        (Ok (Failure errors), make (rate s) parser (scriptContent s))
      else
        (Ok (Success (clamp rate')), make (clamp rate') parser (scriptContent s))
  end.

Definition getParams (s : t) : Outcome (list Param.t) * t :=
  let context := {| ScriptParser.rate := 0%float; ScriptParser.traffic := 0%float |} in
  match ScriptParser.parse random context (parser s) with
  | (None, parser) => (Diverge, make (rate s) parser (scriptContent s))
  | (Some _, parser) =>
      (Ok (ScriptParser.getParams parser), make (rate s) parser (scriptContent s))
  end.

End Methods.

Definition resetStaticVars (s : t) : t :=
  make (rate s) (ScriptParser.resetStaticVars (parser s)) (scriptContent s).

End Sender.

Module SimulationEngine.

(** The record of one step. *)
Record StepData := {
  step : nat;
  oldX : float;
  oldY : float;
  x : float;
  y : float;
  traffic : float;
  distance : float;
  progress : float;
}.

(** An entry of the trajectory: [{ x, y, step: 0 }] for the start, the
    record of the step afterwards. *)
Inductive Point :=
| Start (x y : float)
| Step (data : StepData).

Definition pointX (pt : Point) : float :=
  match pt with Start x _ => x | Step d => x d end.
Definition pointY (pt : Point) : float :=
  match pt with Start _ y => y | Step d => y d end.
Definition pointStep (pt : Point) : nat :=
  match pt with Start _ _ => 0 | Step d => step d end.

(** What a run does that its surroundings see: the calls of a sender's
    [calculate] and the calls of the registered callbacks. *)
Inductive Event :=
| Calculate (step : nat) (sender : nat)
| OnError (errors : list Message)
| OnStep (data : StepData)
| OnComplete (trajectory : list Point).

(** [{ sender0: {...}, sender1: {...} }] *)
Record Params := {
  sender0 : list (string * float);
  sender1 : list (string * float);
}.

(** The fields of the engine; [senders] and [rtt] are arrays of two
    elements.  [trace] is the sequence of events so far. *)
Record t := make {
  senders : Sender.t * Sender.t;
  duration : nat;
  rtt : nat * nat;
  animationDelay : nat;
  isRunning : bool;
  currentStep : nat;
  trajectory : list Point;
  trace : list Event;
}.

Definition create : t :=
  make (Sender.create "", Sender.create "") 50 (1, 1) 1 false 0 [] [].

Definition set_senders (ss : Sender.t * Sender.t) (e : t) : t :=
  make ss (duration e) (rtt e) (animationDelay e) (isRunning e) (currentStep e)
    (trajectory e) (trace e).
Definition set_isRunning (b : bool) (e : t) : t :=
  make (senders e) (duration e) (rtt e) (animationDelay e) b (currentStep e)
    (trajectory e) (trace e).
Definition set_currentStep (n : nat) (e : t) : t :=
  make (senders e) (duration e) (rtt e) (animationDelay e) (isRunning e) n
    (trajectory e) (trace e).
Definition set_trajectory (tr : list Point) (e : t) : t :=
  make (senders e) (duration e) (rtt e) (animationDelay e) (isRunning e) (currentStep e)
    tr (trace e).
Definition emit (ev : Event) (e : t) : t :=
  make (senders e) (duration e) (rtt e) (animationDelay e) (isRunning e) (currentStep e)
    (trajectory e) (trace e ++ [ev]).

(** [this.senders[i]] and [this.rtt[i]] for [i] in [0, 1] *)
Definition sender (i : nat) (e : t) : Sender.t :=
  if (i =? 0)%nat then (senders e).1 else (senders e).2.
Definition set_sender (i : nat) (s : Sender.t) (e : t) : t :=
  if (i =? 0)%nat then set_senders (s, (senders e).2) e
  else set_senders ((senders e).1, s) e.
Definition rttOf (i : nat) (e : t) : nat :=
  if (i =? 0)%nat then (rtt e).1 else (rtt e).2.

Definition setScript (senderIndex : nat) (content : string) (e : t) : t :=
  set_sender senderIndex (Sender.setScript content (sender senderIndex e)) e.

(** [Math.max(1, parseInt(v) || fallback)]; [None] stands for [NaN]. *)
Definition atLeastOne (v : option Z) (fallback : Z) : nat :=
  let n := match v with
           | Some z => if (z =? 0)%Z then fallback else z
           | None => fallback
           end in
  Z.to_nat (Z.max 1 n).

Definition setDuration (duration : option Z) (e : t) : t :=
  make (senders e) (atLeastOne duration 50) (rtt e) (animationDelay e) (isRunning e)
    (currentStep e) (trajectory e) (trace e).

Definition setRTT (senderIndex : nat) (rtt' : option Z) (e : t) : t :=
  let r := atLeastOne rtt' 1 in
  make (senders e) (duration e)
    (if (senderIndex =? 0)%nat then (r, (rtt e).2) else ((rtt e).1, r))
    (animationDelay e) (isRunning e) (currentStep e) (trajectory e) (trace e).

Definition setAnimationDelay (delay : option Z) (e : t) : t :=
  make (senders e) (duration e) (rtt e) (atLeastOne delay 1) (isRunning e)
    (currentStep e) (trajectory e) (trace e).

Definition setStartPosition (x y : float) (e : t) : t :=
  set_senders (Sender.setRate x (senders e).1, Sender.setRate y (senders e).2) e.

Definition resetSenders (e : t) : t :=
  set_senders (Sender.resetStaticVars (senders e).1, Sender.resetStaticVars (senders e).2) e.

Definition reset (e : t) : t :=
  resetSenders (set_trajectory [] (set_currentStep 0 (set_isRunning false e))).

Definition stop (e : t) : t := set_isRunning false e.

Definition getTrajectory (e : t) : list Point := trajectory e.

(** [step % this.rtt[i] === 0]; the remainder by zero is [NaN]. *)
Definition due (step rtt : nat) : bool :=
  match rtt with
  | 0 => false
  | _ => (step mod rtt =? 0)%nat
  end.

Section Run.

Context `{host : Math.Host}.

(** [random step i] are the numbers that [Math.random()] returns to sender
    [i] at step [step]; [stopRequested step] tells whether [stop()] is
    called while the run pauses after step [step]. *)
Variable random : nat -> nat -> nat -> float.
Variable stopRequested : nat -> bool.

Definition getParams (senderIndex : nat) (e : t) : Outcome (list Param.t) * t :=
  let '(r, s) := Sender.getParams (random 0 senderIndex) (sender senderIndex e) in
  (r, set_sender senderIndex s e).

(** The body of [for (let i = 0; i < this.senders.length; i++)]. *)
Definition updateSender (step : nat) (traffic : float) (params : Params) (i : nat)
    (errors : list Message) (e : t) : Outcome (list Message) * t :=
  if due step (rttOf i e) then
    let senderParams := if (i =? 0)%nat then sender0 params else sender1 params in
    let e := emit (Calculate step i) e in
    match Sender.calculate (random step i) traffic senderParams (sender i e) with
    | (Ok result, s) =>
        (Ok (match result with
             | Sender.Failure errs => (errors ++ errs)%list
             | Sender.Success _ => errors
             end),
         set_sender i s e)
    | (Throw m, s) => (Throw m, set_sender i s e)
    | (Diverge, s) => (Diverge, set_sender i s e)
    end
  else (Ok errors, e).

(** The body of the loop over the steps, up to the pause. *)
Definition runStep (params : Params) (step : nat) (e : t) : Outcome unit * t :=
  let e := set_currentStep step e in
  let oldRates := (Sender.getRate (sender 0 e), Sender.getRate (sender 1 e)) in
  let traffic := PrimFloat.add oldRates.1 oldRates.2 in
  match updateSender step traffic params 0 [] e with
  | (Ok errors, e) =>
      match updateSender step traffic params 1 errors e with
      | (Ok errors, e) =>
          let e := if (0 <? length errors)%nat then emit (OnError errors) e else e in
          let newX := Sender.getRate (sender 0 e) in
          let newY := Sender.getRate (sender 1 e) in
          let distance :=
            Math.sqrt (PrimFloat.add (Math.pow (PrimFloat.sub 0.5 newX) 2)
                                     (Math.pow (PrimFloat.sub 0.5 newY) 2)) in
          let stepData :=
            {| step := step; oldX := oldRates.1; oldY := oldRates.2;
               x := newX; y := newY; traffic := PrimFloat.add newX newY;
               distance := distance;
               progress := PrimFloat.div (Number.of_nat step) (Number.of_nat (duration e)) |} in
          let e := set_trajectory (trajectory e ++ [Step stepData]) e in
          (Ok tt, emit (OnStep stepData) e)
      | (Throw m, e) => (Throw m, e)
      | (Diverge, e) => (Diverge, e)
      end
  | (Throw m, e) => (Throw m, e)
  | (Diverge, e) => (Diverge, e)
  end.

(** [for (let step = 1; step <= this.duration && this.isRunning; step++)],
    with [remaining = duration - step + 1] rounds left. *)
Fixpoint steps (remaining : nat) (params : Params) (step : nat) (e : t)
    : Outcome unit * t :=
  match remaining with
  | S remaining' =>
      if isRunning e then
        match runStep params step e with
        | (Ok _, e) =>
            let e := if stopRequested step then stop e else e in
            steps remaining' params (S step) e
        | (Throw m, e) => (Throw m, e)
        | (Diverge, e) => (Diverge, e)
        end
      else (Ok tt, e)
  | 0 => (Ok tt, e)
  end.

(** [run(params)]: [Ok] when the promise is fulfilled, [Throw] when it is
    rejected, [Diverge] when it is never settled. *)
Definition run (params : Params) (e : t) : Outcome unit * t :=
  if isRunning e then (Ok tt, e)
  else
    let e := set_trajectory [] (set_currentStep 0 (set_isRunning true e)) in
    let e := resetSenders e in
    let startX := Sender.getRate (sender 0 e) in
    let startY := Sender.getRate (sender 1 e) in
    let e := set_trajectory (trajectory e ++ [Start startX startY]) e in
    match steps (duration e) params 1 e with
    | (Ok _, e) =>
        let e := set_isRunning false e in
        (Ok tt, emit (OnComplete (trajectory e)) e)
    | (Throw m, e) => (Throw m, e)
    | (Diverge, e) => (Diverge, e)
    end.

End Run.

End SimulationEngine.

(** * Properties of the model

    The relations and predicates in which the facts on the model are stated,
    and the inputs of the worked examples. *)

Module ParserProps.

Import ScriptParser.

(** Every call of [m] leaves the state in relation [R] with the state it
    returns. *)
Definition preserves (R : t -> t -> Prop) {A} (m : M A) : Prop := forall p, R p (m p).2.

(** The tokens stay and the position does not move back. *)
Definition Mono (p p' : t) : Prop :=
  tokens p' = tokens p /\ pos p <= pos p'.

(** The number of tokens from the current one on. *)
Definition remaining (p : t) : nat := length (tokens p) - pos p.

(** A call that consumed a token. *)
Definition Moved (p p' : t) : Prop :=
  tokens p' = tokens p /\ pos p < pos p' /\ pos p < length (tokens p).

(** [m] returns or throws from every state with fewer than [n] tokens
    left. *)
Definition terminates {A} (n : nat) (m : M A) : Prop :=
  forall p, remaining p < n -> (m p).1 <> Diverge.

(** A statement that returns where a block goes on has consumed a
    token. *)
Definition progresses (stmt : M unit) : Prop :=
  forall p p', stmt p = (Ok tt, p') ->
    Token.type (current p) <> RBRACE -> isAtEnd p = false -> Moved p p'.

(** Only the position and the count of random draws differ. *)
Definition Untouched (p p' : t) : Prop :=
  source p' = source p /\ tokens p' = tokens p /\ variables p' = variables p
  /\ staticVariables p' = staticVariables p /\ params p' = params p
  /\ errors p' = errors p.

(** Everything but the variables, the position and the count of random
    draws is the same. *)
Definition Framed (p p' : t) : Prop :=
  source p' = source p /\ tokens p' = tokens p
  /\ staticVariables p' = staticVariables p /\ params p' = params p
  /\ errors p' = errors p.

(** What [saveStatic] writes for the name [n]. *)
Definition currentValue (p : t) (n : string) : float := default nan (variables p !! n).

(** A parameter of a [define_param] directive. *)
Definition tunable (d : Param.t) : Prop := Param.isStatic d = false.

(** Two parsers of the same script with the same static store. *)
Definition Alike (p q : t) : Prop :=
  source p = source q /\ staticVariables p = staticVariables q.

(** The parts of [ifStatement]: its header up to the brace that opens the
    first block, which gives the value of the condition, and how it goes on
    after the first block: the [else] block is skipped or run. *)
Definition ifHeader `{host : Math.Host} (random : nat -> float) (fuel : nat) : M float :=
  bind advance (fun _ =>
  bind (expect LPAREN "(") (fun _ =>
  bind (expression random fuel) (fun condition =>
  bind (expect RPAREN ")") (fun _ =>
  bind (expect LBRACE "{") (fun _ => ret condition))))).

Definition skipElse (fuel : nat) : M unit :=
  fun p =>
    if isElse p then
      bind advance (fun _ =>
      bind (expect LBRACE "{") (fun _ =>
      bind (skipBlock fuel) (fun _ => expect RBRACE "}"))) p
    else (Ok tt, p).

Definition runElse (fuel : nat) (stmt : M unit) : M unit :=
  fun p =>
    if isElse p then
      bind advance (fun _ =>
      bind (expect LBRACE "{") (fun _ =>
      bind (blockLoop fuel stmt) (fun _ => expect RBRACE "}"))) p
    else (Ok tt, p).

(** The outcomes of the steps that only check a token. *)
Definition syntaxOnly (o : Outcome unit) : Prop :=
  o = Ok tt \/ exists s l, o = Throw (Expected s l).

(** The position is within the tokens, whose last one is [EOF]. *)
Definition InRange (p : t) : Prop :=
  exists ts eof, tokens p = (ts ++ [eof])%list /\ Token.type eof = EOF /\ pos p <= length ts.

(** The relation of a call that keeps the position within the tokens. *)
Definition Ranged (p p' : t) : Prop :=
  tokens p' = tokens p /\ (InRange p -> InRange p').

(** Every stored static variable and every static parameter has its
    variable. *)
Definition Backed (p : t) : Prop :=
  (forall n, is_Some (staticVariables p !! n) -> is_Some (variables p !! n))
  /\ forall d, d ∈ params p -> Param.isStatic d = true ->
       is_Some (variables p !! Param.name d).

(** The relation of a call that only adds variables. *)
Definition Growing (p p' : t) : Prop :=
  params p' = params p
  /\ forall n, is_Some (variables p !! n) -> is_Some (variables p' !! n).

End ParserProps.

Module TokenizerProps.

Import Tokenizer.

(** The source stays and the position does not move back. *)
Definition Forward (tk tk' : t) : Prop :=
  source tk' = source tk /\ pos tk <= pos tk'.

End TokenizerProps.

Module EngineProps.

Import SimulationEngine.

(** The rate of sender [i] in an entry of the trajectory. *)
Definition coordinate (i : nat) (pt : Point) : float :=
  if (i =? 0)%nat then pointX pt else pointY pt.

(** The calls of [calculate] among the events. *)
Definition calls (events : list Event) : list (nat * nat) :=
  omap (fun ev => match ev with Calculate k i => Some (k, i) | _ => None end) events.

(** What holds of a trajectory and of the events since [base]: entry
    [k] is the record of step [k]; a sender was called at a recorded step
    exactly when the step was due for it; and where it was not, its rate
    is the one of the entry before. *)
Definition Gated (rtt0 : nat * nat) (base : list Event) (e : t) : Prop :=
  exists events,
    trace e = (base ++ events)%list
    /\ (forall k i, (k, i) ∈ calls events ->
          i < 2 /\ due k (if (i =? 0)%nat then rtt0.1 else rtt0.2) = true)
    /\ forall k pt, trajectory e !! k = Some pt ->
          pointStep pt = k
          /\ (1 <= k -> forall i, i < 2 ->
              (due k (if (i =? 0)%nat then rtt0.1 else rtt0.2) = true ->
               (k, i) ∈ calls events)
              /\ (due k (if (i =? 0)%nat then rtt0.1 else rtt0.2) = false ->
                  exists prev, trajectory e !! (k - 1) = Some prev
                    /\ coordinate i pt = coordinate i prev)).

(** The invariant of the loop of [run] before step [step]. *)
Definition Before (rtt0 : nat * nat) (base : list Event) (step : nat) (e : t) : Prop :=
  rtt e = rtt0 /\ length (trajectory e) = step
  /\ (exists last, trajectory e !! (step - 1) = Some last
        /\ pointX last = Sender.rate (sender 0 e)
        /\ pointY last = Sender.rate (sender 1 e))
  /\ Gated rtt0 base e.

End EngineProps.

(** The error that stopped the statements, and the state reached, in what
    [execute] returns. *)
Definition raised (r : Message * ScriptParser.t + Outcome unit * ScriptParser.t)
    : option Message :=
  match r with
  | inr (Throw e, _) => Some e
  | _ => None
  end.

Definition reached (r : Message * ScriptParser.t + Outcome unit * ScriptParser.t)
    : ScriptParser.t :=
  match r with
  | inl (_, p) => p
  | inr (_, p) => p
  end.

(** The state in which the statements of a script start to run. *)
Definition ready (context : ScriptParser.Context) (source : string) : ScriptParser.t :=
  let p := ScriptParser.initialise context (ScriptParser.create source) in
  match Tokenizer.tokenize (Tokenizer.create source) with
  | inr ts => ScriptParser.processPreprocessor (ScriptParser.set_tokens ts p)
  | inl _ => p
  end.

(** ** Inputs of the worked examples *)

(** A host; none of the examples depends on what it returns. *)
Definition exampleHost : Math.Host :=
  {| Math.cos _ := nan; Math.sin _ := nan; Math.tan _ := nan; Math.exp _ := nan;
     Math.pow _ _ := nan |}.

Definition noRandom : nat -> float := fun _ => 0%float.

Definition noStop : nat -> bool := fun _ => false.

Definition newline : string := String "010" EmptyString.

Definition congested : ScriptParser.Context :=
  {| ScriptParser.rate := 0.5; ScriptParser.traffic := 1.5 |}.

(** A counter in a static variable. *)
Definition counter : string :=
  "#define_var counter 0" ++ newline ++ "counter = counter + 1;" ++ newline
  ++ "rate = counter / 8;".

(** The same counter, with a statement that fails after the counter has been
    updated. *)
Definition failingCounter : string :=
  "#define_var counter 0" ++ newline ++ "counter = counter + 1;" ++ newline
  ++ "rate = 1 / 0;".

(** Two senders that add to their rate, the second one at every second
    step. *)
Definition gatedEngine : SimulationEngine.t :=
  SimulationEngine.setRTT 1 (Some 2%Z)
    (SimulationEngine.setDuration (Some 4%Z)
       (SimulationEngine.setStartPosition 0.125 0.25
          (SimulationEngine.setScript 1 "rate = rate + 0.125;"
             (SimulationEngine.setScript 0 "rate = rate + 0.0625;"
                SimulationEngine.create)))).

(** ** Blocks, tokens and runs *)

Module BlockProps.

(** Tokens in which every brace has its partner, as the body of a block
    has them; no token is [EOF]. *)
Inductive Balanced : list Token.t -> Prop :=
| Balanced_nil : Balanced []
| Balanced_token tok ts :
    Token.type tok <> LBRACE -> Token.type tok <> RBRACE -> Token.type tok <> EOF ->
    Balanced ts -> Balanced (tok :: ts)
| Balanced_block lb inner rb ts :
    Token.type lb = LBRACE -> Token.type rb = RBRACE ->
    Balanced inner -> Balanced ts -> Balanced (lb :: inner ++ rb :: ts)%list.

End BlockProps.

Module TokenProps.

(** The number of line feeds in a text. *)
Definition newlines (cs : list ascii) : nat :=
  length (filter (fun c => c = "010"%char) cs).

(** A name of the language: letters, digits and underscores, the first of
    them no digit. *)
Definition identifier (s : string) : bool :=
  match list_ascii_of_string s with
  | c :: cs => (Text.isAlpha c || Ascii.eqb c "_") && forallb Text.isAlphaNumeric cs
  | [] => false
  end.

Definition startsWithHash (s : string) : bool :=
  match s with
  | String c _ => Ascii.eqb c "#"
  | EmptyString => false
  end.

(** The value that goes with the type of a token. *)
Definition wellFormed (tok : Token.t) : bool :=
  match Token.type tok, Token.value tok with
  | NUMBER, Num _ => true
  | NAME, Str s =>
      identifier s && negb (bool_decide (Text.toLowerCase s ∈ Tokenizer.KEYWORDS))
  | KEYWORD, Str s => bool_decide (s ∈ Tokenizer.KEYWORDS)
  | OPERATOR, Str s => bool_decide (s ∈ Tokenizer.OPERATORS)
  | LPAREN, Str s => String.eqb s "("
  | RPAREN, Str s => String.eqb s ")"
  | LBRACE, Str s => String.eqb s "{"
  | RBRACE, Str s => String.eqb s "}"
  | SEMICOLON, Str s => String.eqb s ";"
  | COMMA, Str s => String.eqb s ","
  | ASSIGN, Str s => String.eqb s "="
  | PREPROCESSOR, Str s => startsWithHash s
  | EOF, Null => true
  | _, _ => false
  end.

(** The characters at which [tokenize] never fails: each of them is white
    space or starts a token or a comment, whatever follows it. *)
Definition accepted (c : ascii) : bool :=
  Text.isAlphaNumeric c
  || bool_decide
       (c ∈ [" "; "009"; "013"; "010"; "#"; "("; ")"; "{"; "}"; ";"; ","; "=";
             "+"; "-"; "*"; "/"; "%"; "<"; ">"]%char).

(** The lines of the tokens never go down. *)
Definition ascending (ts : list Token.t) : Prop :=
  forall i j a b, i <= j -> ts !! i = Some a -> ts !! j = Some b ->
    Token.line a <= Token.line b.

(** A round of the loop of [tokenize]: it reads characters of the current
    line and adds at most one token, which is of that line. *)
Definition Reads (tk tk' : Tokenizer.t) : Prop :=
  Tokenizer.source tk' = Tokenizer.source tk
  /\ Tokenizer.line tk' = Tokenizer.line tk
  /\ (exists n, Tokenizer.pos tk' = Tokenizer.pos tk + n
         /\ newlines (take n (Tokenizer.rest tk)) = 0)
  /\ (Tokenizer.tokens tk' = Tokenizer.tokens tk
      \/ exists tok, Tokenizer.tokens tk' = (Tokenizer.tokens tk ++ [tok])%list
           /\ Token.line tok = Tokenizer.line tk
           /\ wellFormed tok = true /\ Token.type tok <> EOF).

(** What holds of a tokenizer between two rounds. *)
Definition Sound (tk : Tokenizer.t) : Prop :=
  Tokenizer.line tk = 1 + newlines (take (Tokenizer.pos tk) (Tokenizer.source tk))
  /\ Forall (fun tok => wellFormed tok = true /\ Token.type tok <> EOF
                        /\ 1 <= Token.line tok <= Tokenizer.line tk)
       (Tokenizer.tokens tk)
  /\ ascending (Tokenizer.tokens tk).

End TokenProps.

Module RunProps.

Import SimulationEngine.

(** Both coordinates of an entry of the trajectory are rates. *)
Definition inUnitSquare (pt : Point) : Prop :=
  Number.in_unit_interval (pointX pt) /\ Number.in_unit_interval (pointY pt).

(** Every entry after the first is the record of a step that starts where
    the entry before it ends. *)
Definition Linked (tr : list Point) : Prop :=
  forall k pt, tr !! S k = Some pt ->
    exists d prev, pt = Step d /\ tr !! k = Some prev
      /\ step d = S k
      /\ oldX d = pointX prev /\ oldY d = pointY prev
      /\ traffic d = PrimFloat.add (x d) (y d).

(** Two senders with the same rate and the same script. *)
Definition sameSender (s s' : Sender.t) : Prop :=
  Sender.rate s = Sender.rate s'
  /\ ScriptParser.source (Sender.parser s) = ScriptParser.source (Sender.parser s').

(** Two engines set up alike: the same duration and round trip times, and
    senders with the same rates and scripts. *)
Definition sameSetup (e e' : t) : Prop :=
  duration e = duration e' /\ rtt e = rtt e'
  /\ sameSender (senders e).1 (senders e').1
  /\ sameSender (senders e).2 (senders e').2.

(** Two engines in the same step of a run: what the steps to come depend on
    is the same in both. *)
Definition inStep (e e' : t) : Prop :=
  duration e = duration e' /\ rtt e = rtt e' /\ isRunning e = isRunning e'
  /\ trajectory e = trajectory e'
  /\ forall i, i < 2 ->
       Sender.rate (sender i e) = Sender.rate (sender i e')
       /\ ParserProps.Alike (Sender.parser (sender i e)) (Sender.parser (sender i e')).

(** The records handed to [onStep], the trajectories handed to [onComplete]
    and the lists of messages handed to [onError] among the events. *)
Definition notified (events : list Event) : list StepData :=
  omap (fun ev => match ev with OnStep d => Some d | _ => None end) events.
Definition completed (events : list Event) : list (list Point) :=
  omap (fun ev => match ev with OnComplete tr => Some tr | _ => None end) events.
Definition reported (events : list Event) : list (list Message) :=
  omap (fun ev => match ev with OnError errors => Some errors | _ => None end) events.

(** The records of the steps in a trajectory. *)
Definition recorded (tr : list Point) : list StepData :=
  omap (fun pt => match pt with Step d => Some d | Start _ _ => None end) tr.

(** What holds of the callbacks of a run in its loop: [onStep] has been
    given the records of the trajectory, one after the other; [onComplete]
    has not been called; [onError] has been given one or two messages at
    each of its calls. *)
Definition Told (base : list Event) (e : t) : Prop :=
  exists events,
    trace e = (base ++ events)%list
    /\ notified events = recorded (trajectory e)
    /\ completed events = []
    /\ Forall (fun errors => 1 <= length errors <= 2) (reported events).

(** The duration and the round trip times are at least one. *)
Definition Configured (e : t) : Prop :=
  1 <= duration e /\ 1 <= (rtt e).1 /\ 1 <= (rtt e).2 /\ 1 <= animationDelay e.

End RunProps.

#[local] Close Scope string_scope.
#[local] Close Scope char_scope.

(** ** Facts about numbers *)

Lemma SFcompare_antisym (x y : spec_float) :
  SFcompare y x = option_map CompOpp (SFcompare x y).
Proof.
  destruct x as [sx|sx| |sx mx ex], y as [sy|sy| |sy my ey]; simpl; try reflexivity;
    try (destruct sx; reflexivity); try (destruct sy; reflexivity);
    try (destruct sx, sy; reflexivity).
  rewrite (Z.compare_antisym ey ex).
  destruct sx, sy; simpl; try reflexivity;
    destruct (ey ?= ex)%Z; simpl; try reflexivity;
    rewrite ?CompOpp_involutive; f_equal;
    rewrite Pos.compare_cont_antisym; simpl; rewrite ?CompOpp_involutive; reflexivity.
Qed.

Lemma is_nan_compare (x y : float) :
  PrimFloat.is_nan x = false -> PrimFloat.is_nan y = false ->
  SFcompare (Prim2SF x) (Prim2SF y) <> None.
Proof.
  unfold PrimFloat.is_nan. rewrite !FloatAxioms.eqb_spec. unfold SFeqb.
  intros Hx Hy.
  destruct (Prim2SF x) as [sx|sx| |sx mx ex], (Prim2SF y) as [sy|sy| |sy my ey];
    simpl in *; discriminate.
Qed.

Lemma ltb_leb (x y : float) : PrimFloat.ltb x y = true -> PrimFloat.leb x y = true.
Proof.
  rewrite FloatAxioms.ltb_spec, FloatAxioms.leb_spec. unfold SFltb, SFleb.
  destruct (SFcompare _ _) as [[]|]; congruence.
Qed.

Lemma not_ltb_leb (x y : float) :
  PrimFloat.is_nan x = false -> PrimFloat.is_nan y = false ->
  PrimFloat.ltb x y = false -> PrimFloat.leb y x = true.
Proof.
  intros Hx Hy. pose proof (is_nan_compare x y Hx Hy) as Hc.
  rewrite FloatAxioms.ltb_spec, FloatAxioms.leb_spec. unfold SFltb, SFleb.
  rewrite (SFcompare_antisym (Prim2SF x) (Prim2SF y)).
  destruct (SFcompare _ _) as [[]|]; simpl; congruence.
Qed.

Lemma clamp_in_unit_interval (x : float) :
  PrimFloat.is_nan x = false -> Number.in_unit_interval (Sender.clamp x).
Proof.
  intros Hx. unfold Sender.clamp, Math.min.
  replace (PrimFloat.is_nan 1) with false by reflexivity. rewrite Hx. simpl orb.
  replace (PrimFloat.get_sign 1) with false by reflexivity.
  assert (Hm : exists m, (if PrimFloat.ltb 1 x then 1%float
                     else if PrimFloat.ltb x 1 then x else x) = m
                    /\ PrimFloat.is_nan m = false /\ PrimFloat.leb m 1 = true).
  { destruct (PrimFloat.ltb 1 x) eqn:H1.
    - exists 1%float. repeat split; reflexivity.
    - exists x. split; [destruct (PrimFloat.ltb x 1); reflexivity|]. split; [assumption|].
      apply not_ltb_leb; [reflexivity|assumption|assumption]. }
  destruct Hm as (m & -> & Hn & Hle). unfold Math.max.
  replace (PrimFloat.is_nan 0) with false by reflexivity. rewrite Hn. simpl orb.
  replace (PrimFloat.get_sign 0) with false by reflexivity.
  destruct (PrimFloat.ltb 0 m) eqn:H0.
  - split; [apply ltb_leb; assumption|assumption].
  - destruct (PrimFloat.ltb m 0); split; reflexivity.
Qed.

Lemma or_zero_not_nan (x : float) : PrimFloat.is_nan (Number.or_zero x) = false.
Proof.
  unfold Number.or_zero, Number.truthy.
  destruct (PrimFloat.is_nan x) eqn:Hx; simpl; [reflexivity|].
  destruct (PrimFloat.is_zero x); simpl; [reflexivity|assumption].
Qed.

(** ** What the methods of the parser leave unchanged *)

Module ParserFacts.

Import ScriptParser ParserProps.

Lemma bind_eq {A B} (m : M A) (f : A -> M B) (p : t) :
  bind m f p =
  match m p with
  | (Ok a, p') => f a p'
  | (Throw e, p') => (Throw e, p')
  | (Diverge, p') => (Diverge, p')
  end.
Proof. reflexivity. Qed.

Section Preservation.

Context `{host : Math.Host} (random : nat -> float).

(** A relation between the state before and the state after a call that
    is kept by the three ways an expression touches the state. *)
Variable R : t -> t -> Prop.
Hypothesis R_refl : forall p, R p p.
Hypothesis R_trans : forall p q r, R p q -> R q r -> R p r.
Hypothesis R_advance : forall p, isAtEnd p = false -> R p (set_pos (S (pos p)) p).
Hypothesis R_draw : forall p, R p (set_drawn (S (drawn p)) p).

#[local] Abbreviation preserves := (ParserProps.preserves R).

Lemma preserves_ret {A} (a : A) : preserves (ret a).
Proof. intros p. apply R_refl. Qed.

Lemma preserves_throw {A} (e : Message) : preserves (@throw A e).
Proof. intros p. apply R_refl. Qed.

Lemma preserves_diverge {A} : preserves (@diverge A).
Proof. intros p. apply R_refl. Qed.

Lemma preserves_bind {A B} (m : M A) (f : A -> M B) :
  preserves m -> (forall a, preserves (f a)) -> preserves (bind m f).
Proof.
  intros Hm Hf p. rewrite bind_eq. specialize (Hm p).
  destruct (m p) as [[a|e|] p']; simpl in *; try assumption.
  eapply R_trans; [eassumption|apply Hf].
Qed.

Lemma preserves_advance : preserves advance.
Proof.
  intros p. unfold advance. simpl.
  destruct (isAtEnd p) eqn:E; [apply R_refl|apply R_advance; assumption].
Qed.

Lemma preserves_matchOperator v : preserves (matchOperator v).
Proof.
  intros p. unfold matchOperator.
  destruct (check OPERATOR p && valueIs v (current p)); [|apply R_refl].
  apply (preserves_bind advance); [apply preserves_advance|intros; apply preserves_ret].
Qed.

Lemma preserves_expect ty s : preserves (expect ty s).
Proof.
  intros p. unfold expect.
  destruct (check ty p); [apply preserves_advance|apply R_refl].
Qed.

Lemma preserves_matchAny ops : preserves (matchAny ops).
Proof.
  induction ops as [|op ops IH]; simpl; [apply preserves_ret|].
  apply preserves_bind; [apply preserves_matchOperator|].
  intros [|]; [apply preserves_ret|apply IH].
Qed.

Lemma preserves_binaryLoop fuel ops operand apply :
  preserves operand -> (forall op l r, preserves (apply op l r)) ->
  forall left, preserves (binaryLoop fuel ops operand apply left).
Proof.
  intros Ho Ha. induction fuel as [|fuel IH]; intros left; simpl;
    [apply preserves_diverge|].
  apply preserves_bind; [apply preserves_matchAny|].
  intros [op|]; [|apply preserves_ret].
  apply preserves_bind; [assumption|intros r].
  apply preserves_bind; [apply Ha|intros l']. apply IH.
Qed.

Lemma preserves_binary fuel ops operand apply :
  preserves operand -> (forall op l r, preserves (apply op l r)) ->
  preserves (binary fuel ops operand apply).
Proof.
  intros Ho Ha. apply preserves_bind; [assumption|].
  intros l. apply preserves_binaryLoop; assumption.
Qed.

Lemma preserves_argumentsLoop fuel expr :
  preserves expr -> forall args, preserves (argumentsLoop fuel expr args).
Proof.
  intros He. induction fuel as [|fuel IH]; intros args; simpl;
    [apply preserves_diverge|].
  intros p. destruct (check COMMA p); [|apply R_refl].
  apply (preserves_bind advance); [apply preserves_advance|intros _].
  apply preserves_bind; [assumption|intros a]. apply IH.
Qed.

Lemma preserves_builtin name f args :
  BUILTIN_FUNCTIONS random !! name = Some f -> preserves (f args).
Proof.
  unfold BUILTIN_FUNCTIONS. intros H.
  apply elem_of_list_to_map_2 in H.
  repeat (apply elem_of_cons in H as [H|H];
          [injection H as -> ->; intros p; first [apply R_refl|apply R_draw]|]).
  apply elem_of_nil in H. destruct H.
Qed.

Lemma preserves_functionCall fuel expr name :
  preserves expr -> preserves (functionCall random fuel expr name).
Proof.
  intros He. unfold functionCall.
  apply preserves_bind; [apply preserves_expect|intros _].
  apply preserves_bind.
  { intros p. destruct (negb (check RPAREN p)); [|apply R_refl].
    apply (preserves_bind expr); [assumption|intros a].
    apply preserves_argumentsLoop; assumption. }
  intros args. apply preserves_bind; [apply preserves_expect|intros _].
  destruct (BUILTIN_FUNCTIONS random !! Text.toLowerCase name) eqn:E;
    [eapply preserves_builtin; eassumption|apply preserves_throw].
Qed.

Lemma preserves_primary fuel expr :
  preserves expr -> preserves (primary random fuel expr).
Proof.
  intros He p. unfold primary.
  repeat case_bool_decide.
  - apply (preserves_bind advance); [apply preserves_advance|intros; apply preserves_ret].
  - apply (preserves_bind advance); [apply preserves_advance|intros _].
    apply preserves_bind; [assumption|intros v].
    apply preserves_bind; [apply preserves_expect|intros; apply preserves_ret].
  - apply (preserves_bind advance); [apply preserves_advance|intros _].
    intros q. destruct (check LPAREN q); [apply preserves_functionCall; assumption|].
    destruct (variables q !! _); [apply R_refl|].
    destruct (CONSTANTS !! _); apply R_refl.
  - apply R_refl.
Qed.

Lemma preserves_unary fuel expr :
  preserves expr -> preserves (unary random fuel expr).
Proof.
  intros He. induction fuel as [|fuel IH]; simpl; [apply preserves_diverge|].
  apply preserves_bind; [apply preserves_matchOperator|].
  intros [|]; [|apply preserves_primary; assumption].
  apply preserves_bind; [apply IH|intros; apply preserves_ret].
Qed.

Ltac level next :=
  intros He; apply preserves_binary; [apply next; assumption|];
  intros op l r;
  repeat match goal with
         | |- preserves (if ?c then _ else _) => destruct c
         end;
  first [apply preserves_ret | apply preserves_throw].

Lemma preserves_factor fuel expr : preserves expr -> preserves (factor random fuel expr).
Proof. level preserves_unary. Qed.

Lemma preserves_term fuel expr : preserves expr -> preserves (term random fuel expr).
Proof. level preserves_factor. Qed.

Lemma preserves_comparison fuel expr :
  preserves expr -> preserves (comparison random fuel expr).
Proof. level preserves_term. Qed.

Lemma preserves_equality fuel expr :
  preserves expr -> preserves (equality random fuel expr).
Proof. level preserves_comparison. Qed.

Lemma preserves_and fuel expr : preserves expr -> preserves (and random fuel expr).
Proof. level preserves_equality. Qed.

Lemma preserves_or fuel expr : preserves expr -> preserves (or random fuel expr).
Proof. level preserves_and. Qed.

Lemma preserves_expression fuel : preserves (expression random fuel).
Proof.
  induction fuel as [|fuel IH]; simpl; [apply preserves_diverge|].
  apply preserves_or. assumption.
Qed.

Lemma preserves_skipLoop fuel depth : preserves (skipLoop fuel depth).
Proof.
  revert depth. induction fuel as [|fuel IH]; intros depth; simpl;
    [apply preserves_diverge|].
  intros p. destruct ((0 <? depth)%nat && negb (isAtEnd p)); [|apply R_refl].
  match goal with |- context [if (0 <? ?d)%nat then _ else _] => destruct (0 <? d)%nat end.
  - apply (preserves_bind advance); [apply preserves_advance|intros _; apply IH].
  - apply IH.
Qed.

Lemma preserves_skipBlock fuel : preserves (skipBlock fuel).
Proof. apply preserves_skipLoop. Qed.

(** The fourth way, of statements only: an assignment to a name that is
    not a constant. *)
Hypothesis R_assign : forall p name v,
  isConstant name = false -> R p (set_variables (<[name := v]> (variables p)) p).

Lemma preserves_blockLoop fuel stmt :
  preserves stmt -> preserves (blockLoop fuel stmt).
Proof.
  intros Hs. induction fuel as [|fuel IH]; simpl; [apply preserves_diverge|].
  intros p. destruct (negb (check RBRACE p) && negb (isAtEnd p)); [|apply R_refl].
  apply (preserves_bind stmt); [assumption|intros _; apply IH].
Qed.

Ltac after_condition Hs :=
  apply preserves_bind; [apply preserves_expect|intros _];
  apply preserves_bind; [apply preserves_expression|intros ?];
  apply preserves_bind; [apply preserves_expect|intros _];
  apply preserves_bind; [apply preserves_expect|intros _];
  match goal with |- context [PrimFloat.ltb 0 ?c] => destruct (PrimFloat.ltb 0 c) end;
  [ apply preserves_bind; [apply preserves_blockLoop; exact Hs|intros _];
    apply preserves_bind; [apply preserves_expect|intros _];
    intros ?; match goal with |- context [isElse ?p] => destruct (isElse p) end;
    [|apply R_refl];
    apply (preserves_bind advance); [apply preserves_advance|intros _];
    apply preserves_bind; [apply preserves_expect|intros _];
    apply preserves_bind; [apply preserves_skipBlock|intros _];
    apply preserves_expect
  | apply preserves_bind; [apply preserves_skipBlock|intros _];
    apply preserves_bind; [apply preserves_expect|intros _];
    intros ?; match goal with |- context [isElse ?p] => destruct (isElse p) end;
    [|apply R_refl];
    apply (preserves_bind advance); [apply preserves_advance|intros _];
    apply preserves_bind; [apply preserves_expect|intros _];
    apply preserves_bind; [apply preserves_blockLoop; exact Hs|intros _];
    apply preserves_expect ].

Lemma preserves_ifStatement fuel stmt :
  preserves stmt -> preserves (ifStatement random fuel stmt).
Proof.
  intros Hs. unfold ifStatement.
  apply preserves_bind; [apply preserves_advance|intros _].
  after_condition Hs.
Qed.

(** A statement that starts before the end consumes its first token, and
    what it does afterwards is related by [R] as well. *)
Lemma ifStatement_tail fuel stmt p :
  preserves stmt -> isAtEnd p = false ->
  R (set_pos (S (pos p)) p) (ifStatement random fuel stmt p).2.
Proof.
  intros Hs Hend. unfold ifStatement. rewrite bind_eq. unfold advance at 1.
  rewrite Hend. cbv beta match.
  generalize (set_pos (S (pos p)) p). clear p Hend.
  after_condition Hs.
Qed.

Ltac after_name :=
  apply preserves_bind; [apply preserves_expect|intros _];
  apply preserves_bind; [apply preserves_expression|intros ?];
  apply preserves_bind; [apply preserves_expect|intros _];
  intros ?;
  match goal with |- context [isConstant ?n] => destruct (isConstant n) eqn:? end;
  [apply R_refl|apply R_assign; assumption].

Lemma preserves_assignment fuel : preserves (assignment random fuel).
Proof.
  intros p. unfold assignment.
  apply (preserves_bind advance); [apply preserves_advance|intros _].
  after_name.
Qed.

Lemma assignment_tail fuel p :
  isAtEnd p = false ->
  R (set_pos (S (pos p)) p) (assignment random fuel p).2.
Proof.
  intros Hend. unfold assignment. rewrite bind_eq. unfold advance at 1.
  rewrite Hend. cbv beta match.
  generalize (textOf (current p)). intros name.
  generalize (set_pos (S (pos p)) p). clear p Hend.
  after_name.
Qed.

Lemma preserves_statement fuel : preserves (statement random fuel).
Proof.
  induction fuel as [|fuel IH]; simpl; [apply preserves_diverge|].
  intros p.
  destruct (bool_decide _ && valueIs "if" (current p));
    [apply preserves_ifStatement; assumption|].
  destruct (bool_decide (Token.type (current p) = NAME));
    [apply preserves_assignment|].
  destruct (_ || _); apply R_refl.
Qed.

Lemma statement_tail fuel p :
  (statement random fuel p).1 = Ok tt ->
  Token.type (current p) <> RBRACE -> isAtEnd p = false ->
  R (set_pos (S (pos p)) p) (statement random fuel p).2.
Proof.
  destruct fuel as [|fuel]; [discriminate|]. simpl. intros Hok Hb Hend.
  destruct (bool_decide _ && valueIs "if" (current p));
    [apply ifStatement_tail; [apply preserves_statement|assumption]|].
  destruct (bool_decide (Token.type (current p) = NAME));
    [apply assignment_tail; assumption|].
  destruct (_ || _) eqn:E; [|discriminate].
  apply orb_true_iff in E as [E|E]; apply bool_decide_eq_true in E; [contradiction|].
  unfold isAtEnd in Hend. apply bool_decide_eq_false in Hend. contradiction.
Qed.

Lemma statements_eq fuel p :
  statements random (S fuel) p =
  if negb (isAtEnd p)
  then bind (statement random (S fuel)) (fun _ => statements random fuel) p
  else (Ok tt, p).
Proof. reflexivity. Qed.

Lemma preserves_statements fuel : preserves (statements random fuel).
Proof.
  induction fuel as [|fuel IH]; [apply preserves_diverge|].
  intros p. rewrite statements_eq. destruct (negb (isAtEnd p)); [|apply R_refl].
  apply preserves_bind; [apply preserves_statement|intros _; apply IH].
Qed.

End Preservation.

(** *** The tokens and the position *)

Lemma Mono_refl p : Mono p p.
Proof. split; [reflexivity|lia]. Qed.

Lemma Mono_trans p q r : Mono p q -> Mono q r -> Mono p r.
Proof. intros [H1 H2] [H3 H4]. split; [congruence|lia]. Qed.

Lemma Mono_advance p : isAtEnd p = false -> Mono p (set_pos (S (pos p)) p).
Proof. intros _. split; simpl; [reflexivity|lia]. Qed.

Lemma Mono_draw p : Mono p (set_drawn (S (drawn p)) p).
Proof. split; simpl; [reflexivity|lia]. Qed.

Lemma Mono_assign p name v :
  isConstant name = false -> Mono p (set_variables (<[name := v]> (variables p)) p).
Proof. intros _. split; simpl; [reflexivity|lia]. Qed.

Lemma not_at_end p : isAtEnd p = false -> pos p < length (tokens p).
Proof.
  unfold isAtEnd, current. intros H. apply bool_decide_eq_false in H.
  destruct (decide (pos p < length (tokens p))) as [|Hge]; [assumption|].
  rewrite nth_overflow in H by lia. destruct H. reflexivity.
Qed.

Lemma check_not_at_end ty p : check ty p = true -> isAtEnd p = false.
Proof. unfold check. destruct (isAtEnd p); [discriminate|reflexivity]. Qed.

Lemma Moved_remaining p p' : Moved p p' -> remaining p' < remaining p.
Proof. unfold Moved, remaining. intros (-> & ? & ?). lia. Qed.

Lemma Mono_remaining p p' : Mono p p' -> remaining p' <= remaining p.
Proof. unfold Mono, remaining. intros (-> & ?). lia. Qed.

Lemma Moved_Mono p q r : Moved p q -> Mono q r -> Moved p r.
Proof. intros (H1 & H2 & H3) (H4 & H5). repeat split; [congruence|lia|assumption]. Qed.

Lemma advance_moved p :
  isAtEnd p = false -> advance p = (Ok tt, set_pos (S (pos p)) p) /\ Moved p (set_pos (S (pos p)) p).
Proof.
  intros H. unfold advance. rewrite H. split; [reflexivity|].
  apply not_at_end in H. repeat split; simpl; lia.
Qed.

Lemma matchOperator_cases v p :
  (exists p', matchOperator v p = (Ok true, p') /\ Moved p p')
  \/ matchOperator v p = (Ok false, p).
Proof.
  unfold matchOperator. destruct (check OPERATOR p) eqn:E; simpl; [|right; reflexivity].
  destruct (valueIs v (current p)); [|right; reflexivity].
  left. apply check_not_at_end, advance_moved in E as [E1 E2].
  rewrite bind_eq, E1. eexists; split; [reflexivity|assumption].
Qed.

Lemma matchAny_cases ops p :
  (exists op p', matchAny ops p = (Ok (Some op), p') /\ Moved p p' /\ op ∈ ops)
  \/ matchAny ops p = (Ok None, p).
Proof.
  induction ops as [|op ops IH]; simpl; [right; reflexivity|].
  rewrite bind_eq.
  destruct (matchOperator_cases op p) as [(p' & -> & Hm)| ->].
  - left. exists op, p'. repeat split; [apply Hm..|apply list_elem_of_here].
  - destruct IH as [(op' & p' & H1 & H2 & H3)|H1]; [left|right; assumption].
    exists op', p'. repeat split; [assumption|apply H2..|apply list_elem_of_further; assumption].
Qed.

Lemma expect_cases ty s p :
  (exists p', expect ty s p = (Ok tt, p') /\ Moved p p' /\ check ty p = true)
  \/ (expect ty s p = (Throw (Expected s (Token.line (current p))), p)
      /\ check ty p = false).
Proof.
  unfold expect. destruct (check ty p) eqn:E; [left|right; split; reflexivity].
  apply check_not_at_end, advance_moved in E as [E1 E2].
  eexists. split; [exact E1|]. split; [exact E2|reflexivity].
Qed.

Section Termination.

Context `{host : Math.Host} (random : nat -> float).

#[local] Abbreviation mono := (preserves Mono).

Lemma terminates_le {A} (m : M A) n n' :
  terminates n m -> n' <= n -> terminates n' m.
Proof. intros H Hle p Hp. apply H. lia. Qed.

Lemma bind_terminates {A B} (m : M A) (f : A -> M B) p :
  (m p).1 <> Diverge ->
  (forall a p', m p = (Ok a, p') -> (f a p').1 <> Diverge) ->
  (bind m f p).1 <> Diverge.
Proof.
  intros Hm Hf. rewrite bind_eq. destruct (m p) as [[a|e|] p'] eqn:E; simpl in *;
    [apply Hf; reflexivity|discriminate|congruence].
Qed.

Lemma mono_at {A} (m : M A) p o p' : mono m -> m p = (o, p') -> Mono p p'.
Proof. intros H E. specialize (H p). rewrite E in H. exact H. Qed.

Lemma matchAny_terminates ops p : (matchAny ops p).1 <> Diverge.
Proof.
  destruct (matchAny_cases ops p) as [(op & p' & -> & _)| ->]; discriminate.
Qed.

Lemma expect_terminates ty s p : (expect ty s p).1 <> Diverge.
Proof.
  destruct (expect_cases ty s p) as [(p' & -> & _)|[-> _]]; discriminate.
Qed.

Lemma matchOperator_terminates v p : (matchOperator v p).1 <> Diverge.
Proof.
  destruct (matchOperator_cases v p) as [(p' & -> & _)| ->]; discriminate.
Qed.

Lemma binaryLoop_terminates ops operand apply fuel :
  mono operand ->
  (forall op l r p, (apply op l r p).1 <> Diverge /\ (apply op l r p).2 = p) ->
  forall n left, n <= fuel -> terminates n operand ->
  terminates n (binaryLoop fuel ops operand apply left).
Proof.
  intros Hmono Happly. induction fuel as [|fuel IH]; intros n left Hn Ho p Hp; [lia|].
  simpl. apply bind_terminates; [apply matchAny_terminates|].
  intros [op|] p1 E1; [|discriminate].
  destruct (matchAny_cases ops p) as [(op' & p1' & E & Hm & _)|E];
    rewrite E in E1; [|discriminate]. injection E1 as -> ->.
  apply Moved_remaining in Hm.
  apply bind_terminates; [apply Ho; lia|]. intros r p2 E2.
  apply (mono_at _ _ _ _ Hmono), Mono_remaining in E2.
  apply bind_terminates; [apply Happly|]. intros l' p3 E3.
  pose proof (proj2 (Happly op left r p2)) as E4. rewrite E3 in E4. simpl in E4. subst p3.
  apply (IH (n - 1)); [lia|eapply terminates_le; [eassumption|lia]|lia].
Qed.

Lemma binary_terminates ops operand apply fuel n :
  mono operand ->
  (forall op l r p, (apply op l r p).1 <> Diverge /\ (apply op l r p).2 = p) ->
  n <= fuel -> terminates n operand ->
  terminates n (binary fuel ops operand apply).
Proof.
  intros Hmono Happly Hn Ho p Hp. unfold binary.
  apply bind_terminates; [apply Ho; assumption|]. intros l p1 E1.
  apply (mono_at _ _ _ _ Hmono), Mono_remaining in E1.
  apply (binaryLoop_terminates ops operand apply fuel Hmono Happly n l Hn Ho). lia.
Qed.

Ltac use_mono :=
  first [ assumption
        | apply preserves_unary | apply preserves_factor | apply preserves_term
        | apply preserves_comparison | apply preserves_equality | apply preserves_and
        | apply preserves_or | apply preserves_expression | apply preserves_primary
        | apply preserves_statement ];
  first [ assumption | apply Mono_refl | apply Mono_trans | apply Mono_advance
        | apply Mono_draw | apply Mono_assign ].

Lemma argumentsLoop_terminates expr fuel :
  mono expr ->
  forall n args, n <= fuel -> terminates n expr ->
  terminates n (argumentsLoop fuel expr args).
Proof.
  intros Hmono. induction fuel as [|fuel IH]; intros n args Hn He p Hp; [lia|].
  simpl. destruct (check COMMA p) eqn:E; [|discriminate].
  apply check_not_at_end, advance_moved in E as [E1 E2]. apply Moved_remaining in E2.
  rewrite bind_eq, E1.
  apply bind_terminates; [apply He; lia|]. intros a p2 E3.
  apply (mono_at _ _ _ _ Hmono), Mono_remaining in E3.
  apply (IH (n - 1)); [lia|eapply terminates_le; [eassumption|lia]|lia].
Qed.

Lemma builtin_terminates name f args p :
  BUILTIN_FUNCTIONS random !! name = Some f -> (f args p).1 <> Diverge.
Proof.
  unfold BUILTIN_FUNCTIONS. intros H.
  apply elem_of_list_to_map_2 in H.
  repeat (apply elem_of_cons in H as [H|H]; [injection H as -> ->; discriminate|]).
  apply elem_of_nil in H. destruct H.
Qed.

Lemma functionCall_terminates expr fuel n name :
  mono expr -> n <= fuel -> terminates n expr ->
  terminates n (functionCall random fuel expr name).
Proof.
  intros Hmono Hn He p Hp. unfold functionCall.
  apply bind_terminates; [apply expect_terminates|]. intros [] p1 E1.
  destruct (expect_cases LPAREN "(" p) as [(p1' & E & Hm & _)|[E _]];
    rewrite E in E1; [|discriminate]. simplify_eq.
  apply Moved_remaining in Hm.
  apply bind_terminates.
  { destruct (negb (check RPAREN p1)); [|discriminate].
    apply bind_terminates; [apply He; lia|]. intros a p2 E2.
    apply (mono_at _ _ _ _ Hmono), Mono_remaining in E2.
    apply (argumentsLoop_terminates expr fuel Hmono n [a] Hn He). lia. }
  intros args p3 _.
  apply bind_terminates; [apply expect_terminates|]. intros _ p4 _.
  destruct (BUILTIN_FUNCTIONS random !! Text.toLowerCase name) eqn:E4;
    [eapply builtin_terminates; eassumption|discriminate].
Qed.

Lemma primary_terminates expr fuel n :
  mono expr -> n <= fuel -> terminates (n - 1) expr ->
  terminates n (primary random fuel expr).
Proof.
  intros Hmono Hn He p Hp. unfold primary.
  assert (Hadv : forall ty, Token.type (current p) = ty -> ty <> EOF ->
            exists p1, advance p = (Ok tt, p1) /\ remaining p1 < n - 1).
  { intros ty Hty Hne. destruct (advance_moved p) as [E1 E2].
    - unfold isAtEnd. apply bool_decide_eq_false. congruence.
    - eexists; split; [exact E1|]. apply Moved_remaining in E2. lia. }
  repeat case_bool_decide.
  - rewrite bind_eq. destruct (Hadv NUMBER) as (p1 & -> & _); [assumption|discriminate|].
    discriminate.
  - rewrite bind_eq. destruct (Hadv LPAREN) as (p1 & -> & Hp1); [assumption|discriminate|].
    apply bind_terminates; [apply He; assumption|]. intros v p2 _.
    apply bind_terminates; [apply expect_terminates|]. discriminate.
  - rewrite bind_eq. destruct (Hadv NAME) as (p1 & -> & Hp1); [assumption|discriminate|].
    destruct (check LPAREN p1).
    + assert (He' : terminates (n - 1) expr) by assumption.
      apply (functionCall_terminates expr fuel (n - 1) _ Hmono); [lia|assumption|lia].
    + destruct (variables p1 !! _); [discriminate|].
      destruct (CONSTANTS !! _); discriminate.
  - discriminate.
Qed.

Lemma unary_terminates expr fuel :
  mono expr ->
  forall n, n <= fuel -> terminates (n - 1) expr ->
  terminates n (unary random fuel expr).
Proof.
  intros Hmono. induction fuel as [|fuel IH]; intros n Hn He p Hp; [lia|].
  simpl. apply bind_terminates; [apply matchOperator_terminates|].
  intros [|] p1 E1.
  - destruct (matchOperator_cases "-" p) as [(p1' & E & Hm)|E];
      rewrite E in E1; [|discriminate]. simplify_eq.
    apply Moved_remaining in Hm.
    apply bind_terminates; [|discriminate].
    apply (IH (n - 1)); [lia|eapply terminates_le; [eassumption|lia]|lia].
  - destruct (matchOperator_cases "-" p) as [(p1' & E & Hm)|E];
      rewrite E in E1; [discriminate|]. simplify_eq.
    apply (primary_terminates expr (S fuel) n Hmono Hn He). assumption.
Qed.

Ltac level_terminates next :=
  intros Hmono Hn He; apply binary_terminates;
  [ use_mono
  | intros op l r p;
    repeat match goal with
           | |- context [if ?c then _ else _] => destruct c
           end; split; first [discriminate|reflexivity]
  | assumption
  | apply next; assumption ].

Lemma factor_terminates expr fuel n :
  mono expr -> n <= fuel -> terminates (n - 1) expr ->
  terminates n (factor random fuel expr).
Proof. level_terminates unary_terminates. Qed.

Lemma term_terminates expr fuel n :
  mono expr -> n <= fuel -> terminates (n - 1) expr ->
  terminates n (term random fuel expr).
Proof. level_terminates factor_terminates. Qed.

Lemma comparison_terminates expr fuel n :
  mono expr -> n <= fuel -> terminates (n - 1) expr ->
  terminates n (comparison random fuel expr).
Proof. level_terminates term_terminates. Qed.

Lemma equality_terminates expr fuel n :
  mono expr -> n <= fuel -> terminates (n - 1) expr ->
  terminates n (equality random fuel expr).
Proof. level_terminates comparison_terminates. Qed.

Lemma and_terminates expr fuel n :
  mono expr -> n <= fuel -> terminates (n - 1) expr ->
  terminates n (and random fuel expr).
Proof. level_terminates equality_terminates. Qed.

Lemma or_terminates expr fuel n :
  mono expr -> n <= fuel -> terminates (n - 1) expr ->
  terminates n (or random fuel expr).
Proof. level_terminates and_terminates. Qed.

(** An expression is evaluated or refused whenever the fuel exceeds the
    number of tokens left. *)
Lemma expression_terminates fuel n :
  n <= fuel -> terminates n (expression random fuel).
Proof.
  revert n. induction fuel as [|fuel IH]; intros n Hn p Hp; [lia|].
  simpl. refine (or_terminates _ (S fuel) n _ Hn _ p Hp); [use_mono|].
  apply IH. lia.
Qed.

(** *** Statements *)

Lemma skipLoop_terminates fuel :
  forall n depth, n < fuel -> terminates n (skipLoop fuel depth).
Proof.
  induction fuel as [|fuel IH]; intros n depth Hn p Hp; [lia|].
  simpl. destruct ((0 <? depth)%nat && negb (isAtEnd p)) eqn:E; [|discriminate].
  apply andb_true_iff in E as [_ E]. apply negb_true_iff in E.
  match goal with |- context [if (0 <? ?d)%nat then _ else _] =>
    destruct (0 <? d)%nat eqn:Ed; [|generalize d Ed; intros d' Ed'] end.
  - destruct (advance_moved p E) as [E1 E2]. apply Moved_remaining in E2.
    rewrite bind_eq, E1. apply (IH (n - 1)); lia.
  - destruct fuel as [|fuel]; [lia|]. simpl. rewrite Ed'. discriminate.
Qed.

Lemma skipBlock_terminates fuel n : n <= fuel -> terminates n (skipBlock fuel).
Proof. intros Hn. apply skipLoop_terminates. lia. Qed.

Lemma statement_progresses fuel : progresses (statement random fuel).
Proof.
  intros p p' E Hb Hend.
  pose proof (statement_tail random Mono Mono_refl Mono_trans Mono_advance Mono_draw
                Mono_assign fuel p) as H.
  rewrite E in H. specialize (H eq_refl Hb Hend). simpl in H.
  destruct H as [H1 H2]. simpl in *. apply not_at_end in Hend.
  repeat split; [assumption|lia|assumption].
Qed.

Lemma blockLoop_terminates stmt fuel :
  mono stmt -> progresses stmt ->
  forall n, n <= fuel -> terminates n stmt -> terminates n (blockLoop fuel stmt).
Proof.
  intros Hmono Hprog. induction fuel as [|fuel IH]; intros n Hn Hs p Hp; [lia|].
  simpl. destruct (negb (check RBRACE p) && negb (isAtEnd p)) eqn:E; [|discriminate].
  apply andb_true_iff in E as [E1 E2].
  apply negb_true_iff in E1, E2.
  apply bind_terminates; [apply Hs; assumption|]. intros [] p1 E3.
  apply Hprog, Moved_remaining in E3; [|unfold check in E1; rewrite E2 in E1;
    simpl in E1; apply bool_decide_eq_false in E1; assumption|assumption].
  apply (IH (n - 1)); [lia|eapply terminates_le; [eassumption|lia]|lia].
Qed.

Lemma ifStatement_terminates stmt fuel n :
  mono stmt -> progresses stmt -> n <= fuel -> terminates (n - 1) stmt ->
  terminates n (ifStatement random fuel stmt).
Proof.
  intros Hmono Hprog Hn Hs p Hp. unfold ifStatement.
  pose proof (preserves_advance Mono Mono_refl Mono_advance p) as Ha.
  rewrite bind_eq. destruct (advance p) as [[[]| |] p0] eqn:E0; try discriminate.
  simpl in Ha. apply Mono_remaining in Ha.
  apply bind_terminates; [apply expect_terminates|]. intros [] p1 E1.
  destruct (expect_cases LPAREN "(" p0) as [(p1' & E & Hm & _)|[E _]];
    rewrite E in E1; [|discriminate]. simplify_eq. apply Moved_remaining in Hm.
  apply bind_terminates; [apply (expression_terminates fuel n Hn); lia|].
  intros c p2 E2.
  apply (mono_at (expression random fuel)), Mono_remaining in E2; [|use_mono].
  apply bind_terminates; [apply expect_terminates|]. intros [] p3 E3.
  apply (mono_at (expect RPAREN ")")), Mono_remaining in E3;
    [|apply preserves_expect; [exact Mono_refl|exact Mono_advance]].
  apply bind_terminates; [apply expect_terminates|]. intros [] p4 E4.
  apply (mono_at (expect LBRACE "{")), Mono_remaining in E4;
    [|apply preserves_expect; [exact Mono_refl|exact Mono_advance]].
  assert (Hblock : forall q, remaining q < n - 1 -> (blockLoop fuel stmt q).1 <> Diverge).
  { apply blockLoop_terminates; [assumption..|lia|assumption]. }
  assert (Hskip : forall q, remaining q < n -> (skipBlock fuel q).1 <> Diverge).
  { apply skipBlock_terminates. assumption. }
  assert (Hblock' : mono (blockLoop fuel stmt)).
  { apply preserves_blockLoop; [exact Mono_refl|exact Mono_trans|assumption]. }
  assert (Hskip' : mono (skipBlock fuel)).
  { apply preserves_skipBlock; [exact Mono_refl|exact Mono_trans|exact Mono_advance]. }
  destruct (PrimFloat.ltb 0 c).
  - apply bind_terminates; [apply Hblock; lia|]. intros [] p5 E5.
    apply (mono_at _ _ _ _ Hblock'), Mono_remaining in E5.
    apply bind_terminates; [apply expect_terminates|]. intros [] p6 E6.
    apply (mono_at (expect RBRACE "}")), Mono_remaining in E6;
      [|apply preserves_expect; [exact Mono_refl|exact Mono_advance]].
    destruct (isElse p6); [|discriminate].
    pose proof (preserves_advance Mono Mono_refl Mono_advance p6) as Ha6.
    rewrite bind_eq. destruct (advance p6) as [[[]| |] p7] eqn:E7; try discriminate.
    simpl in Ha6. apply Mono_remaining in Ha6.
    apply bind_terminates; [apply expect_terminates|]. intros [] p8 E8.
    apply (mono_at (expect LBRACE "{")), Mono_remaining in E8;
      [|apply preserves_expect; [exact Mono_refl|exact Mono_advance]].
    apply bind_terminates; [apply Hskip; lia|]. intros [] p9 E9.
    apply expect_terminates.
  - apply bind_terminates; [apply Hskip; lia|]. intros [] p5 E5.
    apply (mono_at _ _ _ _ Hskip'), Mono_remaining in E5.
    apply bind_terminates; [apply expect_terminates|]. intros [] p6 E6.
    apply (mono_at (expect RBRACE "}")), Mono_remaining in E6;
      [|apply preserves_expect; [exact Mono_refl|exact Mono_advance]].
    destruct (isElse p6); [|discriminate].
    pose proof (preserves_advance Mono Mono_refl Mono_advance p6) as Ha6.
    rewrite bind_eq. destruct (advance p6) as [[[]| |] p7] eqn:E7; try discriminate.
    simpl in Ha6. apply Mono_remaining in Ha6.
    apply bind_terminates; [apply expect_terminates|]. intros [] p8 E8.
    apply (mono_at (expect LBRACE "{")), Mono_remaining in E8;
      [|apply preserves_expect; [exact Mono_refl|exact Mono_advance]].
    apply bind_terminates; [apply Hblock; lia|]. intros [] p9 E9.
    apply expect_terminates.
Qed.

Lemma assignment_terminates fuel n :
  n <= fuel -> terminates n (assignment random fuel).
Proof.
  intros Hn p Hp. unfold assignment.
  pose proof (preserves_advance Mono Mono_refl Mono_advance p) as Ha.
  rewrite bind_eq. destruct (advance p) as [[[]| |] p0] eqn:E0; try discriminate.
  simpl in Ha. apply Mono_remaining in Ha.
  apply bind_terminates; [apply expect_terminates|]. intros [] p1 E1.
  apply (mono_at (expect ASSIGN "=")), Mono_remaining in E1;
    [|apply preserves_expect; [exact Mono_refl|exact Mono_advance]].
  apply bind_terminates; [apply (expression_terminates fuel n Hn); lia|].
  intros v p2 _.
  apply bind_terminates; [apply expect_terminates|]. intros [] p3 _.
  destruct (isConstant _); discriminate.
Qed.

Lemma statement_terminates fuel :
  forall n, n <= fuel -> terminates n (statement random fuel).
Proof.
  induction fuel as [|fuel IH]; intros n Hn p Hp; [lia|].
  simpl.
  destruct (bool_decide _ && valueIs "if" (current p)).
  - refine (ifStatement_terminates _ (S fuel) n _ _ Hn _ p Hp).
    + use_mono.
    + apply statement_progresses.
    + apply IH. lia.
  - destruct (bool_decide (Token.type (current p) = NAME));
      [apply (assignment_terminates (S fuel) n Hn); assumption|].
    destruct (_ || _); discriminate.
Qed.

(** A closing brace outside any block is never consumed: the loop over
    the statements of the script runs forever there, whatever the
    fuel. *)
Lemma statements_spin fuel p :
  Token.type (current p) = RBRACE -> statements random fuel p = (Diverge, p).
Proof.
  intros Hb. induction fuel as [|fuel IH]; [reflexivity|].
  rewrite statements_eq.
  assert (E : isAtEnd p = false).
  { unfold isAtEnd. apply bool_decide_eq_false. rewrite Hb. discriminate. }
  rewrite E. simpl negb. cbv iota. rewrite bind_eq.
  assert (Es : statement random (S fuel) p = (Ok tt, p)).
  { simpl. rewrite Hb. reflexivity. }
  rewrite Es. exact IH.
Qed.

(** With more fuel than tokens left, the loop over the statements returns
    or throws, except from such a closing brace. *)
Lemma statements_diverge fuel :
  forall p p', remaining p < fuel ->
  statements random fuel p = (Diverge, p') ->
  Token.type (current p') = RBRACE.
Proof.
  induction fuel as [|fuel IH]; intros p p' Hp E; [lia|].
  rewrite statements_eq in E.
  destruct (isAtEnd p) eqn:Hend; cbn [negb] in E; [discriminate|].
  destruct (decide (Token.type (current p) = RBRACE)) as [Hb|Hb].
  { pose proof (statements_spin (S fuel) p Hb) as E'.
    rewrite statements_eq, Hend in E'. cbn [negb] in E'. rewrite E' in E.
    simplify_eq. assumption. }
  rewrite bind_eq in E.
  pose proof (statement_terminates (S fuel) (S fuel) (le_n _) p Hp) as Hs.
  destruct (statement random (S fuel) p) as [[[]| |] p1] eqn:E1;
    [|discriminate|simpl in Hs; congruence].
  apply statement_progresses, Moved_remaining in E1; [|assumption..].
  apply (IH p1 p'); [lia|assumption].
Qed.

End Termination.

(** *** What expressions and statements leave alone *)

Lemma Untouched_refl p : Untouched p p.
Proof. repeat split. Qed.

Lemma Untouched_trans p q r : Untouched p q -> Untouched q r -> Untouched p r.
Proof. unfold Untouched. intros H1 H2. destruct_and!. repeat split; congruence. Qed.

Lemma Untouched_advance p : isAtEnd p = false -> Untouched p (set_pos (S (pos p)) p).
Proof. intros _. repeat split. Qed.

Lemma Untouched_draw p : Untouched p (set_drawn (S (drawn p)) p).
Proof. repeat split. Qed.

Lemma Untouched_Framed p p' : Untouched p p' -> Framed p p'.
Proof. unfold Untouched, Framed. intros H. destruct_and!. repeat split; assumption. Qed.

Lemma Framed_refl p : Framed p p.
Proof. repeat split. Qed.

Lemma Framed_trans p q r : Framed p q -> Framed q r -> Framed p r.
Proof. unfold Framed. intros H1 H2. destruct_and!. repeat split; congruence. Qed.

Lemma Framed_advance p : isAtEnd p = false -> Framed p (set_pos (S (pos p)) p).
Proof. intros _. repeat split. Qed.

Lemma Framed_draw p : Framed p (set_drawn (S (drawn p)) p).
Proof. repeat split. Qed.

Lemma Framed_assign p name v :
  isConstant name = false -> Framed p (set_variables (<[name := v]> (variables p)) p).
Proof. intros _. repeat split. Qed.

Section Frames.

Context `{host : Math.Host} (random : nat -> float).

(** Evaluating an expression changes no variable. *)
Lemma expression_untouched fuel p : Untouched p (expression random fuel p).2.
Proof.
  apply preserves_expression;
    [exact Untouched_refl|exact Untouched_trans|exact Untouched_advance
    |exact Untouched_draw].
Qed.

(** Skipping a block changes no variable. *)
Lemma skipBlock_untouched fuel p : Untouched p (skipBlock fuel p).2.
Proof.
  apply preserves_skipBlock;
    [exact Untouched_refl|exact Untouched_trans|exact Untouched_advance].
Qed.

Lemma statement_framed fuel p : Framed p (statement random fuel p).2.
Proof.
  apply preserves_statement;
    [exact Framed_refl|exact Framed_trans|exact Framed_advance|exact Framed_draw
    |exact Framed_assign].
Qed.

Lemma statements_framed fuel p : Framed p (statements random fuel p).2.
Proof.
  apply preserves_statements;
    [exact Framed_refl|exact Framed_trans|exact Framed_advance|exact Framed_draw
    |exact Framed_assign].
Qed.

End Frames.

(** *** The preprocessor *)

Lemma handlePreprocessor_frame directive p :
  source (handlePreprocessor directive p) = source p
  /\ tokens (handlePreprocessor directive p) = tokens p
  /\ pos (handlePreprocessor directive p) = pos p
  /\ errors (handlePreprocessor directive p) = errors p
  /\ drawn (handlePreprocessor directive p) = drawn p.
Proof.
  unfold handlePreprocessor.
  destruct (RegExp.exec paramPattern _) as [caps|].
  { cbv zeta. case_bool_decide; repeat split. }
  destruct (RegExp.exec varPattern _) as [caps|]; [|repeat split].
  cbv zeta. case_bool_decide; repeat split.
Qed.

Lemma processTokens_frame ts : forall acc p,
  source (processTokens ts acc p).2 = source p
  /\ tokens (processTokens ts acc p).2 = tokens p
  /\ pos (processTokens ts acc p).2 = pos p
  /\ errors (processTokens ts acc p).2 = errors p
  /\ drawn (processTokens ts acc p).2 = drawn p.
Proof.
  induction ts as [|tok ts IH]; intros acc p; simpl; [repeat split|].
  case_bool_decide; [|apply IH].
  destruct (IH acc (handlePreprocessor (textOf tok) p)) as (-> & -> & -> & -> & ->).
  apply handlePreprocessor_frame.
Qed.

Lemma processPreprocessor_frame p :
  source (processPreprocessor p) = source p
  /\ pos (processPreprocessor p) = pos p
  /\ errors (processPreprocessor p) = errors p
  /\ drawn (processPreprocessor p) = drawn p.
Proof.
  unfold processPreprocessor.
  pose proof (processTokens_frame (tokens (set_params [] p)) [] (set_params [] p)) as H.
  destruct (processTokens _ _ _) as [newTokens q]. simpl in *.
  destruct H as (-> & _ & -> & -> & ->). repeat split.
Qed.

End ParserFacts.

#[local] Open Scope string_scope.

Section ParseFacts.

Context `{host : Math.Host} (random : nat -> float).

Lemma rateOf_not_nan p : PrimFloat.is_nan (ScriptParser.rateOf p) = false.
Proof.
  unfold ScriptParser.rateOf. destruct (_ !! _); [apply or_zero_not_nan|reflexivity].
Qed.

(** The three ways [parse] ends. *)
Lemma parse_cases context p :
  (exists e q, ScriptParser.execute random context p = inl (e, q)
     /\ ScriptParser.parse random context p
        = (Some (ScriptParser.ReturnedContext context),
           ScriptParser.set_errors (ScriptParser.errors q ++ [e]) q))
  \/ (exists q, ScriptParser.execute random context p = inr (Diverge, q)
     /\ ScriptParser.parse random context p = (None, q))
  \/ (exists q, ScriptParser.execute random context p = inr (Ok tt, q)
     /\ ScriptParser.parse random context p
        = (Some (ScriptParser.Returned (ScriptParser.rateOf (ScriptParser.saveStatic q))
                   (ScriptParser.errors q)),
           ScriptParser.saveStatic q))
  \/ (exists e q, ScriptParser.execute random context p = inr (Throw e, q)
     /\ ScriptParser.parse random context p
        = (Some (ScriptParser.Returned
                   (ScriptParser.rateOf
                      (ScriptParser.saveStatic
                         (ScriptParser.set_errors (ScriptParser.errors q ++ [e]) q)))
                   (ScriptParser.errors q ++ [e])),
           ScriptParser.saveStatic
             (ScriptParser.set_errors (ScriptParser.errors q ++ [e]) q))).
Proof.
  unfold ScriptParser.parse.
  destruct (ScriptParser.execute random context p) as [[e q]|[[[]|e|] q]].
  - left. eauto.
  - right; right; left. eauto.
  - right; right; right. eauto.
  - right; left. eauto.
Qed.

Lemma parse_rate_not_nan context p r errs :
  (ScriptParser.parse random context p).1 = Some (ScriptParser.Returned r errs) ->
  PrimFloat.is_nan r = false.
Proof.
  destruct (parse_cases context p)
    as [(e & q & _ & ->)|[(q & _ & ->)|[(q & _ & ->)|(e & q & _ & ->)]]];
    cbn [fst]; intros H; simplify_eq; apply rateOf_not_nan.
Qed.

End ParseFacts.




Section ExecuteFacts.

Context `{host : Math.Host} (random : nat -> float).

Lemma initialise_fields context p :
  ScriptParser.source (ScriptParser.initialise context p) = ScriptParser.source p
  /\ ScriptParser.errors (ScriptParser.initialise context p) = []
  /\ ScriptParser.staticVariables (ScriptParser.initialise context p)
     = ScriptParser.staticVariables p.
Proof. repeat split. Qed.

(** While the statements run, the list of errors is empty. *)
Lemma execute_errors context p o q :
  ScriptParser.execute random context p = inr (o, q) -> ScriptParser.errors q = [].
Proof.
  unfold ScriptParser.execute.
  destruct (Tokenizer.tokenize _) as [e|ts]; [discriminate|]. cbv zeta.
  set (p2 := ScriptParser.processPreprocessor _).
  pose proof (ParserFacts.statements_framed random
                (S (length (ScriptParser.tokens p2))) p2) as F.
  destruct (ScriptParser.statements random _ p2) as [o' q'].
  intros H. assert (q' = q) as -> by congruence.
  destruct F as (_ & _ & _ & _ & F). cbn [snd] in F. rewrite F. subst p2.
  destruct (ParserFacts.processPreprocessor_frame
    (ScriptParser.set_tokens ts (ScriptParser.initialise context p)))
    as (_ & _ & -> & _).
  reflexivity.
Qed.

Lemma parse_raised context p e :
  raised (ScriptParser.execute random context p) = Some e ->
  ScriptParser.parse random context p
  = (Some (ScriptParser.Returned
             (ScriptParser.rateOf
                (ScriptParser.saveStatic
                   (ScriptParser.set_errors [e]
                      (reached (ScriptParser.execute random context p)))))
             [e]),
     ScriptParser.saveStatic
       (ScriptParser.set_errors [e] (reached (ScriptParser.execute random context p)))).
Proof.
  unfold ScriptParser.parse.
  destruct (ScriptParser.execute random context p) as [[e' q]|[[[]|e'|] q]] eqn:E;
    cbn [raised reached]; intros H; try discriminate.
  injection H as ->. rewrite (execute_errors _ _ _ _ E). reflexivity.
Qed.

End ExecuteFacts.

(** C5.  When the execution of the script stops at an error (a division by
    zero, an undefined variable, ...), [Sender.calculate] returns a failure
    whose list of errors holds exactly that message, and the rate of the
    sender is what it was before the call. *)
Theorem calculate_failure_single_message `{host : Math.Host}
    (random : nat -> float) (traffic : float) (params : list (string * float))
    (s : Sender.t) (e : Message) :
  raised (ScriptParser.execute random
            {| ScriptParser.rate := Sender.rate s; ScriptParser.traffic := traffic |}
            (Sender.setVariables params (Sender.parser s))) = Some e ->
  (Sender.calculate random traffic params s).1 = Ok (Sender.Failure [e])
  /\ Sender.rate (Sender.calculate random traffic params s).2 = Sender.rate s.
Proof.
  intros H. unfold Sender.calculate. rewrite (parse_raised random _ _ e H).
  split; reflexivity.
Qed.

Lemma calculate_failure_single_message_witness :
  raised (ScriptParser.execute (host := exampleHost) noRandom
            {| ScriptParser.rate := Sender.rate (Sender.setRate 0.5 (Sender.create "rate = 1 / 0;"));
               ScriptParser.traffic := 1 |}
            (Sender.setVariables []
               (Sender.parser (Sender.setRate 0.5 (Sender.create "rate = 1 / 0;")))))
  = Some DivisionByZero
  /\ (Sender.calculate (host := exampleHost) noRandom 1 []
        (Sender.setRate 0.5 (Sender.create "rate = 1 / 0;"))).1
     = Ok (Sender.Failure [DivisionByZero])
  /\ Sender.rate (Sender.calculate (host := exampleHost) noRandom 1 []
        (Sender.setRate 0.5 (Sender.create "rate = 1 / 0;"))).2
     = Sender.rate (Sender.setRate 0.5 (Sender.create "rate = 1 / 0;")).
Proof.
  assert (H : raised (ScriptParser.execute (host := exampleHost) noRandom
            {| ScriptParser.rate := Sender.rate (Sender.setRate 0.5 (Sender.create "rate = 1 / 0;"));
               ScriptParser.traffic := 1 |}
            (Sender.setVariables []
               (Sender.parser (Sender.setRate 0.5 (Sender.create "rate = 1 / 0;")))))
          = Some DivisionByZero) by (vm_compute; reflexivity).
  split; [exact H|].
  exact (calculate_failure_single_message (host := exampleHost) noRandom 1 []
           (Sender.setRate 0.5 (Sender.create "rate = 1 / 0;")) DivisionByZero H).
Defined.

(** The same for a reference to an undefined variable. *)
Example undefined_variable_single_message :
  (Sender.calculate (host := exampleHost) noRandom 1 []
     (Sender.setRate 0.5 (Sender.create "rate = rate + gain;"))).1
  = Ok (Sender.Failure [UndefinedVariable "gain" 1])
  /\ Sender.rate (Sender.calculate (host := exampleHost) noRandom 1 []
        (Sender.setRate 0.5 (Sender.create "rate = rate + gain;"))).2 = 0.5%float.
Proof. split; vm_compute; reflexivity. Qed.

(** C3.  On a lexical error [parse] returns the [context] object it was given:
    the rate is the incoming one, but the object has no [errors] (the message
    is only pushed on [this.errors]), and [Sender.calculate], which reads
    [result.errors.length], throws a [TypeError]. *)
Theorem lexical_error_returns_context :
  (ScriptParser.parse (host := exampleHost) noRandom
     {| ScriptParser.rate := 0.5; ScriptParser.traffic := 0 |}
     (ScriptParser.create "rate = 1 $ 2;")).1
  = Some (ScriptParser.ReturnedContext
            {| ScriptParser.rate := 0.5; ScriptParser.traffic := 0 |})
  /\ ScriptParser.errors
       (ScriptParser.parse (host := exampleHost) noRandom
          {| ScriptParser.rate := 0.5; ScriptParser.traffic := 0 |}
          (ScriptParser.create "rate = 1 $ 2;")).2
     = [UnexpectedCharacter "$" 1]
  /\ (Sender.calculate (host := exampleHost) noRandom 0 []
        (Sender.setRate 0.5 (Sender.create "rate = 1 $ 2;"))).1
     = Throw CannotReadLength.
Proof. repeat split; vm_compute; reflexivity. Qed.

(** The same for every script: a lexical error makes [parse] return its
    context and record the single message. *)
Lemma parse_lexical_error `{host : Math.Host} (random : nat -> float)
    (context : ScriptParser.Context) (p : ScriptParser.t) (e : Message) :
  Tokenizer.tokenize (Tokenizer.create (ScriptParser.source p)) = inl e ->
  (ScriptParser.parse random context p).1 = Some (ScriptParser.ReturnedContext context)
  /\ ScriptParser.errors (ScriptParser.parse random context p).2 = [e].
Proof.
  intros H. unfold ScriptParser.parse, ScriptParser.execute.
  change (ScriptParser.source (ScriptParser.initialise context p))
    with (ScriptParser.source p).
  rewrite H. split; reflexivity.
Qed.

(** C4.  A remainder by zero is not an error: [rate = 5 % 0;] runs to its end,
    stores [NaN] and [parse] returns the rate 0 with no error, where
    [rate = 5 / 0;] stops with 'Division by zero'. *)
Theorem modulo_by_zero_no_error :
  (ScriptParser.parse (host := exampleHost) noRandom
     {| ScriptParser.rate := 0.5; ScriptParser.traffic := 0 |}
     (ScriptParser.create "rate = 5 % 0;")).1
  = Some (ScriptParser.Returned 0 [])
  /\ (ScriptParser.parse (host := exampleHost) noRandom
        {| ScriptParser.rate := 0.5; ScriptParser.traffic := 0 |}
        (ScriptParser.create "rate = 5 / 0;")).1
     = Some (ScriptParser.Returned 0.5 [DivisionByZero])
  /\ (Sender.calculate (host := exampleHost) noRandom 0 []
        (Sender.setRate 0.5 (Sender.create "rate = 5 % 0;"))).1
     = Ok (Sender.Success 0).
Proof. repeat split; vm_compute; reflexivity. Qed.

(** ** The static store across invocations *)

Module StaticFacts.

Import ScriptParser ParserProps.

(** A directive overwrites no static variable that is already stored, nor
    the copy of it among the variables. *)
Lemma handlePreprocessor_keeps directive p n v :
  staticVariables p !! n = Some v -> variables p !! n = Some v ->
  staticVariables (handlePreprocessor directive p) !! n = Some v
  /\ variables (handlePreprocessor directive p) !! n = Some v.
Proof.
  intros Hs Hv. unfold handlePreprocessor.
  destruct (RegExp.exec paramPattern _) as [caps|].
  { cbv zeta. case_bool_decide as Hin; cbn -[group number]; [split; assumption|].
    split; [assumption|]. rewrite lookup_insert_ne; [assumption|].
    intros Heq. apply Hin. cbn -[group number]. rewrite Heq, Hv. eauto. }
  destruct (RegExp.exec varPattern _) as [caps|]; [|split; assumption].
  cbv zeta. case_bool_decide as Hin; cbn -[group number]; [split; assumption|].
  assert (group 1 caps <> n).
  { intros Heq. apply Hin. cbn -[group number]. rewrite Heq, Hs. eauto. }
  rewrite !lookup_insert_ne by assumption. split; assumption.
Qed.

Lemma processTokens_keeps ts n v : forall acc p,
  staticVariables p !! n = Some v -> variables p !! n = Some v ->
  staticVariables (processTokens ts acc p).2 !! n = Some v
  /\ variables (processTokens ts acc p).2 !! n = Some v.
Proof.
  induction ts as [|tok ts IH]; intros acc p Hs Hv; simpl; [split; assumption|].
  case_bool_decide; [|apply IH; assumption].
  destruct (handlePreprocessor_keeps (textOf tok) p n v Hs Hv). apply IH; assumption.
Qed.

Lemma processPreprocessor_keeps p n v :
  staticVariables p !! n = Some v -> variables p !! n = Some v ->
  staticVariables (processPreprocessor p) !! n = Some v
  /\ variables (processPreprocessor p) !! n = Some v.
Proof.
  intros Hs Hv. unfold processPreprocessor.
  pose proof (processTokens_keeps (tokens (set_params [] p)) n v [] (set_params [] p) Hs Hv)
    as H.
  destruct (processTokens _ _ _) as [newTokens q]. exact H.
Qed.

(** A stored static variable is among the variables when [parse] starts. *)
Lemma initialise_static context p n v :
  staticVariables p !! n = Some v ->
  staticVariables (initialise context p) !! n = Some v
  /\ variables (initialise context p) !! n = Some v.
Proof.
  intros Hs. split; [exact Hs|]. cbn. apply lookup_union_Some_l. exact Hs.
Qed.

Lemma saveStatic_fold (p : t) (ds : list Param.t) : forall (m : gmap string float) n,
  fold_left (fun statics d => <[Param.name d := currentValue p (Param.name d)]> statics) ds m
    !! n
  = if bool_decide (n ∈ map Param.name ds) then Some (currentValue p n) else m !! n.
Proof.
  induction ds as [|d ds IH]; intros m n; simpl; [reflexivity|].
  rewrite IH. rewrite (bool_decide_ext (n ∈ Param.name d :: map Param.name ds)
                         (n = Param.name d \/ n ∈ map Param.name ds))
    by apply elem_of_cons.
  repeat case_bool_decide; try reflexivity; try tauto.
  - destruct (decide (n = Param.name d)) as [->|Hne].
    + apply lookup_insert_eq.
    + tauto.
  - rewrite lookup_insert_ne; [reflexivity|]. intros Heq. subst n. tauto.
Qed.

Lemma saveStatic_lookup p d :
  d ∈ params p -> Param.isStatic d = true ->
  staticVariables (saveStatic p) !! Param.name d = Some (currentValue p (Param.name d)).
Proof.
  intros Hd Hs. unfold saveStatic. cbn. fold (currentValue p).
  rewrite (saveStatic_fold p). rewrite bool_decide_eq_true_2; [reflexivity|].
  apply list_elem_of_fmap. exists d. split; [reflexivity|].
  apply list_elem_of_filter. split; assumption.
Qed.

Lemma saveStatic_fields p :
  variables (saveStatic p) = variables p /\ params (saveStatic p) = params p
  /\ source (saveStatic p) = source p /\ errors (saveStatic p) = errors p.
Proof. repeat split. Qed.

(** Without a static parameter [saveStatic] writes nothing. *)
Lemma saveStatic_none p :
  Forall (fun d => Param.isStatic d = false) (params p) ->
  staticVariables (saveStatic p) = staticVariables p.
Proof.
  intros H. unfold saveStatic. cbn.
  replace (filter _ (params p)) with (@nil Param.t); [reflexivity|].
  symmetry. induction H as [|d ds Hd _ IH]; [reflexivity|].
  rewrite filter_cons. destruct (decide _) as [E|E]; [congruence|]. exact IH.
Qed.

End StaticFacts.

(** C10.  A parse that stops at an error is not undone: the variables are
    those reached when the error was thrown, [parse] still writes the value
    of every static parameter back to the static store, and the next
    invocation starts from that value; the rate of the sender is unchanged. *)
Theorem error_keeps_static_updates `{host : Math.Host}
    (random : nat -> float) (traffic : float) (params : list (string * float))
    (s : Sender.t) (e : Message) :
  raised (ScriptParser.execute random
            {| ScriptParser.rate := Sender.rate s; ScriptParser.traffic := traffic |}
            (Sender.setVariables params (Sender.parser s))) = Some e ->
  let q := reached (ScriptParser.execute random
            {| ScriptParser.rate := Sender.rate s; ScriptParser.traffic := traffic |}
            (Sender.setVariables params (Sender.parser s))) in
  let s' := (Sender.calculate random traffic params s).2 in
  Sender.rate s' = Sender.rate s
  /\ ScriptParser.variables (Sender.parser s') = ScriptParser.variables q
  /\ forall d, d ∈ ScriptParser.params q -> Param.isStatic d = true ->
       ScriptParser.staticVariables (Sender.parser s') !! Param.name d
       = Some (ParserProps.currentValue q (Param.name d))
       /\ forall context' params' ts,
            ScriptParser.variables
              (ScriptParser.processPreprocessor
                 (ScriptParser.set_tokens ts
                    (ScriptParser.initialise context'
                       (Sender.setVariables params' (Sender.parser s')))))
              !! Param.name d
            = Some (ParserProps.currentValue q (Param.name d)).
Proof.
  intros H q s'. subst s'. unfold Sender.calculate.
  rewrite (parse_raised random _ _ e H). fold q. cbn [snd Sender.rate Sender.parser].
  split; [reflexivity|]. split; [reflexivity|]. intros d Hd Hs.
  assert (Hl : ScriptParser.staticVariables
                 (ScriptParser.saveStatic (ScriptParser.set_errors [e] q))
                 !! Param.name d = Some (ParserProps.currentValue q (Param.name d))).
  { apply (StaticFacts.saveStatic_lookup (ScriptParser.set_errors [e] q) d Hd Hs). }
  split; [exact Hl|]. intros context' params' ts.
  assert (Hp : ScriptParser.staticVariables
                 (Sender.setVariables params'
                    (ScriptParser.saveStatic (ScriptParser.set_errors [e] q)))
                 !! Param.name d = Some (ParserProps.currentValue q (Param.name d))).
  { revert Hl. generalize (ScriptParser.saveStatic (ScriptParser.set_errors [e] q)).
    induction params' as [|[n v] params' IH]; intros p Hl; [exact Hl|].
    apply (IH (ScriptParser.setVariable n v p)). exact Hl. }
  destruct (StaticFacts.initialise_static context' _ _ _ Hp) as [H1 H2].
  destruct (StaticFacts.processPreprocessor_keeps
              (ScriptParser.set_tokens ts (ScriptParser.initialise context'
                 (Sender.setVariables params'
                    (ScriptParser.saveStatic (ScriptParser.set_errors [e] q)))))
              _ _ H1 H2) as [_ H3].
  exact H3.
Qed.

Lemma error_keeps_static_updates_witness :
  raised (ScriptParser.execute (host := exampleHost) noRandom
            {| ScriptParser.rate := Sender.rate (Sender.setRate 0.5 (Sender.create failingCounter));
               ScriptParser.traffic := 1 |}
            (Sender.setVariables []
               (Sender.parser (Sender.setRate 0.5 (Sender.create failingCounter)))))
  = Some DivisionByZero
  /\ Sender.rate (Sender.calculate (host := exampleHost) noRandom 1 []
        (Sender.setRate 0.5 (Sender.create failingCounter))).2
     = Sender.rate (Sender.setRate 0.5 (Sender.create failingCounter))
  /\ ScriptParser.staticVariables
       (Sender.parser (Sender.calculate (host := exampleHost) noRandom 1 []
          (Sender.setRate 0.5 (Sender.create failingCounter))).2) !! "counter"
     = Some 1%float.
Proof.
  assert (H : raised (ScriptParser.execute (host := exampleHost) noRandom
            {| ScriptParser.rate := Sender.rate (Sender.setRate 0.5 (Sender.create failingCounter));
               ScriptParser.traffic := 1 |}
            (Sender.setVariables []
               (Sender.parser (Sender.setRate 0.5 (Sender.create failingCounter)))))
          = Some DivisionByZero) by (vm_compute; reflexivity).
  split; [exact H|].
  split; [|vm_compute; reflexivity].
  exact (proj1 (error_keeps_static_updates (host := exampleHost) noRandom 1 []
                  (Sender.setRate 0.5 (Sender.create failingCounter)) DivisionByZero H)).
Defined.

(** The counter goes on from the value written back by the failed call. *)
Example failed_calls_count :
  ScriptParser.staticVariables
    (Sender.parser
       (Sender.calculate (host := exampleHost) noRandom 1 []
          (Sender.calculate (host := exampleHost) noRandom 1 []
             (Sender.setRate 0.5 (Sender.create failingCounter))).2).2) !! "counter"
  = Some 2%float.
Proof. vm_compute; reflexivity. Qed.


(** The two directives, read by the patterns of the source. *)
Example define_param_without_default :
  ScriptParser.params
    (ScriptParser.handlePreprocessor "#define_param gain range 0.25 to 1"
       (ScriptParser.create ""))
  = [Param.make "gain" (Some 0.25%float) (Some 1%float) 0.25 false]
  /\ ScriptParser.variables
       (ScriptParser.handlePreprocessor "#define_param gain range 0.25 to 1"
          (ScriptParser.create "")) !! "gain" = Some 0.25%float
  /\ ScriptParser.variables
       (ScriptParser.handlePreprocessor "#define_param gain range 0.25 to 1"
          (ScriptParser.setVariable "gain" 0.75 (ScriptParser.create ""))) !! "gain"
     = Some 0.75%float
  /\ ScriptParser.params
       (ScriptParser.handlePreprocessor "#define_param gain range from 0.25 to 1 default 0.5"
          (ScriptParser.create ""))
     = [Param.make "gain" (Some 0.25%float) (Some 1%float) 0.5 false].
Proof. repeat split; vm_compute; reflexivity. Qed.

(** The counter goes up from one call to the next and starts again after a
    reset. *)
Example static_variable_persists :
  (Sender.calculate (host := exampleHost) noRandom 0 [] (Sender.create counter)).1
  = Ok (Sender.Success 0.125)
  /\ (Sender.calculate (host := exampleHost) noRandom 0 []
        (Sender.calculate (host := exampleHost) noRandom 0 [] (Sender.create counter)).2).1
     = Ok (Sender.Success 0.25)
  /\ (Sender.calculate (host := exampleHost) noRandom 0 []
        (Sender.resetStaticVars
           (Sender.calculate (host := exampleHost) noRandom 0 [] (Sender.create counter)).2)).1
     = Ok (Sender.Success 0.125).
Proof. repeat split; vm_compute; reflexivity. Qed.

Module CatalogFacts.

Import ScriptParser ParserProps.

(** A directive that adds no static parameter leaves the static store. *)
Lemma handlePreprocessor_tunable directive p :
  Forall tunable (params (handlePreprocessor directive p)) ->
  Forall tunable (params p)
  /\ staticVariables (handlePreprocessor directive p) = staticVariables p.
Proof.
  unfold handlePreprocessor.
  destruct (RegExp.exec paramPattern _) as [caps|].
  { cbv zeta. case_bool_decide; cbn -[group number]; intros Hf;
      apply Forall_app in Hf as [Hf _]; (split; [assumption|reflexivity]). }
  destruct (RegExp.exec varPattern _) as [caps|];
    [|intros Hf; split; [assumption|reflexivity]].
  cbv zeta. case_bool_decide; cbn -[group number]; intros Hf;
    apply Forall_app in Hf as [_ Hf]; apply Forall_cons in Hf as [Hf _]; discriminate.
Qed.

Lemma processTokens_tunable ts : forall acc p,
  Forall tunable (params (processTokens ts acc p).2) ->
  Forall tunable (params p)
  /\ staticVariables (processTokens ts acc p).2 = staticVariables p.
Proof.
  induction ts as [|tok ts IH]; intros acc p; simpl;
    [intros Hf; split; [assumption|reflexivity]|].
  case_bool_decide; [|apply IH].
  intros Hf. apply IH in Hf as [H1 H2].
  apply handlePreprocessor_tunable in H1 as [H1 H3]. split; [assumption|congruence].
Qed.

Lemma processPreprocessor_tunable p :
  Forall tunable (params (processPreprocessor p)) ->
  staticVariables (processPreprocessor p) = staticVariables p.
Proof.
  unfold processPreprocessor.
  pose proof (processTokens_tunable (tokens (set_params [] p)) [] (set_params [] p)) as H.
  destruct (processTokens _ _ _) as [newTokens q]. cbn in *. intros Hq.
  apply H in Hq as [_ ->]. reflexivity.
Qed.

Lemma Alike_setVariables params p q :
  Alike p q -> Alike (Sender.setVariables params p) (Sender.setVariables params q).
Proof.
  revert p q. induction params as [|[n v] params IH]; intros p q H; [exact H|].
  apply IH. destruct H as [H1 H2]. split; assumption.
Qed.

Lemma Alike_setVariables_l params p : Alike (Sender.setVariables params p) p.
Proof.
  revert p. induction params as [|[n v] params IH]; intros p; [split; reflexivity|].
  destruct (IH (setVariable n v p)) as [H1 H2]. split; assumption.
Qed.

Section Parse.

Context `{host : Math.Host} (random : nat -> float).

Lemma execute_alike context p q :
  Alike p q ->
  match execute random context p, execute random context q with
  | inl (e, p'), inl (e', q') => e = e' /\ Alike p' q' /\ errors p' = errors q'
  | inr r, inr r' => r = r'
  | _, _ => False
  end.
Proof.
  intros [Hs Ht]. unfold execute.
  change (source (initialise context p)) with (source p).
  change (source (initialise context q)) with (source q). rewrite <- Hs.
  destruct (Tokenizer.tokenize _) as [e|ts].
  - split; [reflexivity|]. split; [split; cbn; assumption|reflexivity].
  - cbv zeta.
    assert (E : processPreprocessor (set_tokens ts (initialise context p))
                = processPreprocessor (set_tokens ts (initialise context q))).
    { unfold processPreprocessor. destruct p, q. cbn in Hs, Ht. subst. reflexivity. }
    rewrite E. reflexivity.
Qed.

(** [parse] depends on the script and on the static store only. *)
Lemma parse_alike context p q :
  Alike p q ->
  (parse random context p).1 = (parse random context q).1
  /\ Alike (parse random context p).2 (parse random context q).2.
Proof.
  intros H. apply (execute_alike context) in H. unfold parse.
  destruct (execute random context p) as [[e p']|[o p']],
           (execute random context q) as [[e' q']|[o' q']]; try contradiction.
  - destruct H as (-> & [H1 H2] & H3). split; [reflexivity|split; assumption].
  - injection H as -> ->. destruct o'; split; try reflexivity; split; reflexivity.
Qed.

(** A parse whose catalogue has no static parameter leaves the static
    store as it was. *)
Lemma parse_static_unchanged context p :
  Forall tunable (params (parse random context p).2) ->
  staticVariables (parse random context p).2 = staticVariables p.
Proof.
  unfold parse, execute.
  destruct (Tokenizer.tokenize _) as [e|ts]; [reflexivity|]. cbv zeta.
  set (p2 := processPreprocessor _).
  pose proof (ParserFacts.statements_framed random (S (length (tokens p2))) p2) as F.
  destruct (statements random _ p2) as [o q]. cbn [snd] in F.
  destruct F as (_ & _ & Fs & Fp & _).
  assert (Hp2 : Forall tunable (params q) -> staticVariables q = staticVariables p).
  { rewrite Fp, Fs. intros H. subst p2. rewrite processPreprocessor_tunable by assumption.
    reflexivity. }
  destruct o as [[]|e|]; cbn [snd].
  - intros H. rewrite StaticFacts.saveStatic_none by exact H. apply Hp2. exact H.
  - intros H. rewrite StaticFacts.saveStatic_none by exact H. apply Hp2. exact H.
  - exact Hp2.
Qed.

End Parse.

End CatalogFacts.




(** There the rates are 0.25 after the call and 0.125 without it. *)
Example getParams_counts :
  (Sender.getParams (host := exampleHost) noRandom (Sender.create counter)).1
  = Ok [Param.make "counter" None None 0 true]
  /\ (Sender.calculate (host := exampleHost) noRandom 0 [] (Sender.create counter)).1
     = Ok (Sender.Success 0.125)
  /\ (Sender.calculate (host := exampleHost) noRandom 0 []
        (Sender.getParams (host := exampleHost) noRandom (Sender.create counter)).2).1
     = Ok (Sender.Success 0.25).
Proof. repeat split; vm_compute; reflexivity. Qed.

(** ** The two branches of a conditional *)

Module BranchFacts.

Import ScriptParser ParserProps ParserFacts.

(** [ifStatement] in three parts: the header up to the opening brace of the
    first block, which gives the value of the condition, and how it goes on
    after one block has been run or skipped. *)
Section Parts.

Context `{host : Math.Host} (random : nat -> float).

#[local] Abbreviation ifHeader := (ParserProps.ifHeader random).

Lemma ifStatement_parts fuel stmt p :
  ifStatement random fuel stmt p =
  bind (ifHeader fuel) (fun condition =>
    if PrimFloat.ltb 0 condition then
      bind (blockLoop fuel stmt) (fun _ =>
      bind (expect RBRACE "}") (fun _ => skipElse fuel))
    else
      bind (skipBlock fuel) (fun _ =>
      bind (expect RBRACE "}") (fun _ => runElse fuel stmt))) p.
Proof.
  unfold ifStatement, ifHeader. rewrite !bind_eq.
  destruct (advance p) as [[[]|e|] p1]; [|reflexivity..].
  rewrite !bind_eq. destruct (expect LPAREN "(" p1) as [[[]|e|] p2]; [|reflexivity..].
  rewrite !bind_eq. destruct (expression random fuel p2) as [[c|e|] p3]; [|reflexivity..].
  rewrite !bind_eq. destruct (expect RPAREN ")" p3) as [[[]|e|] p4]; [|reflexivity..].
  rewrite !bind_eq. destruct (expect LBRACE "{" p4) as [[[]|e|] p5]; reflexivity.
Qed.

Lemma expect_spec ty s p :
  Untouched p (expect ty s p).2 /\ Mono p (expect ty s p).2
  /\ syntaxOnly (expect ty s p).1.
Proof.
  split; [apply preserves_expect; [exact Untouched_refl|exact Untouched_advance]|].
  split; [apply preserves_expect; [exact Mono_refl|exact Mono_advance]|].
  destruct (expect_cases ty s p) as [(p' & -> & _)|[-> _]]; [left|right]; eauto.
Qed.

Lemma skipLoop_outcome fuel : forall depth p,
  (skipLoop fuel depth p).1 = Ok tt \/ (skipLoop fuel depth p).1 = Diverge.
Proof.
  induction fuel as [|fuel IH]; intros depth p; simpl; [right; reflexivity|].
  destruct (_ && _); [|left; reflexivity].
  match goal with |- context [if (0 <? ?d)%nat then _ else _] => destruct (0 <? d)%nat end;
    [|apply IH].
  rewrite bind_eq. destruct (advance p) as [[[]|e|] p1] eqn:E; [apply IH|..];
    unfold advance in E; destruct (isAtEnd p); discriminate.
Qed.

(** A block is skipped without an error and without a change to any
    variable. *)
Lemma skipBlock_spec fuel p :
  remaining p < fuel ->
  (skipBlock fuel p).1 = Ok tt
  /\ Untouched p (skipBlock fuel p).2 /\ Mono p (skipBlock fuel p).2.
Proof.
  intros Hp. split; [|split].
  - destruct (skipLoop_outcome (S fuel) 1 p) as [H|H]; [exact H|].
    exfalso. revert H. apply (skipBlock_terminates fuel (S (remaining p))); lia.
  - apply skipBlock_untouched.
  - apply preserves_skipBlock; [exact Mono_refl|exact Mono_trans|exact Mono_advance].
Qed.

Lemma skipElse_spec fuel p :
  remaining p < fuel ->
  Untouched p (skipElse fuel p).2 /\ syntaxOnly (skipElse fuel p).1.
Proof.
  intros Hp. unfold skipElse. destruct (isElse p);
    [|split; [apply Untouched_refl|left; reflexivity]].
  rewrite bind_eq.
  pose proof (preserves_advance Untouched Untouched_refl Untouched_advance p) as U0.
  pose proof (preserves_advance Mono Mono_refl Mono_advance p) as M0.
  destruct (advance p) as [[[]|e|] p1] eqn:E0; cbn [snd] in U0, M0;
    [|unfold advance in E0; destruct (isAtEnd p); discriminate..].
  apply Mono_remaining in M0.
  rewrite bind_eq. destruct (expect_spec LBRACE "{" p1) as (U1 & M1 & S1).
  destruct (expect LBRACE "{" p1) as [[[]|e|] p2]; cbn [fst snd] in *;
    [|split; [eapply Untouched_trans; eassumption|exact S1]
     |split; [eapply Untouched_trans; eassumption|exact S1]].
  apply Mono_remaining in M1.
  rewrite bind_eq. destruct (skipBlock_spec fuel p2) as (E2 & U2 & M2); [lia|].
  destruct (skipBlock fuel p2) as [o2 p3]; cbn [fst snd] in *. subst o2.
  destruct (expect_spec RBRACE "}" p3) as (U3 & _ & S3).
  split; [|exact S3].
  eapply Untouched_trans; [exact U0|]. eapply Untouched_trans; [exact U1|].
  eapply Untouched_trans; [exact U2|exact U3].
Qed.

Lemma ifHeader_spec fuel p :
  Untouched p (ifHeader fuel p).2 /\ Mono p (ifHeader fuel p).2.
Proof.
  split; unfold ifHeader.
  - apply (preserves_bind Untouched Untouched_trans);
      [apply preserves_advance; [exact Untouched_refl|exact Untouched_advance]|intros _].
    apply (preserves_bind Untouched Untouched_trans);
      [apply preserves_expect; [exact Untouched_refl|exact Untouched_advance]|intros _].
    apply (preserves_bind Untouched Untouched_trans);
      [intros q; apply expression_untouched|intros c].
    apply (preserves_bind Untouched Untouched_trans);
      [apply preserves_expect; [exact Untouched_refl|exact Untouched_advance]|intros _].
    apply (preserves_bind Untouched Untouched_trans);
      [apply preserves_expect; [exact Untouched_refl|exact Untouched_advance]|intros _].
    apply preserves_ret. exact Untouched_refl.
  - apply (preserves_bind Mono Mono_trans);
      [apply preserves_advance; [exact Mono_refl|exact Mono_advance]|intros _].
    apply (preserves_bind Mono Mono_trans);
      [apply preserves_expect; [exact Mono_refl|exact Mono_advance]|intros _].
    apply (preserves_bind Mono Mono_trans);
      [apply preserves_expression;
         [exact Mono_refl|exact Mono_trans|exact Mono_advance|exact Mono_draw]|intros c].
    apply (preserves_bind Mono Mono_trans);
      [apply preserves_expect; [exact Mono_refl|exact Mono_advance]|intros _].
    apply (preserves_bind Mono Mono_trans);
      [apply preserves_expect; [exact Mono_refl|exact Mono_advance]|intros _].
    apply preserves_ret. exact Mono_refl.
Qed.

(** What follows a block that has been run: the closing brace, and an
    [else] block that is skipped. *)
Lemma after_block fuel (b : Outcome unit * t) :
  remaining b.2 < fuel ->
  let r := match b with
           | (Ok _, q) => bind (expect RBRACE "}") (fun _ => skipElse fuel) q
           | (Throw e, q) => (Throw e, q)
           | (Diverge, q) => (Diverge, q)
           end in
  Untouched b.2 r.2
  /\ (r.1 = b.1 \/ (b.1 = Ok tt /\ exists s l, r.1 = Throw (Expected s l))).
Proof.
  destruct b as [[[]|e|] q]; cbn [fst snd]; intros Hq;
    [|split; [apply Untouched_refl|left; reflexivity]..].
  rewrite bind_eq. destruct (expect_spec RBRACE "}" q) as (U1 & M1 & S1).
  destruct (expect RBRACE "}" q) as [[[]|e|] q1]; cbn [fst snd] in *.
  - apply Mono_remaining in M1.
    destruct (skipElse_spec fuel q1) as [U2 S2]; [lia|].
    split; [eapply Untouched_trans; eassumption|].
    destruct S2 as [->|S2]; [left; reflexivity|right; split; [reflexivity|exact S2]].
  - split; [exact U1|]. destruct S1 as [S1|S1]; [discriminate|].
    right. split; [reflexivity|exact S1].
  - destruct S1 as [S1|(s & l & S1)]; discriminate.
Qed.

(** The same for the closing brace of an [else] block that has been
    run. *)
Lemma after_else_block (b : Outcome unit * t) :
  let r := match b with
           | (Ok _, q) => expect RBRACE "}" q
           | (Throw e, q) => (Throw e, q)
           | (Diverge, q) => (Diverge, q)
           end in
  Untouched b.2 r.2
  /\ (r.1 = b.1 \/ (b.1 = Ok tt /\ exists s l, r.1 = Throw (Expected s l))).
Proof.
  destruct b as [[[]|e|] q]; cbn [fst snd];
    [|split; [apply Untouched_refl|left; reflexivity]..].
  destruct (expect_spec RBRACE "}" q) as (U1 & M1 & S1).
  split; [exact U1|].
  destruct S1 as [->|S1]; [left; reflexivity|right; split; [reflexivity|exact S1]].
Qed.

End Parts.

End BranchFacts.



(** With [traffic = 1.5] the first block is run and the second is not: the
    rate is 0, the static variable that the second block assigns keeps its
    value, and its division by zero is not raised. *)
Example else_block_not_run :
  (ScriptParser.parse (host := exampleHost) noRandom congested
     (ScriptParser.create "if(traffic>1){rate=0;}else{rate=1;}")).1
  = Some (ScriptParser.Returned 0 [])
  /\ (ScriptParser.parse (host := exampleHost) noRandom congested
        (ScriptParser.create
           ("#define_var touched 0" ++ newline
            ++ "if(traffic>1){rate=0;}else{rate=1; touched = 1; rate = 1/0;}"))).1
     = Some (ScriptParser.Returned 0 [])
  /\ ScriptParser.staticVariables
       (ScriptParser.parse (host := exampleHost) noRandom congested
          (ScriptParser.create
             ("#define_var touched 0" ++ newline
              ++ "if(traffic>1){rate=0;}else{rate=1; touched = 1; rate = 1/0;}"))).2
       !! "touched" = Some 0%float.
Proof. repeat split; vm_compute; reflexivity. Qed.

(** C8.  [a && b] and [a || b] evaluate both operands: an error thrown by the
    second one is thrown whatever the first one is, and the value is [1]
    when both, respectively one, of the operands are above zero and [0]
    otherwise. *)
Theorem logical_operators_evaluate_both `{host : Math.Host}
    (random : nat -> float) (fuel : nat) (expr : ScriptParser.M float)
    (p : ScriptParser.t) (left : float) :
  2 <= fuel ->
  (let a := ScriptParser.equality random fuel expr p in
   a.1 = Ok left ->
   let m := ScriptParser.matchOperator "&&" a.2 in
   m.1 = Ok true ->
   let b := ScriptParser.equality random fuel expr m.2 in
   (forall e, b.1 = Throw e -> ScriptParser.and random fuel expr p = (Throw e, b.2))
   /\ (forall right, b.1 = Ok right ->
       (ScriptParser.matchOperator "&&" b.2).1 = Ok false ->
       ScriptParser.and random fuel expr p
       = (Ok (if PrimFloat.ltb 0 left && PrimFloat.ltb 0 right then 1%float else 0%float),
          b.2)))
  /\ (let a := ScriptParser.and random fuel expr p in
      a.1 = Ok left ->
      let m := ScriptParser.matchOperator "||" a.2 in
      m.1 = Ok true ->
      let b := ScriptParser.and random fuel expr m.2 in
      (forall e, b.1 = Throw e -> ScriptParser.or random fuel expr p = (Throw e, b.2))
      /\ (forall right, b.1 = Ok right ->
          (ScriptParser.matchOperator "||" b.2).1 = Ok false ->
          ScriptParser.or random fuel expr p
          = (Ok (if PrimFloat.ltb 0 left || PrimFloat.ltb 0 right then 1%float else 0%float),
             b.2))).
Proof.
  intros Hfuel. destruct fuel as [|[|fuel]]; [lia..|].
  assert (Hno : forall v q, (ScriptParser.matchOperator v q).1 = Ok false ->
                  ScriptParser.matchOperator v q = (Ok false, q)).
  { intros v q H. destruct (ParserFacts.matchOperator_cases v q) as [(q' & E & _)|E];
      rewrite E in H |- *; [discriminate|reflexivity]. }
  split.
  - intros a Ha m Hm b. unfold ScriptParser.and, ScriptParser.binary.
    rewrite ParserFacts.bind_eq. fold a.
    destruct a as [oa pa]. cbn [fst snd] in *. subst oa.
    cbn [ScriptParser.binaryLoop ScriptParser.matchAny].
    rewrite !ParserFacts.bind_eq. fold m.
    destruct m as [om pm]. cbn [fst snd] in *. subst om.
    cbn [ScriptParser.ret]. rewrite !ParserFacts.bind_eq.
    fold (ScriptParser.equality random (S (S fuel)) expr). fold b.
    destruct b as [ob pb]. cbn [fst snd]. split.
    + intros e ->. reflexivity.
    + intros right -> Hn. apply Hno in Hn.
      cbn [ScriptParser.binaryLoop ScriptParser.matchAny].
      rewrite !ParserFacts.bind_eq. unfold ScriptParser.ret at 1. cbv beta iota.
      rewrite !ParserFacts.bind_eq, Hn. reflexivity.
  - intros a Ha m Hm b. unfold ScriptParser.or, ScriptParser.binary.
    rewrite ParserFacts.bind_eq. fold a.
    destruct a as [oa pa]. cbn [fst snd] in *. subst oa.
    cbn [ScriptParser.binaryLoop ScriptParser.matchAny].
    rewrite !ParserFacts.bind_eq. fold m.
    destruct m as [om pm]. cbn [fst snd] in *. subst om.
    cbn [ScriptParser.ret]. rewrite !ParserFacts.bind_eq.
    fold (ScriptParser.and random (S (S fuel)) expr). fold b.
    destruct b as [ob pb]. cbn [fst snd]. split.
    + intros e ->. reflexivity.
    + intros right -> Hn. apply Hno in Hn.
      cbn [ScriptParser.binaryLoop ScriptParser.matchAny].
      rewrite !ParserFacts.bind_eq. unfold ScriptParser.ret at 1. cbv beta iota.
      rewrite !ParserFacts.bind_eq, Hn. reflexivity.
Qed.

Lemma logical_operators_evaluate_both_witness :
  2 <= 30
  /\ (ScriptParser.and (host := exampleHost) noRandom 30
        (ScriptParser.expression (host := exampleHost) noRandom 30)
        (ScriptParser.set_pos 2 (ready congested "rate = 0 && 1/0;"))).1
     = Throw DivisionByZero.
Proof.
  assert (H : 2 <= 30) by lia.
  split; [exact H|].
  destruct (logical_operators_evaluate_both (host := exampleHost) noRandom 30
              (ScriptParser.expression (host := exampleHost) noRandom 30)
              (ScriptParser.set_pos 2 (ready congested "rate = 0 && 1/0;")) 0 H)
    as [Hand _].
  destruct (Hand ltac:(vm_compute; reflexivity) ltac:(vm_compute; reflexivity))
    as [Hthrow _].
  rewrite (Hthrow DivisionByZero ltac:(vm_compute; reflexivity)). reflexivity.
Defined.

(** Both operands are evaluated even when the first one decides. *)
Example no_short_circuit :
  (ScriptParser.parse (host := exampleHost) noRandom congested
     (ScriptParser.create "rate = (1 < 2) && (3 > 4);")).1
  = Some (ScriptParser.Returned 0 [])
  /\ (ScriptParser.parse (host := exampleHost) noRandom congested
        (ScriptParser.create "rate = (1 < 2) || (3 > 4);")).1
     = Some (ScriptParser.Returned 1 [])
  /\ (ScriptParser.parse (host := exampleHost) noRandom congested
        (ScriptParser.create "rate = 0 && 1/0;")).1
     = Some (ScriptParser.Returned 0.5 [DivisionByZero])
  /\ (ScriptParser.parse (host := exampleHost) noRandom congested
        (ScriptParser.create "rate = 1 || 1/0;")).1
     = Some (ScriptParser.Returned 0.5 [DivisionByZero])
  /\ (ScriptParser.parse (host := exampleHost) noRandom congested
        (ScriptParser.create "rate = 0.25 && 7;")).1
     = Some (ScriptParser.Returned 1 []).
Proof. repeat split; vm_compute; reflexivity. Qed.

(** ** The steps of a run *)

Module EngineFacts.

Import SimulationEngine EngineProps.

Lemma calls_app l1 l2 : calls (l1 ++ l2) = (calls l1 ++ calls l2)%list.
Proof. unfold calls. apply omap_app. Qed.

Section Run.

Context `{host : Math.Host}.
Variable random : nat -> nat -> nat -> float.
Variable stopRequested : nat -> bool.

Lemma updateSender_spec step traffic params i errors e :
  i < 2 ->
  let r := updateSender random step traffic params i errors e in
  duration r.2 = duration e /\ rtt r.2 = rtt e /\ trajectory r.2 = trajectory e
  /\ isRunning r.2 = isRunning e
  /\ trace r.2 = (trace e ++ if due step (rttOf i e) then [Calculate step i] else [])%list
  /\ sender (1 - i) r.2 = sender (1 - i) e
  /\ (due step (rttOf i e) = false -> sender i r.2 = sender i e).
Proof.
  intros Hi. unfold updateSender.
  destruct (due step (rttOf i e)); cbv zeta.
  - destruct (Sender.calculate _ _ _ _) as [[res|m|] s];
      destruct i as [|[|i]]; try lia; cbn;
      repeat split; discriminate.
  - cbn. rewrite app_nil_r. repeat split.
Qed.

(** One step: the calls it makes, and the record it appends when both
    senders have been dealt with. *)
Lemma runStep_spec params step e :
  let r := runStep random params step e in
  duration r.2 = duration e /\ rtt r.2 = rtt e /\ isRunning r.2 = isRunning e
  /\ (exists events,
        trace r.2 = (trace e ++ events)%list
        /\ (forall k i, (k, i) ∈ calls events ->
              k = step /\ i < 2 /\ due step (rttOf i e) = true)
        /\ (r.1 = Ok tt -> forall i, i < 2 -> due step (rttOf i e) = true ->
              (step, i) ∈ calls events))
  /\ (r.1 = Ok tt ->
      exists d, trajectory r.2 = (trajectory e ++ [Step d])%list
        /\ SimulationEngine.step d = step
        /\ x d = Sender.rate (sender 0 r.2) /\ y d = Sender.rate (sender 1 r.2)
        /\ forall i, i < 2 -> due step (rttOf i e) = false ->
             Sender.rate (sender i r.2) = Sender.rate (sender i e))
  /\ (r.1 <> Ok tt -> trajectory r.2 = trajectory e).
Proof.
  unfold runStep. cbv zeta.
  set (e1 := set_currentStep step e).
  set (traffic := PrimFloat.add _ _).
  destruct (updateSender_spec step traffic params 0 [] e1 ltac:(lia))
    as (D1 & R1 & T1 & I1 & Tr1 & S1 & G1).
  destruct (updateSender random step traffic params 0 [] e1) as [o1 e2].
  cbn [fst snd] in *.
  assert (Hrtt0 : forall i, rttOf i e1 = rttOf i e) by reflexivity.
  assert (Hrtt2 : forall i, rttOf i e2 = rttOf i e).
  { intros i. unfold rttOf. rewrite R1. reflexivity. }
  destruct o1 as [errors1|m|].
  2,3: (split; [exact D1|]; split; [exact R1|]; split; [exact I1|]; split;
        [|split; [discriminate|intros _; exact T1]];
        eexists; split; [exact Tr1|]; split; [|discriminate];
        intros k i Hk; rewrite Hrtt0 in Hk; destruct (due step (rttOf 0 e)) eqn:Ed;
        [apply list_elem_of_singleton in Hk; injection Hk as -> ->;
         repeat split; [lia|exact Ed]
        |apply elem_of_nil in Hk; destruct Hk]).
  destruct (updateSender_spec step traffic params 1 errors1 e2 ltac:(lia))
    as (D2 & R2 & T2 & I2 & Tr2 & S2 & G2).
  destruct (updateSender random step traffic params 1 errors1 e2) as [o2 e3].
  cbn [fst snd] in *.
  rewrite Hrtt2 in Tr2, G2. rewrite Hrtt0 in Tr1, G1.
  assert (Hcalls : forall k i,
            (k, i) ∈ calls ((if due step (rttOf 0 e) then [Calculate step 0] else [])
                            ++ (if due step (rttOf 1 e) then [Calculate step 1] else []))
            <-> k = step /\ i < 2 /\ due step (rttOf i e) = true).
  { intros k i. rewrite calls_app, elem_of_app.
    destruct (due step (rttOf 0 e)) eqn:E0, (due step (rttOf 1 e)) eqn:E1; cbn;
      rewrite ?list_elem_of_singleton, ?elem_of_nil; split;
      try (intros [H|H]; try contradiction; injection H as -> ->;
           repeat split; (lia || assumption));
      intros (-> & Hi & Hd); destruct i as [|[|i]]; try lia;
      rewrite ?E0, ?E1 in Hd; try discriminate; auto. }
  destruct o2 as [errors2|m|].
  2,3: (cbn [fst snd];
        split; [exact (eq_trans D2 D1)|]; split; [exact (eq_trans R2 R1)|];
        split; [exact (eq_trans I2 I1)|]; split;
        [|split; [discriminate|intros _; exact (eq_trans T2 T1)]];
        eexists; split; [rewrite Tr2, Tr1, <- app_assoc; reflexivity|];
        split; [intros k i Hk; apply Hcalls; exact Hk|discriminate]).
  set (e4 := if (0 <? length errors2)%nat then emit (OnError errors2) e3 else e3).
  assert (H4 : duration e4 = duration e3 /\ rtt e4 = rtt e3 /\ isRunning e4 = isRunning e3
               /\ trajectory e4 = trajectory e3 /\ senders e4 = senders e3
               /\ exists evs, trace e4 = (trace e3 ++ evs)%list /\ calls evs = []).
  { subst e4. destruct (0 <? length errors2)%nat; cbn.
    - repeat split. exists [OnError errors2]. split; reflexivity.
    - repeat split. exists []. rewrite app_nil_r. split; reflexivity. }
  destruct H4 as (D4 & R4 & I4 & T4 & S4 & evs & Tr4 & C4).
  cbn [fst snd duration rtt isRunning trajectory trace emit set_trajectory sender
       senders].
  split; [exact (eq_trans D4 (eq_trans D2 D1))|].
  split; [exact (eq_trans R4 (eq_trans R2 R1))|].
  split; [exact (eq_trans I4 (eq_trans I2 I1))|].
  assert (Hs4 : forall i, sender i e4 = sender i e3).
  { intros i. unfold sender. rewrite S4. reflexivity. }
  split; [|split; [|intros H; exfalso; apply H; reflexivity]].
  - match goal with |- context [OnStep ?d] => set (data := d) end.
    exists ((if due step (rttOf 0 e) then [Calculate step 0] else [])
            ++ (if due step (rttOf 1 e) then [Calculate step 1] else [])
            ++ evs ++ [OnStep data])%list.
    assert (Hc : calls ((if due step (rttOf 0 e) then [Calculate step 0] else [])
                        ++ (if due step (rttOf 1 e) then [Calculate step 1] else [])
                        ++ evs ++ [OnStep data])
                 = calls ((if due step (rttOf 0 e) then [Calculate step 0] else [])
                        ++ (if due step (rttOf 1 e) then [Calculate step 1] else []))).
    { rewrite !calls_app, C4. cbn. rewrite !app_nil_r. reflexivity. }
    split; [rewrite Tr4, Tr2, Tr1, <- !app_assoc; reflexivity|].
    rewrite Hc. split.
    + intros k i Hk. apply Hcalls. exact Hk.
    + intros _ i Hi Hd. apply Hcalls. auto.
  - intros _. eexists. split; [rewrite T4, T2, T1; reflexivity|].
    cbn [SimulationEngine.step x y]. split; [reflexivity|].
    split; [reflexivity|]. split; [reflexivity|].
    intros i Hi Hd. destruct i as [|[|i]]; try lia.
    + change (Sender.rate (sender 0 e4) = Sender.rate (sender 0 e)).
      rewrite Hs4. cbn [Nat.sub] in S2. rewrite S2, (G1 Hd). reflexivity.
    + change (Sender.rate (sender 1 e4) = Sender.rate (sender 1 e)).
      rewrite Hs4, (G2 Hd). cbn [Nat.sub] in S1. rewrite S1. reflexivity.
Qed.

Lemma Gated_more rtt0 base e e' extra :
  trajectory e' = trajectory e -> trace e' = (trace e ++ extra)%list ->
  (forall k i, (k, i) ∈ calls extra ->
     i < 2 /\ due k (if (i =? 0)%nat then rtt0.1 else rtt0.2) = true) ->
  Gated rtt0 base e -> Gated rtt0 base e'.
Proof.
  intros Ht Htr Hex (events & E & Hc & Hr).
  exists (events ++ extra)%list. rewrite Htr, E, app_assoc. split; [reflexivity|].
  split.
  - intros k i Hk. rewrite calls_app in Hk. apply elem_of_app in Hk as [Hk|Hk]; auto.
  - intros k pt Hk. rewrite Ht in Hk |- *. destruct (Hr k pt Hk) as [H1 H2].
    split; [exact H1|]. intros Hk1 i Hi. destruct (H2 Hk1 i Hi) as [H3 H4].
    split; [|exact H4]. intros Hd. rewrite calls_app. apply elem_of_app. left. auto.
Qed.

Lemma steps_gated params rtt0 base remaining : forall step e,
  1 <= step -> Before rtt0 base step e ->
  Gated rtt0 base (steps random stopRequested remaining params step e).2.
Proof.
  induction remaining as [|remaining IH]; intros step e Hstep (Hrtt & Hlen & Hlast & Hg);
    [exact Hg|].
  cbn [steps]. destruct (isRunning e); [|exact Hg].
  pose proof (runStep_spec params step e) as Hs. cbv zeta in Hs.
  destruct Hs as (_ & R & _ & (evs & Tr & Hc1 & Hc2) & Hok & Hno).
  assert (Hdue : forall i, due step (rttOf i e)
                 = due step (if (i =? 0)%nat then rtt0.1 else rtt0.2)).
  { intros i. unfold rttOf. rewrite Hrtt. reflexivity. }
  assert (Hextra : forall k i, (k, i) ∈ calls evs ->
            i < 2 /\ due k (if (i =? 0)%nat then rtt0.1 else rtt0.2) = true).
  { intros k i Hk. destruct (Hc1 k i Hk) as (-> & Hi & Hd). rewrite <- Hdue. auto. }
  destruct (runStep random params step e) as [[[]|m|] e1]; cbn [fst snd] in *.
  2,3: (apply (Gated_more rtt0 base e e1 evs);
        [apply Hno; discriminate|exact Tr|exact Hextra|exact Hg]).
  destruct (Hok eq_refl) as (d & Ht & Hd1 & Hx & Hy & Hkeep).
  apply IH; [lia|].
  set (e2 := if stopRequested step then stop e1 else e1).
  assert (H2 : rtt e2 = rtt e1 /\ trajectory e2 = trajectory e1 /\ trace e2 = trace e1
               /\ senders e2 = senders e1).
  { subst e2. destruct (stopRequested step); repeat split. }
  destruct H2 as (R2 & T2 & Tr2 & S2).
  assert (Hs2 : forall i, sender i e2 = sender i e1).
  { intros i. unfold sender. rewrite S2. reflexivity. }
  split; [congruence|]. split; [rewrite T2, Ht, length_app; cbn; lia|].
  split.
  { exists (Step d). rewrite T2, Ht, !Hs2. split; [|split; assumption].
    replace (S step - 1) with (length (trajectory e) + 0) by lia.
    rewrite lookup_app_r by lia. rewrite Nat.add_comm, Nat.add_sub. reflexivity. }
  destruct Hg as (events & E & Hc & Hr).
  exists (events ++ evs)%list. rewrite Tr2, Tr, E, app_assoc. split; [reflexivity|].
  split.
  { intros k i Hk. rewrite calls_app in Hk. apply elem_of_app in Hk as [Hk|Hk]; auto. }
  intros k pt Hk. rewrite T2, Ht in Hk |- *.
  destruct (decide (k < length (trajectory e))) as [Hlt|Hge].
  - rewrite lookup_app_l in Hk by assumption.
    destruct (Hr k pt Hk) as [H1 H3]. split; [exact H1|]. intros Hk1 i Hi.
    destruct (H3 Hk1 i Hi) as [H4 H5]. split.
    + intros Hd. rewrite calls_app. apply elem_of_app. left. auto.
    + intros Hd. destruct (H5 Hd) as (prev & Hp & Hcoord). exists prev.
      split; [|exact Hcoord]. rewrite lookup_app_l; [exact Hp|]. lia.
  - assert (k = step) as ->.
    { apply lookup_lt_Some in Hk. rewrite length_app in Hk. cbn in Hk. lia. }
    rewrite lookup_app_r in Hk by lia. rewrite Hlen, Nat.sub_diag in Hk.
    injection Hk as <-. split; [exact Hd1|]. intros _ i Hi. split.
    + intros Hd. rewrite calls_app. apply elem_of_app. right.
      apply Hc2; [reflexivity|exact Hi|]. rewrite Hdue. exact Hd.
    + intros Hd. destruct Hlast as (last & Hl & Hlx & Hly). exists last.
      split; [rewrite lookup_app_l; [exact Hl|lia]|].
      rewrite <- Hdue in Hd. specialize (Hkeep i Hi Hd).
      unfold coordinate. destruct i as [|[|i]]; try lia; cbn [Nat.eqb pointX pointY].
      * rewrite Hx, Hlx. exact Hkeep.
      * rewrite Hy, Hly. exact Hkeep.
Qed.

(** A run that is not stopped and in which no call throws records every
    step. *)
Lemma steps_length params remaining : forall step e,
  (forall k, stopRequested k = false) -> isRunning e = true ->
  (steps random stopRequested remaining params step e).1 = Ok tt ->
  length (trajectory (steps random stopRequested remaining params step e).2)
  = length (trajectory e) + remaining.
Proof.
  induction remaining as [|remaining IH]; intros step e Hstop Hrun; cbn [steps];
    [intros _; cbn; lia|].
  rewrite Hrun.
  pose proof (runStep_spec params step e) as Hs. cbv zeta in Hs.
  destruct Hs as (_ & _ & I & _ & Hok & _).
  destruct (runStep random params step e) as [[[]|m|] e1]; cbn [fst snd] in *;
    try discriminate.
  rewrite Hstop. intros H. rewrite IH; [|exact Hstop|congruence|exact H].
  destruct (Hok eq_refl) as (d & -> & _). rewrite length_app. cbn. lia.
Qed.

End Run.

End EngineFacts.



(** With [rtt = [1, 2]] and a duration of 4 the second sender is called at
    the steps 2 and 4 only, and its rate at the steps 1 and 3 is its rate at
    the steps 0 and 2. *)
Example rtt_one_two :
  EngineProps.calls
    (SimulationEngine.trace
       (SimulationEngine.run (host := exampleHost) (fun _ _ => noRandom) noStop
          {| SimulationEngine.sender0 := []; SimulationEngine.sender1 := [] |}
          gatedEngine).2)
  = [(1, 0); (2, 0); (2, 1); (3, 0); (4, 0); (4, 1)]
  /\ map SimulationEngine.pointY
       (SimulationEngine.trajectory
          (SimulationEngine.run (host := exampleHost) (fun _ _ => noRandom) noStop
             {| SimulationEngine.sender0 := []; SimulationEngine.sender1 := [] |}
             gatedEngine).2)
     = [0.25; 0.25; 0.375; 0.375; 0.5]%float
  /\ map SimulationEngine.pointX
       (SimulationEngine.trajectory
          (SimulationEngine.run (host := exampleHost) (fun _ _ => noRandom) noStop
             {| SimulationEngine.sender0 := []; SimulationEngine.sender1 := [] |}
             gatedEngine).2)
     = [0.125; 0.1875; 0.25; 0.3125; 0.375]%float.
Proof. repeat split; vm_compute; reflexivity. Qed.

#[local] Open Scope list_scope.

(** ** The bounds of the loops *)

Module TokenizerFacts.

Import Tokenizer TokenizerProps.

Lemma skipWhitespace_from_forward cs : forall tk, Forward tk (skipWhitespace_from cs tk).
Proof.
  induction cs as [|c cs IH]; intros tk; simpl; [split; [reflexivity|lia]|].
  destruct (_ || _).
  - destruct (IH (make (source tk) (S (pos tk)) (line tk) (tokens tk))) as [H1 H2].
    split; [exact H1|simpl in H2; lia].
  - destruct (Ascii.eqb c "010").
    + destruct (IH (make (source tk) (S (pos tk)) (S (line tk)) (tokens tk))) as [H1 H2].
      split; [exact H1|simpl in H2; lia].
    + split; [reflexivity|lia].
Qed.

Lemma rest_cons tk char : source tk !! pos tk = Some char ->
  exists cs, rest tk = char :: cs.
Proof.
  unfold rest. intros H. exists (drop (S (pos tk)) (source tk)).
  apply drop_S. exact H.
Qed.

Lemma tryReadOperator_in_forward ops tk tk' :
  Forall (fun op => 1 <= String.length op) ops ->
  tryReadOperator_in ops tk = Some tk' -> source tk' = source tk /\ pos tk < pos tk'.
Proof.
  intros Hops. induction Hops as [|op ops Hop _ IH]; simpl; [discriminate|].
  destruct (String.eqb _ op); [|exact IH].
  intros H. injection H as <-. simpl. split; [reflexivity|lia].
Qed.

(** Every round of the loop of [tokenize] reads at least one character. *)
Lemma scan_forward char tk tk' :
  source tk !! pos tk = Some char -> scan char tk = inr tk' ->
  source tk' = source tk /\ pos tk < pos tk'.
Proof.
  intros Hc. destruct (rest_cons tk char Hc) as [cs Hr]. unfold scan.
  destruct (Ascii.eqb char "#") eqn:Hhash.
  { apply Ascii.eqb_eq in Hhash. subst char.
    assert (Hl : 1 <= lineLength (rest tk)) by (rewrite Hr; cbn; lia).
    destruct (_ || _); cbn [andb]; intros H; simplify_eq; simpl; split;
      (reflexivity || lia). }
  cbn [andb].
  destruct (_ || _) eqn:Hnum.
  { intros H; simplify_eq. simpl. split; [reflexivity|].
    assert (1 <= numberLength (rest tk) false); [|lia].
    rewrite Hr. cbn. destruct (Text.isDigit char) eqn:Hd; [lia|].
    cbn in Hnum. destruct (Ascii.eqb char "."); [cbn; lia|discriminate]. }
  destruct (Text.isAlpha char || _) eqn:Hname.
  { intros H; simplify_eq. simpl. split; [reflexivity|].
    assert (1 <= length (Text.takeWhile Text.isAlphaNumeric (rest tk))); [|lia].
    rewrite Hr. cbn. unfold Text.isAlphaNumeric.
    destruct (Text.isAlpha char); [cbn; lia|]. cbn in Hname. rewrite Hname.
    rewrite orb_true_r. cbn. lia. }
  destruct (tryReadOperator tk) as [tk1|] eqn:Hop.
  { intros H; simplify_eq.
    apply (tryReadOperator_in_forward OPERATORS); [|exact Hop].
    repeat constructor. }
  destruct (punctuation char) as [[ty v]|]; [|discriminate].
  intros H; simplify_eq. simpl. split; [reflexivity|lia].
Qed.

(** With more rounds than characters left, the loop of [tokenize] ends
    because the source is read to its end (or with a lexical error). *)
Lemma tokenize_loop_complete fuel : forall tk tk',
  length (source tk) - pos tk < fuel ->
  tokenize_loop fuel tk = inr tk' ->
  source tk' = source tk /\ length (source tk') <= pos tk'.
Proof.
  induction fuel as [|fuel IH]; intros tk tk' Hfuel; [lia|]. simpl.
  case_bool_decide as Hpos; [|intros H; injection H as <-; split; [reflexivity|lia]].
  destruct (skipWhitespace_from_forward (rest tk) tk) as [Hs Hp].
  fold (skipWhitespaceAndComments tk) in Hs, Hp.
  destruct (source (skipWhitespaceAndComments tk) !! pos (skipWhitespaceAndComments tk))
    as [char|] eqn:Hc.
  - destruct (scan char (skipWhitespaceAndComments tk)) as [e|tk1] eqn:Hscan;
      [discriminate|].
    destruct (scan_forward char _ tk1 Hc Hscan) as [Hs1 Hp1].
    intros H. apply IH in H as [H1 H2]; [|rewrite Hs1, Hs; lia].
    split; [congruence|exact H2].
  - intros H. injection H as <-. split; [exact Hs|].
    apply lookup_ge_None. exact Hc.
Qed.

(** The tokens end with [EOF]. *)
Lemma tokenize_ends_with_EOF tk ts :
  tokenize tk = inr ts -> exists ts' eof, ts = (ts' ++ [eof])%list /\ Token.type eof = EOF.
Proof.
  unfold tokenize. destruct (tokenize_loop _ tk) as [e|tk']; [discriminate|].
  intros H. injection H as <-. unfold push. eexists _, _. split; reflexivity.
Qed.

End TokenizerFacts.

Module RangeFacts.

Import ScriptParser ParserProps ParserFacts.

Lemma Ranged_refl p : Ranged p p.
Proof. split; [reflexivity|tauto]. Qed.

Lemma Ranged_trans p q r : Ranged p q -> Ranged q r -> Ranged p r.
Proof. intros [H1 H2] [H3 H4]. split; [congruence|tauto]. Qed.

Lemma Ranged_advance p : isAtEnd p = false -> Ranged p (set_pos (S (pos p)) p).
Proof.
  intros Hend. split; [reflexivity|]. intros (ts & eof & Ht & He & Hp).
  exists ts, eof. split; [exact Ht|]. split; [exact He|]. cbn.
  destruct (decide (pos p = length ts)) as [Heq|Hne]; [|lia].
  exfalso. unfold isAtEnd, current in Hend. apply bool_decide_eq_false in Hend.
  apply Hend. rewrite Ht, Heq, app_nth2, Nat.sub_diag by lia. exact He.
Qed.

Lemma Ranged_draw p : Ranged p (set_drawn (S (drawn p)) p).
Proof. split; [reflexivity|tauto]. Qed.

Lemma Ranged_assign p name v :
  isConstant name = false -> Ranged p (set_variables (<[name := v]> (variables p)) p).
Proof. intros _. split; [reflexivity|tauto]. Qed.

Lemma processTokens_tokens ts : forall acc p,
  (processTokens ts acc p).1
  = (acc ++ filter (fun tok => Token.type tok <> PREPROCESSOR) ts)%list.
Proof.
  induction ts as [|tok ts IH]; intros acc p; simpl; [rewrite app_nil_r; reflexivity|].
  rewrite filter_cons. case_bool_decide as Hp.
  - rewrite IH. destruct (decide _) as [Hd|Hd]; [contradiction|reflexivity].
  - rewrite IH. destruct (decide _) as [Hd|Hd]; [|contradiction].
    rewrite <- app_assoc. reflexivity.
Qed.

Section Execute.

Context `{host : Math.Host} (random : nat -> float).

(** The statements start and end with the position within the tokens:
    [this.tokens[this.pos]] is always a token. *)
Lemma execute_in_range context p o q :
  execute random context p = inr (o, q) -> InRange q.
Proof.
  unfold execute.
  destruct (Tokenizer.tokenize _) as [e|ts] eqn:Ht; [discriminate|]. cbv zeta.
  set (p2 := processPreprocessor _).
  assert (H2 : InRange p2).
  { apply TokenizerFacts.tokenize_ends_with_EOF in Ht as (ts' & eof & -> & He).
    subst p2. unfold processPreprocessor.
    pose proof (processTokens_tokens (ts' ++ [eof]) []
                  (set_params [] (set_tokens (ts' ++ [eof]) (initialise context p)))) as E.
    pose proof (processTokens_frame (ts' ++ [eof]) []
                  (set_params [] (set_tokens (ts' ++ [eof]) (initialise context p)))) as F.
    cbn [tokens set_params set_tokens] in *.
    destruct (processTokens _ _ _) as [newTokens p3]. cbn [fst snd] in *.
    destruct F as (_ & _ & F & _). subst newTokens.
    exists (filter (fun tok => Token.type tok <> PREPROCESSOR) ts'), eof.
    split; [|split; [exact He|cbn; rewrite F; cbn; lia]].
    cbn. rewrite filter_app, filter_cons, filter_nil.
    destruct (decide _) as [Hd|Hd]; [reflexivity|]. exfalso. apply Hd. rewrite He.
    discriminate. }
  pose proof (preserves_statements random Ranged Ranged_refl Ranged_trans Ranged_advance
                Ranged_draw Ranged_assign (S (length (tokens p2))) p2) as [_ R].
  destruct (statements random _ p2) as [o' q']. intros H. injection H as -> ->.
  apply R. exact H2.
Qed.

(** [parse] fails to return only when a closing brace outside any block
    stops the loop over the statements, which then runs forever. *)
Lemma parse_never_returns context p :
  (parse random context p).1 = None ->
  Token.type (current (parse random context p).2) = RBRACE
  /\ forall fuel,
       statements random fuel (parse random context p).2
       = (Diverge, (parse random context p).2).
Proof.
  unfold parse, execute.
  destruct (Tokenizer.tokenize _) as [e|ts]; [discriminate|]. cbv zeta.
  set (p2 := processPreprocessor _).
  assert (Hpos : remaining p2 < S (length (tokens p2))) by (unfold remaining; lia).
  pose proof (statements_diverge random (S (length (tokens p2))) p2) as Hd.
  destruct (statements random _ p2) as [[[]|e|] q]; cbn [fst snd]; try discriminate.
  intros _. specialize (Hd q Hpos eq_refl). split; [exact Hd|].
  intros fuel. apply statements_spin. exact Hd.
Qed.

End Execute.

End RangeFacts.

(** A closing brace outside any block: [parse] never returns. *)
Example stray_brace_never_returns :
  (ScriptParser.parse (host := exampleHost) noRandom congested
     (ScriptParser.create "rate = 1; }")).1 = None.
Proof. vm_compute; reflexivity. Qed.

Module BackedFacts.

Import ScriptParser ParserProps ParserFacts.

Lemma Growing_refl p : Growing p p.
Proof. split; [reflexivity|tauto]. Qed.

Lemma Growing_trans p q r : Growing p q -> Growing q r -> Growing p r.
Proof. intros [H1 H2] [H3 H4]. split; [congruence|auto]. Qed.

Lemma Growing_advance p : isAtEnd p = false -> Growing p (set_pos (S (pos p)) p).
Proof. intros _. split; [reflexivity|tauto]. Qed.

Lemma Growing_draw p : Growing p (set_drawn (S (drawn p)) p).
Proof. split; [reflexivity|tauto]. Qed.

Lemma Growing_assign p name v :
  isConstant name = false -> Growing p (set_variables (<[name := v]> (variables p)) p).
Proof.
  intros _. split; [reflexivity|]. intros n Hn. cbn.
  destruct (decide (name = n)) as [->|Hne];
    [rewrite lookup_insert_eq; eauto|rewrite lookup_insert_ne by exact Hne; exact Hn].
Qed.

Lemma insert_keeps (m : gmap string float) k v n :
  is_Some (m !! n) -> is_Some (<[k := v]> m !! n).
Proof.
  intros Hn. destruct (decide (k = n)) as [->|Hne].
  - rewrite lookup_insert_eq. eauto.
  - rewrite lookup_insert_ne by exact Hne. exact Hn.
Qed.

Lemma insert_keeps_inv (m m' : gmap string float) k v n :
  (forall n, is_Some (m !! n) -> is_Some (m' !! n)) ->
  is_Some (<[k := v]> m !! n) -> is_Some (<[k := v]> m' !! n).
Proof.
  intros Hm Hn. destruct (decide (k = n)) as [->|Hne].
  - rewrite lookup_insert_eq. eauto.
  - rewrite lookup_insert_ne in Hn |- * by exact Hne. auto.
Qed.

Lemma handlePreprocessor_backed directive p :
  Backed p -> Backed (handlePreprocessor directive p).
Proof.
  intros [H1 H2]. unfold handlePreprocessor.
  destruct (RegExp.exec paramPattern _) as [caps|].
  { cbv zeta. case_bool_decide as Hin; split;
      cbn [variables staticVariables params set_variables set_staticVariables set_params].
    - exact H1.
    - intros d Hd Hs. apply elem_of_app in Hd as [Hd|Hd]; [auto|].
      apply list_elem_of_singleton in Hd. subst d. discriminate.
    - intros n Hn. apply insert_keeps, H1, Hn.
    - intros d Hd Hs. apply elem_of_app in Hd as [Hd|Hd].
      + apply insert_keeps, H2; assumption.
      + apply list_elem_of_singleton in Hd. subst d. discriminate. }
  destruct (RegExp.exec varPattern _) as [caps|]; [|split; assumption].
  cbv zeta. case_bool_decide as Hin; split;
    cbn [variables staticVariables params set_variables set_staticVariables set_params].
  - exact H1.
  - intros d Hd Hs. apply elem_of_app in Hd as [Hd|Hd]; [auto|].
    apply list_elem_of_singleton in Hd. subst d. apply H1. exact Hin.
  - intros n. apply insert_keeps_inv, H1.
  - intros d Hd Hs. apply elem_of_app in Hd as [Hd|Hd].
    + apply insert_keeps, H2; assumption.
    + apply list_elem_of_singleton in Hd. subst d.
      cbn [Param.name]. rewrite lookup_insert_eq. eauto.
Qed.

Lemma processTokens_backed ts : forall acc p,
  Backed p -> Backed (processTokens ts acc p).2.
Proof.
  induction ts as [|tok ts IH]; intros acc p H; simpl; [exact H|].
  case_bool_decide; [|apply IH; exact H].
  apply IH, handlePreprocessor_backed, H.
Qed.

Section Execute.

Context `{host : Math.Host} (random : nat -> float).

(** When [parse] writes the static variables back, each of them has a
    value. *)
Lemma execute_static_defined context p o q d :
  execute random context p = inr (o, q) ->
  d ∈ params q -> Param.isStatic d = true -> is_Some (variables q !! Param.name d).
Proof.
  unfold execute.
  destruct (Tokenizer.tokenize _) as [e|ts]; [discriminate|]. cbv zeta.
  set (p2 := processPreprocessor _).
  assert (H2 : Backed p2).
  { subst p2. unfold processPreprocessor.
    pose proof (processTokens_backed
                  (tokens (set_params [] (set_tokens ts (initialise context p)))) []
                  (set_params [] (set_tokens ts (initialise context p)))) as H.
    destruct (processTokens _ _ _) as [newTokens p3]. cbn [snd] in H.
    assert (Hd : Backed p3); [apply H|destruct Hd as [Hd1 Hd2]; split; assumption].
    split; [|intros d' Hd'; apply elem_of_nil in Hd'; destruct Hd'].
    intros n [v Hn]. cbn in Hn |- *. exists v. apply lookup_union_Some_l. exact Hn. }
  pose proof (preserves_statements random Growing Growing_refl Growing_trans
                Growing_advance Growing_draw Growing_assign
                (S (length (tokens p2))) p2) as [Gp Gv].
  destruct (statements random _ p2) as [o' q']. intros H. injection H as -> ->.
  cbn [snd] in Gp, Gv. rewrite Gp. intros Hd Hs. apply Gv, H2; assumption.
Qed.

End Execute.

End BackedFacts.

(** ** What a parse depends on *)

Module InputFacts.

Import ScriptParser ParserProps.

(** The variables that [setVariable] writes before a parse are replaced by
    [this.variables = { ...context }]. *)
Lemma initialise_setVariables `{host : Math.Host} context params : forall p,
  initialise context (Sender.setVariables params p) = initialise context p.
Proof.
  induction params as [|[n v] params IH]; intros p; [reflexivity|].
  cbn [Sender.setVariables fold_left]. 
  change (fold_left _ params ?q) with (Sender.setVariables params q).
  rewrite IH. reflexivity.
Qed.

Lemma parse_setVariables `{host : Math.Host} (random : nat -> float) context params p :
  parse random context (Sender.setVariables params p) = parse random context p.
Proof.
  unfold parse, execute. rewrite initialise_setVariables. reflexivity.
Qed.

Lemma Alike_reset p : Alike (resetStaticVars p) (create (source p)).
Proof. split; reflexivity. Qed.

End InputFacts.

(** X1.  The values that [calculate(traffic, params)] hands to [setVariable]
    never reach the script: [parse] replaces the variables by the context
    first, so the call returns and leaves exactly what [calculate(traffic,
    {})] does. *)
Theorem calculate_ignores_params `{host : Math.Host}
    (random : nat -> float) (traffic : float) (params : list (string * float))
    (s : Sender.t) :
  Sender.calculate random traffic params s = Sender.calculate random traffic [] s.
Proof.
  unfold Sender.calculate. rewrite InputFacts.parse_setVariables. reflexivity.
Qed.

(** The default of a parameter is used whatever the slider says. *)
Example slider_value_is_ignored :
  (Sender.calculate (host := exampleHost) noRandom 0 [("gain", 0.75%float)]
     (Sender.create ("#define_param gain range 0.25 to 1" ++ newline ++ "rate = gain;"))).1
  = Ok (Sender.Success 0.25).
Proof. vm_compute; reflexivity. Qed.

(** X2.  After [resetStaticVars()] a parser behaves as a parser newly made
    for the same source: the next [parse] returns the same and leaves the
    same static store. *)
Theorem reset_parser_is_fresh `{host : Math.Host}
    (random : nat -> float) (context : ScriptParser.Context) (p : ScriptParser.t) :
  (ScriptParser.parse random context (ScriptParser.resetStaticVars p)).1
  = (ScriptParser.parse random context (ScriptParser.create (ScriptParser.source p))).1
  /\ ScriptParser.staticVariables
       (ScriptParser.parse random context (ScriptParser.resetStaticVars p)).2
     = ScriptParser.staticVariables
         (ScriptParser.parse random context (ScriptParser.create (ScriptParser.source p))).2
  /\ ScriptParser.source
       (ScriptParser.parse random context (ScriptParser.resetStaticVars p)).2
     = ScriptParser.source p.
Proof.
  destruct (CatalogFacts.parse_alike random context _ _ (InputFacts.Alike_reset p))
    as [H1 [H2 H3]].
  split; [exact H1|]. split; [exact H3|]. rewrite H2.
  unfold ScriptParser.parse, ScriptParser.execute.
  destruct (Tokenizer.tokenize _) as [e|ts]; [reflexivity|]. cbv zeta.
  set (p2 := ScriptParser.processPreprocessor _).
  pose proof (ParserFacts.statements_framed random
                (S (length (ScriptParser.tokens p2))) p2) as F.
  destruct (ScriptParser.statements random _ p2) as [o q]. cbn [snd] in F.
  destruct F as (Fs & _). subst p2.
  destruct (ParserFacts.processPreprocessor_frame
              (ScriptParser.set_tokens ts
                 (ScriptParser.initialise context
                    (ScriptParser.create (ScriptParser.source p))))) as (E & _).
  rewrite E in Fs. destruct o as [[]|e|]; cbn [snd]; exact Fs.
Qed.

(** X3.  Evaluating an expression has no effect but on the position and on
    the numbers drawn from [Math.random]: whether it returns or throws, the
    variables, the static store, the catalogue, the errors and the tokens
    are what they were, and the position has not moved back. *)
Theorem expression_has_no_side_effect `{host : Math.Host}
    (random : nat -> float) (fuel : nat) (p : ScriptParser.t) :
  let q := (ScriptParser.expression random fuel p).2 in
  ScriptParser.variables q = ScriptParser.variables p
  /\ ScriptParser.staticVariables q = ScriptParser.staticVariables p
  /\ ScriptParser.params q = ScriptParser.params p
  /\ ScriptParser.errors q = ScriptParser.errors p
  /\ ScriptParser.tokens q = ScriptParser.tokens p
  /\ ScriptParser.source q = ScriptParser.source p
  /\ ScriptParser.pos p <= ScriptParser.pos q.
Proof.
  intros q. subst q.
  destruct (ParserFacts.expression_untouched random fuel p) as (H1 & H2 & H3 & H4 & H5 & H6).
  destruct (ParserFacts.preserves_expression random ParserProps.Mono ParserFacts.Mono_refl
              ParserFacts.Mono_trans ParserFacts.Mono_advance ParserFacts.Mono_draw fuel p)
    as [_ H7].
  repeat split; assumption.
Qed.

(** X4.  [parse] reports at most one error, and the rate it returns is never
    [NaN]: the execution stops at the first error, and the list of errors is
    emptied when [parse] starts. *)
Theorem parse_reports_at_most_one_error `{host : Math.Host}
    (random : nat -> float) (context : ScriptParser.Context) (p : ScriptParser.t) :
  length (ScriptParser.errors (ScriptParser.parse random context p).2) <= 1
  /\ forall rate errors,
       (ScriptParser.parse random context p).1 = Some (ScriptParser.Returned rate errors) ->
       errors = ScriptParser.errors (ScriptParser.parse random context p).2
       /\ PrimFloat.is_nan rate = false.
Proof.
  split.
  - unfold ScriptParser.parse.
    destruct (ScriptParser.execute random context p) as [[e q]|[o q]] eqn:E.
    + unfold ScriptParser.execute in E.
      destruct (Tokenizer.tokenize _); [|discriminate]. injection E as <- <-.
      cbn. lia.
    + apply execute_errors in E.
      destruct o as [[]|e|]; cbn; rewrite E; cbn; lia.
  - intros rate errors H. split; [|eapply parse_rate_not_nan; exact H].
    destruct (parse_cases random context p)
      as [(e & q & _ & E)|[(q & _ & E)|[(q & _ & E)|(e & q & _ & E)]]];
      rewrite E in H |- *; cbn [fst snd] in *; simplify_eq; reflexivity.
Qed.

(** X5.  The position never leaves the tokens: from a state whose position
    is at or before the final [EOF] token every statement ends in such a
    state, and so does the execution of a script, so [this.tokens[this.pos]]
    is always a token. *)
Theorem position_stays_within_tokens `{host : Math.Host}
    (random : nat -> float) (context : ScriptParser.Context) (p : ScriptParser.t) :
  (forall fuel, ParserProps.InRange p ->
     ParserProps.InRange (ScriptParser.statement random fuel p).2
     /\ ParserProps.InRange (ScriptParser.expression random fuel p).2)
  /\ forall o q, ScriptParser.execute random context p = inr (o, q) ->
       ScriptParser.pos q < length (ScriptParser.tokens q)
       /\ ScriptParser.tokens q !! ScriptParser.pos q = Some (ScriptParser.current q).
Proof.
  split.
  - intros fuel H. split.
    + apply (ParserFacts.preserves_statement random ParserProps.Ranged RangeFacts.Ranged_refl
               RangeFacts.Ranged_trans RangeFacts.Ranged_advance RangeFacts.Ranged_draw
               RangeFacts.Ranged_assign fuel p). exact H.
    + apply (ParserFacts.preserves_expression random ParserProps.Ranged RangeFacts.Ranged_refl
               RangeFacts.Ranged_trans RangeFacts.Ranged_advance RangeFacts.Ranged_draw
               fuel p). exact H.
  - intros o q H. apply RangeFacts.execute_in_range in H as (ts & eof & Ht & _ & Hp).
    assert (Hlt : ScriptParser.pos q < length (ScriptParser.tokens q)).
    { rewrite Ht, length_app. cbn. lia. }
    split; [exact Hlt|]. unfold ScriptParser.current.
    apply lookup_lt_is_Some in Hlt as [tok Htok]. rewrite Htok. f_equal.
    symmetry. apply nth_lookup_Some with (d := Token.make EOF Null 0) in Htok. exact Htok.
Qed.

(** X6.  [parse] fails to return in one way only: the loop over the
    statements has met a closing brace outside any block, where
    [statement()] returns without reading it and the loop runs forever.  A
    script without a closing brace always makes [parse] return. *)
Theorem parse_returns_unless_stray_brace `{host : Math.Host}
    (random : nat -> float) (context : ScriptParser.Context) (p : ScriptParser.t) :
  ((ScriptParser.parse random context p).1 = None ->
   Token.type (ScriptParser.current (ScriptParser.parse random context p).2) = RBRACE
   /\ forall fuel,
        ScriptParser.statements random fuel (ScriptParser.parse random context p).2
        = (Diverge, (ScriptParser.parse random context p).2))
  /\ (forall ts,
        Tokenizer.tokenize (Tokenizer.create (ScriptParser.source p)) = inr ts ->
        Forall (fun tok => Token.type tok <> RBRACE) ts ->
        (ScriptParser.parse random context p).1 <> None).
Proof.
  split; [apply RangeFacts.parse_never_returns|].
  intros ts Ht Hts Hnone.
  destruct (RangeFacts.parse_never_returns random context p Hnone) as [Hb _].
  revert Hnone Hb. unfold ScriptParser.parse.
  destruct (ScriptParser.execute random context p) as [[e q]|[o q]] eqn:E;
    [discriminate|].
  destruct o as [[]|e|]; cbn [fst snd]; try discriminate. intros _ Hb.
  pose proof (RangeFacts.execute_in_range random context p _ _ E) as (ts' & eof & Hq & _ & Hp).
  assert (Hin : ScriptParser.current q ∈ ScriptParser.tokens q).
  { unfold ScriptParser.current.
    assert (Hlt : ScriptParser.pos q < length (ScriptParser.tokens q))
      by (rewrite Hq, length_app; cbn; lia).
    apply lookup_lt_is_Some in Hlt as [tok Htok].
    rewrite (nth_lookup_Some _ _ (Token.make EOF Null 0) _ Htok).
    eapply list_elem_of_lookup_2. exact Htok. }
  assert (Hsub : forall tok, tok ∈ ScriptParser.tokens q -> tok ∈ ts).
  { unfold ScriptParser.execute in E.
    change (ScriptParser.source (ScriptParser.initialise context p))
      with (ScriptParser.source p) in E.
    rewrite Ht in E. cbv zeta in E.
    set (p2 := ScriptParser.processPreprocessor _) in E.
    pose proof (ParserFacts.statements_framed random
                  (S (length (ScriptParser.tokens p2))) p2) as F.
    destruct (ScriptParser.statements random _ p2) as [o' q']. cbn [snd] in F.
    assert (q' = q) as -> by congruence. destruct F as (_ & -> & _). subst p2.
    unfold ScriptParser.processPreprocessor.
    pose proof (RangeFacts.processTokens_tokens ts []
                  (ScriptParser.set_params []
                     (ScriptParser.set_tokens ts (ScriptParser.initialise context p)))) as Ef.
    cbn [ScriptParser.tokens ScriptParser.set_params ScriptParser.set_tokens] in *.
    destruct (ScriptParser.processTokens _ _ _) as [newTokens p3]. cbn [fst] in Ef.
    subst newTokens. cbn. intros tok Htok. apply list_elem_of_filter in Htok as [_ Htok].
    exact Htok. }
  apply Hsub in Hin. rewrite Forall_forall in Hts. apply (Hts _ Hin). exact Hb.
Qed.

(** A script of assignments only. *)
Example parse_returns_without_braces :
  (ScriptParser.parse (host := exampleHost) noRandom congested
     (ScriptParser.create "rate = rate / 2; rate = rate +;")).1
  = Some (ScriptParser.Returned 0.25 [UnexpectedToken (Str ";") 1]).
Proof. vm_compute; reflexivity. Qed.

(** ** The catalogue of parameters *)

Module DirectiveFacts.

Import ScriptParser ParserProps.

(** What a directive adds to the catalogue depends on the directive only. *)
Lemma handlePreprocessor_params directive :
  exists added, length added <= 1 /\
    forall p, params (handlePreprocessor directive p) = params p ++ added.
Proof.
  unfold handlePreprocessor.
  destruct (RegExp.exec paramPattern _) as [caps|].
  { eexists. split; [|intros p; cbv zeta; case_bool_decide; reflexivity]. cbn. lia. }
  destruct (RegExp.exec varPattern _) as [caps|].
  { eexists. split; [|intros p; cbv zeta; case_bool_decide; reflexivity]. cbn. lia. }
  exists []. split; [cbn; lia|]. intros p. rewrite app_nil_r. reflexivity.
Qed.

Lemma processTokens_params ts :
  exists added,
    length added <= length (filter (fun tok => Token.type tok = PREPROCESSOR) ts) /\
    forall acc p, params (processTokens ts acc p).2 = params p ++ added.
Proof.
  induction ts as [|tok ts (added & Hl & IH)].
  { exists []. split; [cbn; lia|]. intros acc p. cbn. rewrite app_nil_r. reflexivity. }
  rewrite filter_cons. destruct (decide (Token.type tok = PREPROCESSOR)) as [Hd|Hd].
  - destruct (handlePreprocessor_params (textOf tok)) as (first & Hf & Hp).
    exists (first ++ added). split; [rewrite length_app; cbn; lia|].
    intros acc p. cbn [processTokens]. rewrite bool_decide_eq_true_2 by exact Hd.
    rewrite IH, Hp, app_assoc. reflexivity.
  - exists added. split; [exact Hl|]. intros acc p. cbn [processTokens].
    rewrite bool_decide_eq_false_2 by exact Hd. apply IH.
Qed.

(** Without a directive among the tokens nothing is changed. *)
Lemma processTokens_plain ts :
  Forall (fun tok => Token.type tok <> PREPROCESSOR) ts ->
  forall acc q, (processTokens ts acc q).2 = q.
Proof.
  intros Hts. induction Hts as [|tok ts Htok _ IH]; intros acc q; [reflexivity|].
  cbn [processTokens]. rewrite bool_decide_eq_false_2 by exact Htok. apply IH.
Qed.

Lemma processPreprocessor_params p q :
  tokens p = tokens q -> params (processPreprocessor p) = params (processPreprocessor q).
Proof.
  intros Ht. unfold processPreprocessor.
  destruct (processTokens_params (tokens p)) as (added & _ & H).
  pose proof (H [] (set_params [] p)) as Hp. rewrite Ht in H.
  pose proof (H [] (set_params [] q)) as Hq.
  cbn [tokens set_params] in *. rewrite <- Ht in Hq |- *.
  destruct (processTokens (tokens p) [] (set_params [] p)) as [n1 p1],
           (processTokens (tokens p) [] (set_params [] q)) as [n2 q1].
  cbn [snd] in *. cbn. rewrite Hp, Hq. reflexivity.
Qed.

Section Parse.

Context `{host : Math.Host} (random : nat -> float).

(** The catalogue after [parse]: the one of the directives when the source
    has been tokenized, the one before otherwise. *)
Lemma parse_params context p :
  params (parse random context p).2
  = match Tokenizer.tokenize (Tokenizer.create (source p)) with
    | inl _ => params p
    | inr ts => params (processPreprocessor (set_tokens ts (create (source p))))
    end.
Proof.
  unfold parse, execute.
  change (source (initialise context p)) with (source p).
  destruct (Tokenizer.tokenize _) as [e|ts]; [reflexivity|]. cbv zeta.
  set (p2 := processPreprocessor _).
  pose proof (ParserFacts.statements_framed random (S (length (tokens p2))) p2) as F.
  destruct (statements random _ p2) as [o q]. cbn [snd] in F.
  destruct F as (_ & _ & _ & Fp & _).
  assert (E : params q = params (processPreprocessor (set_tokens ts (create (source p))))).
  { rewrite Fp. subst p2. apply processPreprocessor_params. reflexivity. }
  destruct o as [[]|e|]; exact E.
Qed.

Lemma parse_source context p : source (parse random context p).2 = source p.
Proof.
  unfold parse, execute.
  destruct (Tokenizer.tokenize _) as [e|ts]; [reflexivity|]. cbv zeta.
  set (p2 := processPreprocessor _).
  pose proof (ParserFacts.statements_framed random (S (length (tokens p2))) p2) as F.
  destruct (statements random _ p2) as [o q]. cbn [snd] in F.
  destruct F as (Fs & _). subst p2.
  destruct (ParserFacts.processPreprocessor_frame
              (set_tokens ts (initialise context p))) as (E & _).
  rewrite E in Fs. destruct o as [[]|e|]; cbn [snd]; exact Fs.
Qed.

End Parse.

End DirectiveFacts.


(** The catalogue is the same after a second call in another context. *)
Example catalogue_after_two_calls :
  ScriptParser.params
    (ScriptParser.parse (host := exampleHost) noRandom congested
       (ScriptParser.parse (host := exampleHost) noRandom
          {| ScriptParser.rate := 0; ScriptParser.traffic := 0 |}
          (ScriptParser.create counter)).2).2
  = [Param.make "counter" None None 0 true].
Proof. vm_compute; reflexivity. Qed.

(** X8.  [processPreprocessor] takes the directive tokens out of the token
    sequence and keeps the other tokens in their order; the catalogue it
    builds has at most one parameter per directive and replaces the one
    before; without a directive the catalogue is empty and nothing else
    changes. *)
Theorem processPreprocessor_removes_directives (p : ScriptParser.t) :
  let p' := ScriptParser.processPreprocessor p in
  ScriptParser.tokens p'
  = filter (fun tok => Token.type tok <> PREPROCESSOR) (ScriptParser.tokens p)
  /\ length (ScriptParser.params p')
     <= length (filter (fun tok => Token.type tok = PREPROCESSOR) (ScriptParser.tokens p))
  /\ ScriptParser.source p' = ScriptParser.source p
  /\ ScriptParser.pos p' = ScriptParser.pos p
  /\ ScriptParser.errors p' = ScriptParser.errors p
  /\ (Forall (fun tok => Token.type tok <> PREPROCESSOR) (ScriptParser.tokens p) ->
      ScriptParser.tokens p' = ScriptParser.tokens p
      /\ ScriptParser.params p' = []
      /\ ScriptParser.variables p' = ScriptParser.variables p
      /\ ScriptParser.staticVariables p' = ScriptParser.staticVariables p).
Proof.
  intros p'. subst p'.
  destruct (ParserFacts.processPreprocessor_frame p) as (Hs & Hpos & He & _).
  assert (Ht : ScriptParser.tokens (ScriptParser.processPreprocessor p)
               = filter (fun tok => Token.type tok <> PREPROCESSOR) (ScriptParser.tokens p)).
  { unfold ScriptParser.processPreprocessor.
    pose proof (RangeFacts.processTokens_tokens
                  (ScriptParser.tokens (ScriptParser.set_params [] p)) []
                  (ScriptParser.set_params [] p)) as E.
    destruct (ScriptParser.processTokens _ _ _) as [newTokens q]. cbn [fst] in E.
    subst newTokens. reflexivity. }
  assert (Hl : length (ScriptParser.params (ScriptParser.processPreprocessor p))
               <= length (filter (fun tok => Token.type tok = PREPROCESSOR)
                            (ScriptParser.tokens p))).
  { unfold ScriptParser.processPreprocessor.
    destruct (DirectiveFacts.processTokens_params
                (ScriptParser.tokens (ScriptParser.set_params [] p))) as (added & Hl & H).
    specialize (H [] (ScriptParser.set_params [] p)).
    destruct (ScriptParser.processTokens _ _ _) as [newTokens q]. cbn [snd] in H.
    cbn in H |- *. rewrite H. exact Hl. }
  repeat split; try assumption.
  - rewrite Ht. clear -H. induction H as [|tok ts Htok _ IH]; [reflexivity|].
    rewrite filter_cons_True by exact Htok. f_equal. exact IH.
  - apply length_zero_iff_nil. 
    assert (E : filter (fun tok => Token.type tok = PREPROCESSOR) (ScriptParser.tokens p) = []).
    { clear -H. induction H as [|tok ts Htok _ IH]; [reflexivity|].
      rewrite filter_cons_False by exact Htok. exact IH. }
    rewrite E in Hl. cbn in Hl. lia.
  - unfold ScriptParser.processPreprocessor.
    pose proof (DirectiveFacts.processTokens_plain _ H [] (ScriptParser.set_params [] p)) as E.
    destruct (ScriptParser.processTokens _ _ _) as [newTokens q]. cbn [snd] in E.
    subst q. reflexivity.
  - unfold ScriptParser.processPreprocessor.
    pose proof (DirectiveFacts.processTokens_plain _ H [] (ScriptParser.set_params [] p)) as E.
    destruct (ScriptParser.processTokens _ _ _) as [newTokens q]. cbn [snd] in E.
    subst q. reflexivity.
Qed.

(** ** Assignments to a constant *)

Module AssignFacts.

Import ScriptParser ParserProps ParserFacts.

Section Assign.

Context `{host : Math.Host} (random : nat -> float).

Lemma assignment_constant fuel p :
  isConstant (textOf (current p)) = true ->
  Untouched p (assignment random fuel p).2 /\ (assignment random fuel p).1 <> Ok tt.
Proof.
  intros Hc. unfold assignment. cbv zeta. rewrite bind_eq.
  pose proof (preserves_advance Untouched Untouched_refl Untouched_advance p) as U1.
  destruct (advance p) as [[[]|e|] p1]; cbn [snd] in U1; [|split; [exact U1|discriminate]..].
  rewrite bind_eq.
  pose proof (preserves_expect Untouched Untouched_refl Untouched_advance ASSIGN "=" p1) as U2.
  destruct (expect ASSIGN "=" p1) as [[[]|e|] p2]; cbn [snd] in U2;
    [|split; [eapply Untouched_trans; eassumption|discriminate]..].
  rewrite bind_eq.
  pose proof (expression_untouched random fuel p2) as U3.
  destruct (expression random fuel p2) as [[value|e|] p3]; cbn [snd] in U3;
    [|split; [eapply Untouched_trans; [exact U1|eapply Untouched_trans; eassumption]
             |discriminate]..].
  rewrite bind_eq.
  pose proof (preserves_expect Untouched Untouched_refl Untouched_advance SEMICOLON ";" p3)
    as U4.
  assert (U : Untouched p (expect SEMICOLON ";" p3).2).
  { eapply Untouched_trans; [exact U1|]. eapply Untouched_trans; [exact U2|].
    eapply Untouched_trans; eassumption. }
  destruct (expect SEMICOLON ";" p3) as [[[]|e|] p4]; cbn [snd] in U;
    [|split; [exact U|discriminate]..].
  rewrite Hc. split; [exact U|discriminate].
Qed.

End Assign.

End AssignFacts.

(** X9.  An assignment to [pi] or [e], in any letter case, never takes place:
    the statement ends with an error (the right-hand side is still evaluated
    first, so the error may be its own) and no variable is changed. *)
Theorem constant_is_never_assigned `{host : Math.Host}
    (random : nat -> float) (fuel : nat) (p : ScriptParser.t) :
  ScriptParser.isConstant (ScriptParser.textOf (ScriptParser.current p)) = true ->
  ParserProps.remaining p < fuel ->
  (exists e, (ScriptParser.assignment random fuel p).1 = Throw e)
  /\ ScriptParser.variables (ScriptParser.assignment random fuel p).2
     = ScriptParser.variables p
  /\ ScriptParser.staticVariables (ScriptParser.assignment random fuel p).2
     = ScriptParser.staticVariables p.
Proof.
  intros Hc Hf.
  destruct (AssignFacts.assignment_constant random fuel p Hc) as [(_ & _ & Hv & Hs & _) Ho].
  pose proof (ParserFacts.assignment_terminates random fuel fuel (le_n _) p Hf) as Hd.
  split; [|split; assumption].
  destruct (ScriptParser.assignment random fuel p).1 as [[]|e|];
    [contradiction|exists e; reflexivity|contradiction].
Qed.

Lemma constant_is_never_assigned_witness :
  ScriptParser.isConstant
    (ScriptParser.textOf (ScriptParser.current (ready congested "PI = 3;"))) = true
  /\ ParserProps.remaining (ready congested "PI = 3;") < 10
  /\ ScriptParser.variables
       (ScriptParser.assignment (host := exampleHost) noRandom 10
          (ready congested "PI = 3;")).2
     = ScriptParser.variables (ready congested "PI = 3;").
Proof.
  assert (H1 : ScriptParser.isConstant
                 (ScriptParser.textOf (ScriptParser.current (ready congested "PI = 3;")))
               = true) by (vm_compute; reflexivity).
  assert (H2 : ParserProps.remaining (ready congested "PI = 3;") < 10)
    by (apply Nat.ltb_lt; vm_compute; reflexivity).
  split; [exact H1|]. split; [exact H2|].
  exact (proj1 (proj2 (constant_is_never_assigned (host := exampleHost) noRandom 10
                         (ready congested "PI = 3;") H1 H2))).
Defined.

(** The message when the statement is otherwise well formed. *)
Example constant_reassigned :
  (ScriptParser.parse (host := exampleHost) noRandom congested
     (ScriptParser.create "Pi = 3;")).1
  = Some (ScriptParser.Returned 0.5 [CannotReassignConstant "Pi" 1])
  /\ (ScriptParser.parse (host := exampleHost) noRandom congested
        (ScriptParser.create "E = 1 / 0;")).1
     = Some (ScriptParser.Returned 0.5 [DivisionByZero]).
Proof. split; vm_compute; reflexivity. Qed.

(** ** Skipping a block *)

Module BlockFacts.

Import ScriptParser ParserProps ParserFacts BlockProps.

Lemma set_pos_eq a b p : a = b -> set_pos a p = set_pos b p.
Proof. intros ->. reflexivity. Qed.

Lemma set_pos_set_pos a b p : set_pos a (set_pos b p) = set_pos a p.
Proof. reflexivity. Qed.

Lemma set_pos_same p : set_pos (pos p) p = p.
Proof. destruct p. reflexivity. Qed.

Lemma current_at p front tok back :
  tokens p = front ++ tok :: back -> pos p = length front -> current p = tok.
Proof.
  intros Ht Hp. unfold current. rewrite Ht, Hp.
  rewrite app_nth2 by lia. rewrite Nat.sub_diag. reflexivity.
Qed.

(** One round of the loop of [skipBlock] at a token that is not [EOF]. *)
Lemma skipLoop_step fuel depth p :
  1 <= depth -> Token.type (current p) <> EOF ->
  skipLoop (S fuel) depth p =
  let depth := if bool_decide (Token.type (current p) = LBRACE) then S depth else depth in
  let depth := if bool_decide (Token.type (current p) = RBRACE) then depth - 1 else depth in
  if (0 <? depth)%nat then skipLoop fuel depth (set_pos (S (pos p)) p)
  else skipLoop fuel depth p.
Proof.
  intros Hd He. cbn [skipLoop]. unfold check, isAtEnd.
  rewrite (bool_decide_eq_false_2 _ He). cbn [negb andb].
  replace (0 <? depth)%nat with true by (symmetry; apply Nat.ltb_lt; lia).
  cbv zeta.
  match goal with |- context [if (0 <? ?d)%nat then _ else _] => destruct (0 <? d)%nat end;
    [|reflexivity].
  rewrite bind_eq. unfold advance, isAtEnd. rewrite (bool_decide_eq_false_2 _ He).
  reflexivity.
Qed.

Lemma skipLoop_balanced body :
  Balanced body ->
  forall depth k p front back,
    1 <= depth -> tokens p = front ++ body ++ back -> pos p = length front ->
    skipLoop (length body + k) depth p
    = skipLoop k depth (set_pos (pos p + length body) p).
Proof.
  induction 1 as [|tok ts Hl Hr He _ IH|lb inner rb ts Hl Hr _ IHi _ IHt];
    intros depth k p front back Hd Ht Hp.
  - cbn [length]. rewrite Nat.add_0_r, set_pos_same. reflexivity.
  - pose proof (current_at p front tok (ts ++ back) Ht Hp) as Hc.
    cbn [length Nat.add]. rewrite skipLoop_step by first [lia|rewrite Hc; assumption].
    rewrite Hc, (bool_decide_eq_false_2 _ Hl), (bool_decide_eq_false_2 _ Hr). cbv zeta.
    replace (0 <? depth)%nat with true by (symmetry; apply Nat.ltb_lt; lia).
    rewrite (IH depth k (set_pos (S (pos p)) p) (front ++ [tok]) back Hd).
    + f_equal. rewrite set_pos_set_pos. apply set_pos_eq. cbn. lia.
    + cbn. rewrite Ht, <- app_assoc. reflexivity.
    + cbn. rewrite Hp, length_app. cbn. lia.
  - assert (Ht' : tokens p = front ++ lb :: (inner ++ rb :: ts ++ back)).
    { rewrite Ht. cbn. rewrite <- !app_assoc. reflexivity. }
    pose proof (current_at p front lb _ Ht' Hp) as Hc.
    replace (length (lb :: inner ++ rb :: ts) + k)
      with (S (length inner + (S (length ts + k))))
      by (cbn; rewrite length_app; cbn; lia).
    rewrite skipLoop_step by first [lia|rewrite Hc, Hl; discriminate].
    rewrite Hc, (bool_decide_eq_true_2 _ Hl).
    rewrite bool_decide_eq_false_2 by (rewrite Hl; discriminate). cbv zeta.
    cbn [Nat.ltb Nat.leb].
    rewrite (IHi (S depth) (S (length ts + k)) (set_pos (S (pos p)) p) (front ++ [lb])
                 (rb :: ts ++ back)); [|lia| |].
    2:{ cbn. rewrite Ht'. rewrite <- !app_assoc. reflexivity. }
    2:{ cbn. rewrite Hp, length_app. cbn. lia. }
    set (p2 := set_pos _ (set_pos _ p)).
    assert (Ht2 : tokens p2 = (front ++ lb :: inner) ++ rb :: (ts ++ back)).
    { subst p2. cbn. rewrite Ht'. rewrite <- !app_assoc. reflexivity. }
    assert (Hp2 : pos p2 = length (front ++ lb :: inner)).
    { subst p2. cbn. rewrite Hp, length_app. cbn. lia. }
    pose proof (current_at p2 _ rb _ Ht2 Hp2) as Hc2.
    rewrite skipLoop_step by first [lia|rewrite Hc2, Hr; discriminate].
    rewrite Hc2, (bool_decide_eq_true_2 _ Hr).
    rewrite bool_decide_eq_false_2 by (rewrite Hr; discriminate). cbv zeta.
    replace (S depth - 1) with depth by lia.
    replace (0 <? depth)%nat with true by (symmetry; apply Nat.ltb_lt; lia).
    rewrite (IHt depth k (set_pos (S (pos p2)) p2) (front ++ lb :: inner ++ [rb]) back Hd).
    + f_equal. subst p2. rewrite !set_pos_set_pos. apply set_pos_eq. cbn.
      rewrite length_app. cbn. lia.
    + subst p2. cbn. rewrite Ht. cbn. rewrite <- !app_assoc. cbn.
      rewrite <- !app_assoc. reflexivity.
    + change (pos (set_pos (S (pos p2)) p2)) with (S (pos p2)).
      rewrite Hp2, !length_app. cbn. rewrite length_app. cbn. lia.
Qed.

End BlockFacts.

(** X10.  [skipBlock()] stops at the brace that closes the block, however the
    braces inside are nested: when the tokens from the current one on are a
    body in which every brace has its partner, then the closing brace, the
    position ends at that brace with nothing else changed, and the
    [expect('}')] that follows moves behind it. *)
Theorem skipBlock_stops_at_matching_brace
    (fuel : nat) (p : ScriptParser.t) (front body back : list Token.t) (rb : Token.t) :
  ScriptParser.tokens p = front ++ body ++ rb :: back ->
  ScriptParser.pos p = length front ->
  BlockProps.Balanced body -> Token.type rb = RBRACE ->
  ParserProps.remaining p < fuel ->
  ScriptParser.skipBlock fuel p
  = (Ok tt, ScriptParser.set_pos (length front + length body) p)
  /\ ScriptParser.bind (ScriptParser.skipBlock fuel)
       (fun _ => ScriptParser.expect RBRACE "}") p
     = (Ok tt, ScriptParser.set_pos (length front + length body + 1) p).
Proof.
  intros Ht Hp Hb Hr Hf.
  assert (Hlen : length body + 2 <= fuel).
  { unfold ParserProps.remaining in Hf. rewrite Ht, Hp, !length_app in Hf. cbn in Hf. lia. }
  assert (E : ScriptParser.skipBlock fuel p
              = (Ok tt, ScriptParser.set_pos (length front + length body) p)).
  { unfold ScriptParser.skipBlock.
    replace (S fuel) with (length body + S (S (fuel - length body - 1))) by lia.
    rewrite (BlockFacts.skipLoop_balanced body Hb 1 _ p front (rb :: back) (le_n _) Ht Hp).
    set (p2 := ScriptParser.set_pos _ p).
    assert (Hc : ScriptParser.current p2 = rb).
    { apply (BlockFacts.current_at p2 (front ++ body) rb back).
      - subst p2. cbn. rewrite Ht, <- app_assoc. reflexivity.
      - subst p2. cbn. rewrite Hp, length_app. reflexivity. }
    rewrite BlockFacts.skipLoop_step by first [lia|rewrite Hc, Hr; discriminate].
    rewrite Hc, (bool_decide_eq_true_2 _ Hr).
    rewrite bool_decide_eq_false_2 by (rewrite Hr; discriminate). cbv zeta.
    cbn. subst p2. rewrite Hp. reflexivity. }
  split; [exact E|]. rewrite ParserFacts.bind_eq, E.
  set (p2 := ScriptParser.set_pos _ p).
  assert (Hc : ScriptParser.current p2 = rb).
  { apply (BlockFacts.current_at p2 (front ++ body) rb back).
    - subst p2. cbn. rewrite Ht, <- app_assoc. reflexivity.
    - subst p2. cbn. rewrite length_app. reflexivity. }
  assert (Ex : ScriptParser.expect RBRACE "}" p2
               = (Ok tt, ScriptParser.set_pos (S (ScriptParser.pos p2)) p2)).
  { unfold ScriptParser.expect, ScriptParser.check, ScriptParser.advance,
      ScriptParser.isAtEnd.
    rewrite Hc, Hr. reflexivity. }
  rewrite Ex. subst p2. rewrite BlockFacts.set_pos_set_pos. f_equal.
  apply BlockFacts.set_pos_eq. cbn. lia.
Qed.

Lemma skipBlock_stops_at_matching_brace_witness :
  let p := ScriptParser.set_pos 1 (ready congested "{if(rate>0){}rate=0;}rate=1;") in
  let ts := ScriptParser.tokens p in
  ScriptParser.tokens p
  = take 1 ts ++ take 12 (drop 1 ts) ++ nth 13 ts (Token.make EOF Null 0) :: drop 14 ts
  /\ ScriptParser.pos p = length (take 1 ts)
  /\ ParserProps.remaining p < 30
  /\ ScriptParser.skipBlock 30 p = (Ok tt, ScriptParser.set_pos 13 p).
Proof.
  intros p ts.
  assert (H1 : ScriptParser.tokens p
               = take 1 ts ++ take 12 (drop 1 ts)
                 ++ nth 13 ts (Token.make EOF Null 0) :: drop 14 ts)
    by (vm_compute; reflexivity).
  assert (H2 : ScriptParser.pos p = length (take 1 ts)) by reflexivity.
  assert (H3 : BlockProps.Balanced (take 12 (drop 1 ts))).
  { vm_compute.
    do 6 (apply BlockProps.Balanced_token; [discriminate..|]).
    eapply BlockProps.Balanced_block with (inner := []);
      [reflexivity|reflexivity|apply BlockProps.Balanced_nil|].
    do 4 (apply BlockProps.Balanced_token; [discriminate..|]).
    apply BlockProps.Balanced_nil. }
  assert (H4 : Token.type (nth 13 ts (Token.make EOF Null 0)) = RBRACE) by reflexivity.
  assert (H5 : ParserProps.remaining p < 30) by (apply Nat.ltb_lt; vm_compute; reflexivity).
  split; [exact H1|]. split; [exact H2|]. split; [exact H5|].
  exact (proj1 (skipBlock_stops_at_matching_brace 30 p _ _ _ _ H1 H2 H3 H4 H5)).
Defined.

(** ** The tokens and their lines *)

Module LexerFacts.

Import Tokenizer TokenizerProps TokenProps.

Lemma newlines_app a b : newlines (a ++ b) = newlines a + newlines b.
Proof. unfold newlines. rewrite filter_app, length_app. reflexivity. Qed.

Lemma newlines_none cs : Forall (fun c => c <> "010"%char) cs -> newlines cs = 0.
Proof.
  unfold newlines. induction 1 as [|c cs Hc _ IH]; [reflexivity|].
  rewrite filter_cons_False by exact Hc. exact IH.
Qed.

Lemma take_takeWhile f cs : take (length (Text.takeWhile f cs)) cs = Text.takeWhile f cs.
Proof.
  induction cs as [|c cs IH]; [reflexivity|]. cbn.
  destruct (f c); [cbn; rewrite IH; reflexivity|reflexivity].
Qed.

Lemma takeWhile_Forall f cs : Forall (fun c => f c = true) (Text.takeWhile f cs).
Proof.
  induction cs as [|c cs IH]; cbn; [constructor|].
  destruct (f c) eqn:E; constructor; assumption.
Qed.

Lemma takeWhile_forallb f cs : forallb f (Text.takeWhile f cs) = true.
Proof.
  induction cs as [|c cs IH]; cbn; [reflexivity|].
  destruct (f c) eqn:E; [cbn; rewrite E; exact IH|reflexivity].
Qed.

Lemma substring_rest tk n :
  Text.substring (pos tk) (pos tk + n) (source tk) = take n (rest tk).
Proof. unfold Text.substring, rest. f_equal. lia. Qed.

Lemma take_rest tk n :
  take (pos tk + n) (source tk) = take (pos tk) (source tk) ++ take n (rest tk).
Proof. unfold rest. rewrite take_take_drop. reflexivity. Qed.

Lemma ascending_snoc ts tok :
  ascending ts -> Forall (fun a => Token.line a <= Token.line tok) ts ->
  ascending (ts ++ [tok]).
Proof.
  intros Ha Hts i j a b Hij Hi Hj.
  destruct (decide (j < length ts)) as [Hlt|Hge].
  - rewrite lookup_app_l in Hi, Hj by lia. exact (Ha i j a b Hij Hi Hj).
  - assert (j = length ts) as ->.
    { apply lookup_lt_Some in Hj. rewrite length_app in Hj. cbn in Hj. lia. }
    rewrite lookup_app_r, Nat.sub_diag in Hj by lia. simplify_eq/=.
    destruct (decide (i < length ts)) as [Hlt|Hge'].
    + rewrite lookup_app_l in Hi by lia. rewrite Forall_forall in Hts.
      apply Hts. eapply list_elem_of_lookup_2. exact Hi.
    + assert (i = length ts) as -> by lia.
      rewrite lookup_app_r, Nat.sub_diag in Hi by lia. simplify_eq/=. lia.
Qed.

(** *** The rounds keep the tokenizer sound *)

Lemma Reads_Sound tk tk' : Sound tk -> Reads tk tk' -> Sound tk'.
Proof.
  intros (Hl & Hts & Ha) (Hs & Hline & (n & Hp & Hn) & Htok).
  assert (Hl' : line tk' = 1 + newlines (take (pos tk') (source tk'))).
  { rewrite Hline, Hs, Hp, take_rest, newlines_app, Hn. lia. }
  split; [exact Hl'|]. rewrite Hline.
  destruct Htok as [->|(tok & -> & H1 & H2 & H3)]; [split; assumption|].
  split.
  - apply Forall_app. split; [exact Hts|]. constructor; [|constructor].
    split; [exact H2|]. split; [exact H3|]. rewrite H1. lia.
  - apply ascending_snoc; [exact Ha|].
    eapply Forall_impl; [exact Hts|]. cbn. intros a (_ & _ & H). rewrite H1. lia.
Qed.

Lemma skipWhitespace_from_Sound cs : forall tk,
  rest tk = cs -> Sound tk -> Sound (skipWhitespace_from cs tk).
Proof.
  induction cs as [|c cs IH]; intros tk Hr Hs; [exact Hs|]. cbn [skipWhitespace_from].
  assert (Hc : source tk !! pos tk = Some c).
  { unfold rest in Hr. rewrite <- (Nat.add_0_r (pos tk)), <- lookup_drop, Hr. reflexivity. }
  assert (Hr' : drop (S (pos tk)) (source tk) = cs).
  { unfold rest in Hr. erewrite drop_S in Hr by exact Hc. congruence. }
  assert (Ht : take (S (pos tk)) (source tk) = take (pos tk) (source tk) ++ [c]).
  { erewrite take_S_r by exact Hc. reflexivity. }
  destruct Hs as (Hl & Hts & Ha).
  destruct (_ || _) eqn:Hw.
  - apply IH; [exact Hr'|]. split; [|split; assumption]. cbn [line pos source].
    rewrite Ht, newlines_app, Hl.
    assert (newlines [c] = 0); [|lia].
    apply newlines_none. constructor; [|constructor]. intros ->. discriminate.
  - destruct (Ascii.eqb c "010") eqn:Hn; [|split; [exact Hl|split; assumption]].
    apply Ascii.eqb_eq in Hn. subst c.
    apply IH; [exact Hr'|]. split; [|split].
    + cbn [line pos source]. rewrite Ht, newlines_app, Hl.
      change (newlines ["010"%char]) with 1. lia.
    + cbn [line tokens]. eapply Forall_impl; [exact Hts|]. cbn beta.
      intros a (H1 & H2 & H3).
      split; [exact H1|]. split; [exact H2|]. lia.
    + exact Ha.
Qed.

(** After the white space the current character is no white space. *)
Lemma skipWhitespace_from_stops cs : forall tk c,
  rest tk = cs ->
  source (skipWhitespace_from cs tk) !! pos (skipWhitespace_from cs tk) = Some c ->
  c <> " "%char /\ c <> "009"%char /\ c <> "013"%char /\ c <> "010"%char.
Proof.
  induction cs as [|c0 cs IH]; intros tk c Hr; cbn [skipWhitespace_from].
  { intros Hc. unfold rest in Hr.
    apply (f_equal length) in Hr. rewrite length_drop in Hr. cbn in Hr.
    apply lookup_lt_Some in Hc. lia. }
  assert (Hc0 : source tk !! pos tk = Some c0).
  { unfold rest in Hr. rewrite <- (Nat.add_0_r (pos tk)), <- lookup_drop, Hr. reflexivity. }
  assert (Hr' : drop (S (pos tk)) (source tk) = cs).
  { unfold rest in Hr. erewrite drop_S in Hr by exact Hc0. congruence. }
  destruct (_ || _) eqn:Hw; [apply IH; exact Hr'|].
  destruct (Ascii.eqb c0 "010") eqn:Hn; [apply IH; exact Hr'|].
  rewrite Hc0. intros H. injection H as <-.
  apply orb_false_iff in Hw as [Hw H3]. apply orb_false_iff in Hw as [H1 H2].
  apply Ascii.eqb_neq in H1, H2, H3, Hn. repeat split; assumption.
Qed.

(** *** What a round reads *)

Lemma operators_one_line :
  Forall (fun op => newlines (list_ascii_of_string op) = 0 /\ 1 <= String.length op)
    OPERATORS.
Proof. repeat constructor. Qed.

Lemma tryReadOperator_in_spec ops tk tk' :
  tryReadOperator_in ops tk = Some tk' ->
  exists op, op ∈ ops
    /\ take (String.length op) (rest tk) = list_ascii_of_string op
    /\ tk' = make (source tk) (pos tk + String.length op) (line tk)
               (push OPERATOR (Str op) tk).
Proof.
  induction ops as [|op ops IH]; cbn [tryReadOperator_in]; [discriminate|].
  destruct (String.eqb _ op) eqn:E.
  - intros H. injection H as <-. exists op. split; [left|]. split; [|reflexivity].
    apply String.eqb_eq in E. rewrite substring_rest in E.
    rewrite <- E at 2. rewrite list_ascii_of_string_of_list_ascii. reflexivity.
  - intros H. destruct (IH H) as (op' & Hin & Hop). exists op'. split; [right; exact Hin|].
    exact Hop.
Qed.

Lemma tryReadOperator_in_none ops tk :
  tryReadOperator_in ops tk = None ->
  forall op, op ∈ ops -> take (String.length op) (rest tk) <> list_ascii_of_string op.
Proof.
  induction ops as [|op0 ops IH]; cbn [tryReadOperator_in];
    [intros _ op H; apply elem_of_nil in H; destruct H|].
  destruct (String.eqb _ op0) eqn:E; [discriminate|].
  intros H op Hin. apply elem_of_cons in Hin as [->|Hin]; [|apply IH; assumption].
  apply String.eqb_neq in E. rewrite substring_rest in E. intros Heq. apply E.
  rewrite Heq. apply string_of_list_ascii_of_string.
Qed.

Lemma trim_hash cs : exists cs', Text.trim ("#"%char :: cs) = "#"%char :: cs'.
Proof.
  unfold Text.trim. cbn [Text.dropWhile].
  change (Text.isSpace "#") with false. cbv iota. cbn [rev].
  assert (H : forall l, exists l', Text.dropWhile Text.isSpace (l ++ ["#"%char])
                                   = l' ++ ["#"%char]).
  { induction l as [|c l [l' IH]]; [exists []; reflexivity|]. cbn.
    destruct (Text.isSpace c); [exists l'; exact IH|exists (c :: l); reflexivity]. }
  destruct (H (rev cs)) as [l' ->]. rewrite rev_app_distr. cbn. eexists. reflexivity.
Qed.

Lemma numberLength_one_line cs : forall hasDot,
  newlines (take (numberLength cs hasDot) cs) = 0.
Proof.
  induction cs as [|c cs IH]; intros hasDot; [reflexivity|]. cbn [numberLength].
  destruct (Text.isDigit c) eqn:Hd.
  - cbn [take]. change (c :: ?l) with ([c] ++ l). rewrite newlines_app, IH.
    rewrite newlines_none; [reflexivity|]. constructor; [|constructor].
    intros ->. discriminate.
  - destruct (Ascii.eqb c "." && negb hasDot) eqn:E; [|reflexivity].
    apply andb_true_iff in E as [E _]. apply Ascii.eqb_eq in E. subst c.
    cbn [take]. change ("."%char :: ?l) with (["."%char] ++ l). rewrite newlines_app, IH.
    reflexivity.
Qed.

Lemma alphaNumeric_one_line c : Text.isAlphaNumeric c = true -> c <> "010"%char.
Proof. intros H ->. discriminate. Qed.

Lemma lineLength_one_line cs : newlines (take (lineLength cs) cs) = 0.
Proof.
  unfold lineLength. rewrite take_takeWhile. apply newlines_none.
  eapply Forall_impl; [apply takeWhile_Forall|]. cbn. intros c H ->. discriminate.
Qed.

Lemma readName_spec tk char cs :
  rest tk = char :: cs -> (Text.isAlpha char || Ascii.eqb char "_") = true ->
  Reads tk (readName tk).
Proof.
  intros Hr Hname. unfold readName. cbv zeta.
  split; [reflexivity|]. split; [reflexivity|]. split.
  { eexists. split; [reflexivity|]. cbn. rewrite take_takeWhile. apply newlines_none.
    eapply Forall_impl; [apply takeWhile_Forall|]. exact alphaNumeric_one_line. }
  right. eexists. split; [reflexivity|]. split; [reflexivity|].
  split; [|cbn [Token.type]; case_bool_decide; discriminate].
  rewrite substring_rest, take_takeWhile.
  set (name := string_of_list_ascii _).
  assert (Hid : identifier name = true).
  { unfold identifier. subst name. rewrite list_ascii_of_string_of_list_ascii, Hr. cbn.
    assert (Ha : Text.isAlphaNumeric char = true).
    { unfold Text.isAlphaNumeric. destruct (Text.isAlpha char); [reflexivity|].
      cbn in Hname. rewrite Hname. apply orb_true_r. }
    rewrite Ha, Hname. cbn. apply takeWhile_forallb. }
  unfold wellFormed. cbn [Token.type Token.value].
  case_bool_decide as Hk.
  - cbn [Token.type Token.value].
    assert (Hv : (String.eqb (Text.toLowerCase name) "if"
                  || String.eqb (Text.toLowerCase name) "else") = true).
    { unfold KEYWORDS in Hk. apply elem_of_cons in Hk as [->|Hk]; [reflexivity|].
      apply elem_of_cons in Hk as [->|Hk]; [reflexivity|]. apply elem_of_nil in Hk.
      destruct Hk. }
    rewrite Hv. apply bool_decide_eq_true_2. exact Hk.
  - cbn [Token.type Token.value].
    assert (Hv : (String.eqb (Text.toLowerCase name) "if"
                  || String.eqb (Text.toLowerCase name) "else") = false).
    { apply orb_false_iff. split; apply String.eqb_neq; intros Heq; apply Hk;
        rewrite Heq; unfold KEYWORDS; [left|right; left]. }
    rewrite Hv, Hid. cbn. rewrite bool_decide_eq_false_2 by exact Hk. reflexivity.
Qed.

Lemma readPreprocessor_spec tk cs :
  rest tk = "#"%char :: cs -> Reads tk (readPreprocessor tk).
Proof.
  intros Hr. unfold readPreprocessor. cbv zeta.
  split; [reflexivity|]. split; [reflexivity|]. split.
  { eexists. split; [reflexivity|]. apply lineLength_one_line. }
  right. eexists. split; [reflexivity|]. split; [reflexivity|]. split; [|discriminate].
  rewrite substring_rest. unfold lineLength. rewrite take_takeWhile, Hr.
  cbn [Text.takeWhile]. change (negb (Ascii.eqb "#" "010")) with true. cbv iota.
  destruct (trim_hash (Text.takeWhile (fun c => negb (Ascii.eqb c "010")) cs)) as [cs' ->].
  reflexivity.
Qed.

Lemma punctuation_spec char type value :
  punctuation char = Some (type, value) ->
  char <> "010"%char
  /\ wellFormed (Token.make type (Str value) 0) = true /\ type <> EOF.
Proof.
  unfold punctuation.
  repeat match goal with
         | |- context [Ascii.eqb char ?c] =>
             destruct (Ascii.eqb char c) eqn:?;
             [ match goal with H : Ascii.eqb char c = true |- _ =>
                 apply Ascii.eqb_eq in H; subst char end;
               intros H; injection H as <- <-;
               split; [discriminate|split; [reflexivity|discriminate]] | ]
         end.
  discriminate.
Qed.

Lemma scan_spec char tk tk' :
  source tk !! pos tk = Some char -> scan char tk = inr tk' -> Reads tk tk'.
Proof.
  intros Hc. destruct (TokenizerFacts.rest_cons tk char Hc) as [cs Hr]. unfold scan.
  destruct (Ascii.eqb char "#") eqn:Hhash.
  { apply Ascii.eqb_eq in Hhash. subst char.
    destruct (_ || _); cbn [andb]; intros H; injection H as <-.
    - eapply readPreprocessor_spec. exact Hr.
    - split; [reflexivity|]. split; [reflexivity|]. split; [|left; reflexivity].
      eexists. split; [reflexivity|]. apply lineLength_one_line. }
  cbn [andb].
  destruct (_ || _) eqn:Hnum.
  { intros H; injection H as <-. unfold readNumber. cbv zeta.
    split; [reflexivity|]. split; [reflexivity|]. split.
    - eexists. split; [reflexivity|]. apply numberLength_one_line.
    - right. eexists. split; [reflexivity|]. split; [reflexivity|].
      split; [reflexivity|discriminate]. }
  destruct (Text.isAlpha char || _) eqn:Hname.
  { intros H; injection H as <-. eapply readName_spec; eassumption. }
  destruct (tryReadOperator tk) as [tk1|] eqn:Hop.
  { intros H; injection H as <-.
    apply tryReadOperator_in_spec in Hop as (op & Hin & Htake & ->).
    pose proof operators_one_line as Hall. rewrite Forall_forall in Hall.
    destruct (Hall op Hin) as [Hn _].
    split; [reflexivity|]. split; [reflexivity|]. split.
    - eexists. split; [reflexivity|]. rewrite Htake. exact Hn.
    - right. eexists. split; [reflexivity|]. split; [reflexivity|].
      split; [|discriminate]. unfold wellFormed. cbn.
      apply bool_decide_eq_true_2. exact Hin. }
  destruct (punctuation char) as [[ty v]|] eqn:Hpun; [|discriminate].
  intros H; injection H as <-.
  destruct (punctuation_spec char ty v Hpun) as (Hnl & Hwf & Hty).
  split; [reflexivity|]. split; [reflexivity|]. split.
  - exists 1. split; [cbn; lia|]. rewrite Hr. cbn [take]. apply newlines_none.
    constructor; [exact Hnl|constructor].
  - right. eexists. split; [reflexivity|]. split; [reflexivity|].
    split; [|exact Hty]. unfold wellFormed in *. cbn [Token.type Token.value] in *.
    exact Hwf.
Qed.

Lemma tokenize_loop_Sound fuel : forall tk tk',
  Sound tk -> tokenize_loop fuel tk = inr tk' -> Sound tk'.
Proof.
  induction fuel as [|fuel IH]; intros tk tk' Hs; cbn [tokenize_loop];
    [intros H; injection H as <-; exact Hs|].
  case_bool_decide as Hpos; [|intros H; injection H as <-; exact Hs].
  pose proof (skipWhitespace_from_Sound (rest tk) tk eq_refl Hs) as Hs1.
  fold (skipWhitespaceAndComments tk) in Hs1.
  destruct (source (skipWhitespaceAndComments tk) !! pos (skipWhitespaceAndComments tk))
    as [char|] eqn:Hc; [|intros H; injection H as <-; exact Hs1].
  destruct (scan char (skipWhitespaceAndComments tk)) as [e|tk1] eqn:Hscan; [discriminate|].
  apply IH. eapply Reads_Sound; [exact Hs1|]. eapply scan_spec; eassumption.
Qed.

Lemma create_Sound source : Sound (create source).
Proof.
  split; [reflexivity|]. split; [constructor|].
  intros i j a b _ Hi. cbn in Hi. discriminate.
Qed.

End LexerFacts.

Module LexicalErrorFacts.

Import Tokenizer TokenizerProps TokenProps.

(** The only error of a round: a character with which nothing starts. *)
Lemma scan_error char tk e :
  source tk !! pos tk = Some char ->
  (char <> " " /\ char <> "009" /\ char <> "013" /\ char <> "010")%char ->
  scan char tk = inl e ->
  e = UnexpectedCharacter char (line tk) /\ accepted char = false.
Proof.
  intros Hc (Hw1 & Hw2 & Hw3 & Hw4).
  destruct (TokenizerFacts.rest_cons tk char Hc) as [cs Hr]. unfold scan.
  destruct (Ascii.eqb char "#") eqn:Hhash; [destruct (_ || _); discriminate|].
  cbn [andb].
  destruct (Text.isDigit char || _) eqn:Hnum; [discriminate|].
  destruct (Text.isAlpha char || _) eqn:Hname; [discriminate|].
  destruct (tryReadOperator tk) as [tk1|] eqn:Hop; [discriminate|].
  destruct (punctuation char) as [[ty v]|] eqn:Hpun; [discriminate|].
  intros H. injection H as <-. split; [reflexivity|].
  apply orb_false_iff in Hnum as [Hdigit _]. apply orb_false_iff in Hname as [Halpha Hunder].
  unfold accepted, Text.isAlphaNumeric. rewrite Halpha, Hdigit, Hunder. cbn [orb].
  apply bool_decide_eq_false_2. intros Hin.
  pose proof (tryReadOperator_in_none := LexerFacts.tryReadOperator_in_none OPERATORS tk Hop).
  assert (Hsingle : forall c, String c EmptyString ∈ OPERATORS -> char <> c).
  { intros c Hc' ->. apply (tryReadOperator_in_none _ Hc'). rewrite Hr. reflexivity. }
  apply Ascii.eqb_neq in Hhash.
  repeat (apply elem_of_cons in Hin as [->|Hin];
          [first [ contradiction
                 | discriminate Hpun
                 | eapply Hsingle; [|reflexivity]; unfold OPERATORS;
                   repeat first [left; reflexivity|right] ]|]).
  apply elem_of_nil in Hin. exact Hin.
Qed.

Lemma tokenize_loop_error fuel : forall tk e,
  Sound tk -> tokenize_loop fuel tk = inl e ->
  exists c i, e = UnexpectedCharacter c (1 + newlines (take i (source tk)))
    /\ source tk !! i = Some c /\ accepted c = false.
Proof.
  induction fuel as [|fuel IH]; intros tk e Hs; cbn [tokenize_loop]; [discriminate|].
  case_bool_decide as Hpos; [|discriminate].
  pose proof (LexerFacts.skipWhitespace_from_Sound (rest tk) tk eq_refl Hs) as Hs1.
  destruct (TokenizerFacts.skipWhitespace_from_forward (rest tk) tk) as [Hsrc _].
  pose proof (LexerFacts.skipWhitespace_from_stops (rest tk) tk) as Hstop.
  fold (skipWhitespaceAndComments tk) in Hs1, Hsrc, Hstop.
  destruct (source (skipWhitespaceAndComments tk) !! pos (skipWhitespaceAndComments tk))
    as [char|] eqn:Hc; [|discriminate].
  specialize (Hstop char eq_refl eq_refl).
  destruct (scan char (skipWhitespaceAndComments tk)) as [e'|tk1] eqn:Hscan.
  - intros H. injection H as ->.
    destruct (scan_error char _ e Hc Hstop Hscan) as [-> Ha].
    exists char, (pos (skipWhitespaceAndComments tk)).
    destruct Hs1 as (Hl & _). rewrite Hl, Hsrc. rewrite Hsrc in Hc.
    split; [reflexivity|]. split; [exact Hc|exact Ha].
  - intros H.
    pose proof (LexerFacts.scan_spec char _ tk1 Hc Hscan) as Hr.
    pose proof (LexerFacts.Reads_Sound _ _ Hs1 Hr) as Hs2.
    destruct Hr as (Hsrc1 & _).
    destruct (IH tk1 e Hs2 H) as (c & i & He & Hi & Ha).
    rewrite Hsrc1, Hsrc in He, Hi. exists c, i. split; [exact He|]. split; assumption.
Qed.

End LexicalErrorFacts.

(** X11.  Every token that [tokenize()] returns carries the value of its
    type: a number for [NUMBER], one of the operators for [OPERATOR], [if] or
    [else] in lower case for [KEYWORD], a name that is no keyword in any
    letter case for [NAME], its character for a punctuation token, a text
    that starts with [#] for a directive; and the only [EOF] token is the
    last one, with the value [null]. *)
Theorem tokens_are_well_formed (source : string) (ts : list Token.t) :
  Tokenizer.tokenize (Tokenizer.create source) = inr ts ->
  Forall (fun tok => TokenProps.wellFormed tok = true) ts
  /\ exists ts' eof,
       ts = ts' ++ [eof] /\ Token.type eof = EOF /\ Token.value eof = Null
       /\ Forall (fun tok => Token.type tok <> EOF) ts'.
Proof.
  unfold Tokenizer.tokenize.
  destruct (Tokenizer.tokenize_loop _ _) as [e|tk] eqn:E; [discriminate|].
  intros H. injection H as <-.
  apply LexerFacts.tokenize_loop_Sound in E as (_ & Hts & _);
    [|apply LexerFacts.create_Sound].
  unfold Tokenizer.push. split.
  - apply Forall_app. split; [|repeat constructor].
    eapply Forall_impl; [exact Hts|]. cbn. intros tok (H & _). exact H.
  - eexists _, _. split; [reflexivity|]. split; [reflexivity|]. split; [reflexivity|].
    eapply Forall_impl; [exact Hts|]. cbn. intros tok (_ & H & _). exact H.
Qed.

Lemma tokens_are_well_formed_witness :
  Tokenizer.tokenize (Tokenizer.create "IF(x1<=2){}")
  = inr [Token.make KEYWORD (Str "if") 1; Token.make LPAREN (Str "(") 1;
         Token.make NAME (Str "x1") 1; Token.make OPERATOR (Str "<=") 1;
         Token.make NUMBER (Num 2) 1; Token.make RPAREN (Str ")") 1;
         Token.make LBRACE (Str "{") 1; Token.make RBRACE (Str "}") 1;
         Token.make EOF Null 1]
  /\ Forall (fun tok => TokenProps.wellFormed tok = true)
       [Token.make KEYWORD (Str "if") 1; Token.make LPAREN (Str "(") 1;
        Token.make NAME (Str "x1") 1; Token.make OPERATOR (Str "<=") 1;
        Token.make NUMBER (Num 2) 1; Token.make RPAREN (Str ")") 1;
        Token.make LBRACE (Str "{") 1; Token.make RBRACE (Str "}") 1;
        Token.make EOF Null 1].
Proof.
  assert (H : Tokenizer.tokenize (Tokenizer.create "IF(x1<=2){}")
              = inr [Token.make KEYWORD (Str "if") 1; Token.make LPAREN (Str "(") 1;
                     Token.make NAME (Str "x1") 1; Token.make OPERATOR (Str "<=") 1;
                     Token.make NUMBER (Num 2) 1; Token.make RPAREN (Str ")") 1;
                     Token.make LBRACE (Str "{") 1; Token.make RBRACE (Str "}") 1;
                     Token.make EOF Null 1]) by (vm_compute; reflexivity).
  split; [exact H|].
  exact (proj1 (tokens_are_well_formed "IF(x1<=2){}" _ H)).
Defined.

(** X12.  The line of a token is a line of the source: the lines of the
    tokens never go down, they lie between 1 and the number of lines, and
    the line of the final [EOF] token is one more than the number of line
    feeds in the source. *)
Theorem token_lines_follow_the_source (source : string) (ts : list Token.t) :
  Tokenizer.tokenize (Tokenizer.create source) = inr ts ->
  TokenProps.ascending ts
  /\ Forall (fun tok => 1 <= Token.line tok
                        <= 1 + TokenProps.newlines (list_ascii_of_string source)) ts
  /\ exists ts',
       ts = ts' ++ [Token.make EOF Null
                      (1 + TokenProps.newlines (list_ascii_of_string source))].
Proof.
  unfold Tokenizer.tokenize.
  destruct (Tokenizer.tokenize_loop _ _) as [e|tk] eqn:E; [discriminate|].
  intros H. injection H as <-.
  assert (Hfuel : length (Tokenizer.source (Tokenizer.create source))
                  - Tokenizer.pos (Tokenizer.create source)
                  < S (length (Tokenizer.source (Tokenizer.create source)))) by lia.
  pose proof (TokenizerFacts.tokenize_loop_complete _ _ _ Hfuel E) as [Hsrc Hend].
  apply LexerFacts.tokenize_loop_Sound in E as (Hl & Hts & Ha);
    [|apply LexerFacts.create_Sound].
  rewrite take_ge in Hl by exact Hend. rewrite Hsrc in Hl.
  change (Tokenizer.source (Tokenizer.create source))
    with (list_ascii_of_string source) in Hl.
  unfold Tokenizer.push. rewrite Hl in Hts |- *. split; [|split].
  - apply LexerFacts.ascending_snoc; [exact Ha|].
    eapply Forall_impl; [exact Hts|]. cbn beta. intros tok (_ & _ & H).
    cbn [Token.line]. lia.
  - apply Forall_app. split; [|constructor; [cbn [Token.line]; lia|constructor]].
    eapply Forall_impl; [exact Hts|]. cbn beta. intros tok (_ & _ & H). lia.
  - eexists. reflexivity.
Qed.

Lemma token_lines_follow_the_source_witness :
  Tokenizer.tokenize (Tokenizer.create ("a=1;" ++ newline ++ newline ++ "b=a;"))
  = inr [Token.make NAME (Str "a") 1; Token.make ASSIGN (Str "=") 1;
         Token.make NUMBER (Num 1) 1; Token.make SEMICOLON (Str ";") 1;
         Token.make NAME (Str "b") 3; Token.make ASSIGN (Str "=") 3;
         Token.make NAME (Str "a") 3; Token.make SEMICOLON (Str ";") 3;
         Token.make EOF Null 3]
  /\ TokenProps.ascending
       [Token.make NAME (Str "a") 1; Token.make ASSIGN (Str "=") 1;
        Token.make NUMBER (Num 1) 1; Token.make SEMICOLON (Str ";") 1;
        Token.make NAME (Str "b") 3; Token.make ASSIGN (Str "=") 3;
        Token.make NAME (Str "a") 3; Token.make SEMICOLON (Str ";") 3;
        Token.make EOF Null 3].
Proof.
  assert (H : Tokenizer.tokenize (Tokenizer.create ("a=1;" ++ newline ++ newline ++ "b=a;"))
              = inr [Token.make NAME (Str "a") 1; Token.make ASSIGN (Str "=") 1;
                     Token.make NUMBER (Num 1) 1; Token.make SEMICOLON (Str ";") 1;
                     Token.make NAME (Str "b") 3; Token.make ASSIGN (Str "=") 3;
                     Token.make NAME (Str "a") 3; Token.make SEMICOLON (Str ";") 3;
                     Token.make EOF Null 3]) by (vm_compute; reflexivity).
  split; [exact H|].
  exact (proj1 (token_lines_follow_the_source _ _ H)).
Defined.

(** X13.  The only error of [tokenize()] is 'Unexpected character': it names
    a character of the source and the line of that character, and the
    character is none of the letters, digits, underscores, blanks, tabs, line
    ends and [# ( ) { } ; , = + - * / % < >].  A source made of these
    characters only is always tokenized. *)
Theorem lexical_error_names_foreign_character (source : string) :
  (forall e, Tokenizer.tokenize (Tokenizer.create source) = inl e ->
     exists c i,
       e = UnexpectedCharacter c
             (1 + TokenProps.newlines (take i (list_ascii_of_string source)))
       /\ list_ascii_of_string source !! i = Some c
       /\ TokenProps.accepted c = false)
  /\ (Forall (fun c => TokenProps.accepted c = true) (list_ascii_of_string source) ->
      exists ts, Tokenizer.tokenize (Tokenizer.create source) = inr ts).
Proof.
  assert (H : forall e, Tokenizer.tokenize (Tokenizer.create source) = inl e ->
     exists c i,
       e = UnexpectedCharacter c
             (1 + TokenProps.newlines (take i (list_ascii_of_string source)))
       /\ list_ascii_of_string source !! i = Some c
       /\ TokenProps.accepted c = false).
  { intros e. unfold Tokenizer.tokenize.
    destruct (Tokenizer.tokenize_loop _ _) as [e'|tk] eqn:E; [|discriminate].
    intros He. injection He as ->.
    apply (LexicalErrorFacts.tokenize_loop_error _ _ _ (LexerFacts.create_Sound source) E). }
  split; [exact H|]. intros Hall.
  destruct (Tokenizer.tokenize (Tokenizer.create source)) as [e|ts] eqn:E;
    [|exists ts; reflexivity].
  destruct (H e eq_refl) as (c & i & _ & Hi & Ha). rewrite Forall_forall in Hall.
  rewrite Hall in Ha; [discriminate|]. eapply list_elem_of_lookup_2. exact Hi.
Qed.

(** A character that starts nothing, on the second line. *)
Example unexpected_character_line :
  Tokenizer.tokenize (Tokenizer.create ("rate = 1;" ++ newline ++ "rate = rate ? 2;"))
  = inl (UnexpectedCharacter "?" 2)
  /\ Tokenizer.tokenize (Tokenizer.create "x = 1 & 2;") = inl (UnexpectedCharacter "&" 1)
  /\ Tokenizer.tokenize (Tokenizer.create "x = 1.;") = inr
       [Token.make NAME (Str "x") 1; Token.make ASSIGN (Str "=") 1;
        Token.make NUMBER (Num 1) 1; Token.make SEMICOLON (Str ";") 1;
        Token.make EOF Null 1].
Proof. repeat split; vm_compute; reflexivity. Qed.

(** ** The clamp of a rate *)

Module ClampFacts.

Lemma eqb_refl (x : float) : PrimFloat.is_nan x = false -> PrimFloat.eqb x x = true.
Proof.
  unfold PrimFloat.is_nan. rewrite !FloatAxioms.eqb_spec. unfold SFeqb.
  destruct (Prim2SF x) as [s|s| |s m e] eqn:E; cbn; try reflexivity; try discriminate;
    try (destruct s; reflexivity).
  intros _. rewrite Z.compare_refl, Pos.compare_cont_refl. destruct s; reflexivity.
Qed.

Lemma leb_not_ltb_eqb (x y : float) :
  PrimFloat.leb x y = true -> PrimFloat.ltb x y = false -> PrimFloat.eqb x y = true.
Proof.
  rewrite FloatAxioms.leb_spec, FloatAxioms.ltb_spec, FloatAxioms.eqb_spec.
  unfold SFleb, SFltb, SFeqb. destruct (SFcompare _ _) as [[]|]; congruence.
Qed.

Lemma leb_not_nan (x y : float) :
  PrimFloat.leb x y = true -> PrimFloat.is_nan x = false /\ PrimFloat.is_nan y = false.
Proof.
  unfold PrimFloat.is_nan. rewrite FloatAxioms.leb_spec, !FloatAxioms.eqb_spec.
  unfold SFleb, SFeqb.
  destruct (Prim2SF x) as [sx|sx| |sx mx ex], (Prim2SF y) as [sy|sy| |sy my ey];
    cbn; try discriminate; intros _; split; try reflexivity;
    try (destruct sx; reflexivity); try (destruct sy; reflexivity);
    rewrite ?Z.compare_refl, ?Pos.compare_cont_refl;
    try (destruct sx; reflexivity); try (destruct sy; reflexivity).
Qed.

Lemma ltb_leb_false (x y : float) :
  PrimFloat.leb x y = true -> PrimFloat.ltb y x = false.
Proof.
  rewrite FloatAxioms.leb_spec, FloatAxioms.ltb_spec. unfold SFleb, SFltb.
  rewrite (SFcompare_antisym (Prim2SF x) (Prim2SF y)).
  destruct (SFcompare _ _) as [[]|]; cbn; congruence.
Qed.

(** The three values that the clamp can take. *)
Lemma clamp_cases (x : float) :
  (PrimFloat.is_nan x = true /\ Sender.clamp x = nan)
  \/ (PrimFloat.is_nan x = false
      /\ (Sender.clamp x = 1%float \/ Sender.clamp x = 0%float
          \/ (Sender.clamp x = x /\ PrimFloat.ltb 0 x = true /\ PrimFloat.ltb 1 x = false))).
Proof.
  unfold Sender.clamp, Math.min.
  replace (PrimFloat.is_nan 1) with false by reflexivity.
  replace (PrimFloat.get_sign 1) with false by reflexivity.
  destruct (PrimFloat.is_nan x) eqn:Hx; cbn [orb]; [left; split; reflexivity|].
  right. split; [reflexivity|].
  destruct (PrimFloat.ltb 1 x) eqn:H1; [left; reflexivity|].
  assert (Hm : (if PrimFloat.ltb x 1 then x else x) = x) by (destruct (PrimFloat.ltb x 1); reflexivity).
  rewrite Hm. unfold Math.max.
  replace (PrimFloat.is_nan 0) with false by reflexivity. rewrite Hx. cbn [orb].
  replace (PrimFloat.get_sign 0) with false by reflexivity.
  destruct (PrimFloat.ltb 0 x) eqn:H0; [right; right; repeat split|].
  right; left. destruct (PrimFloat.ltb x 0); reflexivity.
Qed.

Lemma clamp_idempotent (x : float) : Sender.clamp (Sender.clamp x) = Sender.clamp x.
Proof.
  destruct (clamp_cases x) as [[_ ->]|[_ [->|[->|(E & H0 & H1)]]]]; try reflexivity.
  rewrite E. unfold Sender.clamp, Math.min, Math.max.
  destruct (clamp_cases x) as [[Hn _]|[Hn _]].
  - exfalso. revert H0. unfold PrimFloat.is_nan in Hn.
    rewrite FloatAxioms.ltb_spec. rewrite FloatAxioms.eqb_spec in Hn. unfold SFltb, SFeqb in *.
    destruct (Prim2SF x) as [s|s| |s m e]; cbn in *; try discriminate;
      try (destruct s; discriminate).
    rewrite Z.compare_refl, Pos.compare_cont_refl in Hn. destruct s; discriminate.
  - replace (PrimFloat.is_nan 1) with false by reflexivity.
    replace (PrimFloat.is_nan 0) with false by reflexivity.
    rewrite Hn, H1. cbn [orb].
    assert (Hm : (if PrimFloat.ltb x 1 then x
                  else if PrimFloat.get_sign 1 then 1%float else x) = x).
    { destruct (PrimFloat.ltb x 1); reflexivity. }
    rewrite Hm, Hn, H0. reflexivity.
Qed.

Lemma clamp_of_rate (x : float) :
  Number.in_unit_interval x -> PrimFloat.eqb (Sender.clamp x) x = true.
Proof.
  intros [H0 H1]. unfold PrimFloat.zero, PrimFloat.one in H0, H1.
  destruct (leb_not_nan _ _ H0) as [_ Hn].
  pose proof (ltb_leb_false _ _ H1) as Hgt.
  unfold Sender.clamp, Math.min, Math.max.
  replace (PrimFloat.is_nan 1) with false by reflexivity.
  replace (PrimFloat.is_nan 0) with false by reflexivity.
  replace (PrimFloat.get_sign 1) with false by reflexivity.
  replace (PrimFloat.get_sign 0) with false by reflexivity.
  rewrite Hn, Hgt. cbn [orb].
  assert (Hm : (if PrimFloat.ltb x 1 then x else x) = x)
    by (destruct (PrimFloat.ltb x 1); reflexivity).
  rewrite Hm, Hn. cbn [orb].
  destruct (PrimFloat.ltb 0 x) eqn:Hpos; [apply eqb_refl; exact Hn|].
  destruct (PrimFloat.ltb x 0); apply leb_not_ltb_eqb; assumption.
Qed.

Lemma clamp_above (x : float) : PrimFloat.ltb 1 x = true -> Sender.clamp x = 1%float.
Proof.
  intros H. unfold Sender.clamp, Math.min.
  assert (Hn : PrimFloat.is_nan x = false).
  { apply ltb_leb, leb_not_nan in H. apply H. }
  replace (PrimFloat.is_nan 1) with false by reflexivity. rewrite Hn, H. reflexivity.
Qed.

Lemma clamp_below (x : float) : PrimFloat.ltb x 0 = true -> Sender.clamp x = 0%float.
Proof.
  intros H.
  assert (Hn : PrimFloat.is_nan x = false).
  { apply ltb_leb, leb_not_nan in H. apply H. }
  assert (H1 : PrimFloat.ltb 1 x = false /\ PrimFloat.ltb 0 x = false).
  { revert H. rewrite !FloatAxioms.ltb_spec. unfold SFltb.
    replace (Prim2SF 1) with (S754_finite false 4503599627370496 (-52)) by reflexivity.
    replace (Prim2SF 0) with (S754_zero false) by reflexivity.
    destruct (Prim2SF x) as [s|s| |s m e]; cbn; try discriminate;
      destruct s; try discriminate; intros _; split; reflexivity. }
  destruct H1 as [H1 H0]. unfold Sender.clamp, Math.min, Math.max.
  replace (PrimFloat.is_nan 1) with false by reflexivity.
  replace (PrimFloat.is_nan 0) with false by reflexivity.
  rewrite Hn, H1. cbn [orb].
  assert (Hm : (if PrimFloat.ltb x 1 then x
                else if PrimFloat.get_sign 1 then 1%float else x) = x).
  { destruct (PrimFloat.ltb x 1); reflexivity. }
  rewrite Hm, Hn, H0, H. reflexivity.
Qed.

End ClampFacts.

(** X14.  [setRate] keeps a rate that is within [0,1] (as a number: [-0]
    becomes [0]), replaces a value above 1 by 1 and a value below 0 by 0, and
    stores [NaN] for [NaN]; setting the rate that [getRate()] returns changes
    nothing. *)
Theorem setRate_clamps_to_nearest_bound (x : float) (s : Sender.t) :
  (Number.in_unit_interval x ->
   PrimFloat.eqb (Sender.getRate (Sender.setRate x s)) x = true)
  /\ (PrimFloat.ltb 1 x = true -> Sender.getRate (Sender.setRate x s) = 1%float)
  /\ (PrimFloat.ltb x 0 = true -> Sender.getRate (Sender.setRate x s) = 0%float)
  /\ (PrimFloat.is_nan x = true -> Sender.getRate (Sender.setRate x s) = nan)
  /\ Sender.setRate (Sender.getRate (Sender.setRate x s)) (Sender.setRate x s)
     = Sender.setRate x s.
Proof.
  unfold Sender.getRate, Sender.setRate. cbn [Sender.rate Sender.parser Sender.scriptContent].
  split; [apply ClampFacts.clamp_of_rate|]. split; [apply ClampFacts.clamp_above|].
  split; [apply ClampFacts.clamp_below|]. split.
  - intros Hn. destruct (ClampFacts.clamp_cases x) as [[_ E]|[Hn' _]]; [exact E|congruence].
  - rewrite ClampFacts.clamp_idempotent. reflexivity.
Qed.

(** The rates of a few start coordinates. *)
Example setRate_values :
  Sender.getRate (Sender.setRate 0.25 (Sender.create "")) = 0.25%float
  /\ Sender.getRate (Sender.setRate 7 (Sender.create "")) = 1%float
  /\ Sender.getRate (Sender.setRate (-3) (Sender.create "")) = 0%float
  /\ Sender.getRate (Sender.setRate neg_infinity (Sender.create "")) = 0%float.
Proof. repeat split; vm_compute; reflexivity. Qed.

(** ** The steps of a run *)

Module RunFacts.

Import SimulationEngine EngineProps RunProps.

(** A call of [calculate] keeps the rate or stores a rate within [0,1], and
    the only exception it throws is the [TypeError] after a lexical error. *)
Lemma calculate_rate `{host : Math.Host} (random : nat -> float) traffic params s :
  let r := Sender.calculate random traffic params s in
  (Sender.rate r.2 = Sender.rate s \/ Number.in_unit_interval (Sender.rate r.2))
  /\ (forall m, r.1 = Throw m -> m = CannotReadLength).
Proof.
  cbv zeta. unfold Sender.calculate.
  destruct (ScriptParser.parse random _ _) as [[[ctx|rate' errs]|] q] eqn:E; cbn [fst snd].
  - split; [left; reflexivity|]. intros m H. injection H as <-. reflexivity.
  - destruct (0 <? length errs)%nat; cbn [fst snd Sender.rate].
    + split; [left; reflexivity|discriminate].
    + split; [right|discriminate]. apply clamp_in_unit_interval.
      eapply parse_rate_not_nan. rewrite E. reflexivity.
  - split; [left; reflexivity|discriminate].
Qed.

Section Run.

Context `{host : Math.Host}.
Variable random : nat -> nat -> nat -> float.
Variable stopRequested : nat -> bool.

Lemma updateSender_data step traffic params i errors e :
  i < 2 ->
  let r := updateSender random step traffic params i errors e in
  (duration r.2 = duration e /\ rtt r.2 = rtt e /\ animationDelay r.2 = animationDelay e
   /\ isRunning r.2 = isRunning e /\ trajectory r.2 = trajectory e)
  /\ sender (1 - i) r.2 = sender (1 - i) e
  /\ (Sender.rate (sender i r.2) = Sender.rate (sender i e)
      \/ Number.in_unit_interval (Sender.rate (sender i r.2)))
  /\ (forall m, r.1 = Throw m -> m = CannotReadLength).
Proof.
  intros Hi. cbv zeta. unfold updateSender.
  destruct (due step (rttOf i e)); cbv zeta;
    [|split; [repeat split|]; split; [reflexivity|]; split; [left; reflexivity|discriminate]].
  destruct i as [|[|i]]; try lia;
    match goal with |- context [Sender.calculate ?r ?t ?ps ?s] =>
      pose proof (calculate_rate r t ps s) as [R T]; cbv zeta in R, T;
      destruct (Sender.calculate r t ps s) as [[res|m|] s'] end;
    cbn [fst snd] in *.
  all: split; [repeat split|].
  all: split; [reflexivity|].
  all: split; [exact R|].
  all: intros m' H; first [discriminate H|injection H as <-; apply T; reflexivity].
Qed.

(** What one step does to the engine. *)
Lemma runStep_data params step e :
  let r := runStep random params step e in
  (duration r.2 = duration e /\ rtt r.2 = rtt e /\ animationDelay r.2 = animationDelay e
   /\ isRunning r.2 = isRunning e)
  /\ (forall i, i < 2 ->
        Sender.rate (sender i r.2) = Sender.rate (sender i e)
        \/ Number.in_unit_interval (Sender.rate (sender i r.2)))
  /\ (forall m, r.1 = Throw m -> m = CannotReadLength)
  /\ (r.1 = Ok tt ->
      exists d, trajectory r.2 = trajectory e ++ [Step d]
        /\ SimulationEngine.step d = step
        /\ oldX d = Sender.rate (sender 0 e) /\ oldY d = Sender.rate (sender 1 e)
        /\ x d = Sender.rate (sender 0 r.2) /\ y d = Sender.rate (sender 1 r.2)
        /\ traffic d = PrimFloat.add (x d) (y d))
  /\ (r.1 <> Ok tt -> trajectory r.2 = trajectory e).
Proof.
  cbv zeta. unfold runStep. cbv zeta.
  set (traffic := PrimFloat.add _ _).
  set (e1 := set_currentStep step e).
  destruct (updateSender_data step traffic params 0 [] e1 ltac:(lia))
    as ((D1 & R1 & A1 & I1 & T1) & S1 & C1 & X1). cbn [Nat.sub] in S1.
  destruct (updateSender random step traffic params 0 [] e1) as [o1 e2].
  cbn [fst snd] in *.
  change (duration e1) with (duration e) in D1. change (rtt e1) with (rtt e) in R1.
  change (animationDelay e1) with (animationDelay e) in A1.
  change (isRunning e1) with (isRunning e) in I1.
  change (trajectory e1) with (trajectory e) in T1.
  change (sender 1 e1) with (sender 1 e) in S1.
  change (sender 0 e1) with (sender 0 e) in C1.
  assert (Huse : forall i, i < 2 ->
            Sender.rate (sender i e2) = Sender.rate (sender i e)
            \/ Number.in_unit_interval (Sender.rate (sender i e2))).
  { intros i Hi. destruct i as [|[|i]]; try lia; [exact C1|left; rewrite S1; reflexivity]. }
  destruct o1 as [errors1|m|]; cbn [fst snd].
  2:{ split; [repeat split; assumption|]. split; [exact Huse|].
      split; [intros m0 H; injection H as <-; apply (X1 m); reflexivity|].
      split; [discriminate|]. intros _. exact T1. }
  2:{ split; [repeat split; assumption|]. split; [exact Huse|]. split; [intros m0 H; discriminate H|].
      split; [discriminate|]. intros _. exact T1. }
  destruct (updateSender_data step traffic params 1 errors1 e2 ltac:(lia))
    as ((D2 & R2 & A2 & I2 & T2) & S2 & C2 & X2). cbn [Nat.sub] in S2.
  destruct (updateSender random step traffic params 1 errors1 e2) as [o2 e3].
  cbn [fst snd] in *.
  assert (Huse3 : forall i, i < 2 ->
            Sender.rate (sender i e3) = Sender.rate (sender i e)
            \/ Number.in_unit_interval (Sender.rate (sender i e3))).
  { intros i Hi. destruct i as [|[|i]]; try lia.
    - rewrite S2. exact C1.
    - destruct C2 as [C2|C2]; [left; rewrite C2, S1; reflexivity|right; exact C2]. }
  destruct o2 as [errors2|m|]; cbn [fst snd].
  2:{ split; [repeat split; congruence|]. split; [exact Huse3|].
      split; [intros m0 H; injection H as <-; apply (X2 m); reflexivity|].
      split; [discriminate|]. intros _. congruence. }
  2:{ split; [repeat split; congruence|]. split; [exact Huse3|]. split; [intros m0 H; discriminate H|].
      split; [discriminate|]. intros _. congruence. }
  set (e4 := if (0 <? length errors2)%nat then emit (OnError errors2) e3 else e3).
  assert (H4 : duration e4 = duration e3 /\ rtt e4 = rtt e3 /\ isRunning e4 = isRunning e3
               /\ animationDelay e4 = animationDelay e3
               /\ trajectory e4 = trajectory e3 /\ senders e4 = senders e3).
  { subst e4. destruct (0 <? length errors2)%nat; repeat split. }
  destruct H4 as (D4 & R4 & I4 & A4 & T4 & S4).
  assert (Hs4 : forall i, sender i e4 = sender i e3).
  { intros i. unfold sender. rewrite S4. reflexivity. }
  cbn [fst snd duration rtt isRunning animationDelay trajectory emit set_trajectory].
  split; [repeat split; congruence|]. split.
  { intros i Hi. specialize (Huse3 i Hi). rewrite <- (Hs4 i) in Huse3. exact Huse3. }
  split; [intros m0 H; discriminate H|]. split; [|intros H; exfalso; apply H; reflexivity].
  intros _. eexists. split; [rewrite T4, T2, T1; reflexivity|].
  cbn [SimulationEngine.step oldX oldY x y SimulationEngine.traffic].
  repeat split.
Qed.

Lemma steps_stopped remaining params step e :
  isRunning e = false -> steps random stopRequested remaining params step e = (Ok tt, e).
Proof. intros H. destruct remaining; cbn [steps]; [reflexivity|]. rewrite H. reflexivity. Qed.

(** After a step comes the pause, in which [stop()] may be called. *)
Lemma pause_fields step e :
  let e' := if stopRequested step then stop e else e in
  duration e' = duration e /\ rtt e' = rtt e /\ animationDelay e' = animationDelay e
  /\ trajectory e' = trajectory e /\ senders e' = senders e
  /\ isRunning e' = (if stopRequested step then false else isRunning e).
Proof. cbv zeta. destruct (stopRequested step); repeat split. Qed.

Lemma steps_settings params remaining : forall step e,
  let r := steps random stopRequested remaining params step e in
  duration r.2 = duration e /\ rtt r.2 = rtt e /\ animationDelay r.2 = animationDelay e.
Proof.
  induction remaining as [|remaining IH]; intros step e; cbn [steps]; [repeat split|].
  destruct (isRunning e); [|repeat split].
  destruct (runStep_data params step e) as ((D & R & A & _) & _).
  destruct (runStep random params step e) as [[[]|m|] e1]; cbn [fst snd] in *;
    [|repeat split; assumption..].
  destruct (pause_fields step e1) as (D2 & R2 & A2 & _).
  destruct (IH (S step) (if stopRequested step then stop e1 else e1)) as (D3 & R3 & A3).
  repeat split; congruence.
Qed.

(** A run is rejected only by the [TypeError] of a [calculate], and the
    engine is then left running. *)
Lemma steps_throw params remaining : forall step e m,
  (steps random stopRequested remaining params step e).1 = Throw m ->
  m = CannotReadLength
  /\ isRunning (steps random stopRequested remaining params step e).2 = true.
Proof.
  induction remaining as [|remaining IH]; intros step e m; cbn [steps]; [discriminate|].
  destruct (isRunning e) eqn:Hrun; [|discriminate].
  destruct (runStep_data params step e) as ((_ & _ & _ & I) & _ & X & _).
  destruct (runStep random params step e) as [[[]|m'|] e1]; cbn [fst snd] in *;
    [apply IH| |discriminate].
  intros H. injection H as <-. split; [apply X; reflexivity|congruence].
Qed.

(** The rates and the trajectory stay within the unit square. *)
Lemma steps_unit params remaining : forall step e,
  (forall i, i < 2 -> Number.in_unit_interval (Sender.rate (sender i e))) ->
  Forall inUnitSquare (trajectory e) ->
  Forall inUnitSquare (trajectory (steps random stopRequested remaining params step e).2).
Proof.
  induction remaining as [|remaining IH]; intros step e Hr Ht; cbn [steps]; [exact Ht|].
  destruct (isRunning e); [|exact Ht].
  destruct (runStep_data params step e) as (_ & Hrate & _ & Hok & Hno).
  assert (Hr1 : forall i, i < 2 ->
            Number.in_unit_interval
              (Sender.rate (sender i (runStep random params step e).2))).
  { intros i Hi. destruct (Hrate i Hi) as [E|E]; [rewrite E; apply Hr; exact Hi|exact E]. }
  destruct (runStep random params step e) as [[[]|m|] e1]; cbn [fst snd] in *;
    [|rewrite Hno by discriminate; exact Ht..].
  destruct (Hok eq_refl) as (d & Htr & _ & _ & _ & Hx & Hy & _).
  destruct (pause_fields step e1) as (_ & _ & _ & T2 & S2 & _).
  apply IH.
  - intros i Hi. unfold sender. rewrite S2. apply (Hr1 i Hi).
  - rewrite T2, Htr. apply Forall_app. split; [exact Ht|]. constructor; [|constructor].
    split; cbn [pointX pointY]; [rewrite Hx; apply (Hr1 0); lia|rewrite Hy; apply (Hr1 1); lia].
Qed.

(** The records of the steps are linked. *)
Lemma steps_linked params remaining : forall step e,
  1 <= step -> length (trajectory e) = step ->
  (exists last, trajectory e !! (step - 1) = Some last
     /\ pointX last = Sender.rate (sender 0 e) /\ pointY last = Sender.rate (sender 1 e)) ->
  Linked (trajectory e) ->
  Linked (trajectory (steps random stopRequested remaining params step e).2).
Proof.
  induction remaining as [|remaining IH]; intros step e Hstep Hlen Hlast Hl; cbn [steps];
    [exact Hl|].
  destruct (isRunning e); [|exact Hl].
  destruct (runStep_data params step e) as (_ & _ & _ & Hok & Hno).
  destruct (runStep random params step e) as [[[]|m|] e1]; cbn [fst snd] in *;
    [|rewrite Hno by discriminate; exact Hl..].
  destruct (Hok eq_refl) as (d & Htr & Hd & Hox & Hoy & Hx & Hy & Htf).
  destruct (pause_fields step e1) as (_ & _ & _ & T2 & S2 & _).
  destruct Hlast as (last & Hlast & Hlx & Hly).
  apply IH.
  - lia.
  - rewrite T2, Htr, length_app. cbn. lia.
  - exists (Step d). unfold sender. rewrite T2, S2, Htr. split; [|split; assumption].
    replace (S step - 1) with (length (trajectory e) + 0) by lia.
    rewrite lookup_app_r by lia. rewrite Nat.add_comm, Nat.add_sub. reflexivity.
  - rewrite T2, Htr. intros k pt Hk.
    destruct (decide (S k < length (trajectory e))) as [Hlt|Hge].
    + rewrite lookup_app_l in Hk by exact Hlt.
      destruct (Hl k pt Hk) as (d' & prev & H1 & H2 & H3).
      exists d', prev. split; [exact H1|]. split; [|exact H3].
      rewrite lookup_app_l by lia. exact H2.
    + assert (S k = step) as Hk'.
      { apply lookup_lt_Some in Hk. rewrite length_app in Hk. cbn in Hk. lia. }
      rewrite lookup_app_r in Hk by lia. rewrite Hlen, Hk', Nat.sub_diag in Hk.
      injection Hk as <-. exists d, last. split; [reflexivity|].
      split; [rewrite lookup_app_l by lia; replace k with (step - 1) by lia; exact Hlast|].
      split; [congruence|]. split; [congruence|]. split; [congruence|exact Htf].
Qed.

(** The steps up to the one after which [stop()] is called. *)
Lemma steps_length_stop params k remaining : forall step e,
  isRunning e = true -> step <= k -> k < step + remaining ->
  stopRequested k = true -> (forall j, j < k -> stopRequested j = false) ->
  (steps random stopRequested remaining params step e).1 = Ok tt ->
  length (trajectory (steps random stopRequested remaining params step e).2)
  = length (trajectory e) + (k - step + 1)
  /\ isRunning (steps random stopRequested remaining params step e).2 = false.
Proof.
  induction remaining as [|remaining IH]; intros step e Hrun Hle Hlt Hk Hbefore;
    cbn [steps]; [lia|].
  rewrite Hrun.
  destruct (runStep_data params step e) as ((_ & _ & _ & I) & _ & _ & Hok & _).
  destruct (runStep random params step e) as [[[]|m|] e1]; cbn [fst snd] in *;
    try discriminate.
  destruct (Hok eq_refl) as (d & Htr & _).
  destruct (pause_fields step e1) as (_ & _ & _ & T2 & _ & I2).
  destruct (decide (step = k)) as [->|Hne].
  - rewrite Hk in *. rewrite steps_stopped by reflexivity. cbn [fst snd].
    intros _. split; [|reflexivity]. cbn. rewrite Htr, length_app. cbn. lia.
  - rewrite (Hbefore step) in * by lia. intros H.
    destruct (IH (S step) e1) as [H1 H2]; try assumption; try lia; [congruence|].
    split; [|exact H2]. rewrite H1, Htr, length_app. cbn. lia.
Qed.

End Run.

(** Two runs from the same setup go the same way. *)
Lemma calculate_same `{host : Math.Host} (random : nat -> float) traffic params s s' :
  Sender.rate s = Sender.rate s' ->
  ParserProps.Alike (Sender.parser s) (Sender.parser s') ->
  (Sender.calculate random traffic params s).1 = (Sender.calculate random traffic params s').1
  /\ Sender.rate (Sender.calculate random traffic params s).2
     = Sender.rate (Sender.calculate random traffic params s').2
  /\ ParserProps.Alike (Sender.parser (Sender.calculate random traffic params s).2)
       (Sender.parser (Sender.calculate random traffic params s').2).
Proof.
  intros Hr Ha. unfold Sender.calculate. rewrite Hr.
  destruct (CatalogFacts.parse_alike random
              {| ScriptParser.rate := Sender.rate s'; ScriptParser.traffic := traffic |}
              (Sender.setVariables params (Sender.parser s))
              (Sender.setVariables params (Sender.parser s'))) as [E1 E2].
  { apply CatalogFacts.Alike_setVariables. exact Ha. }
  destruct (ScriptParser.parse random _ (Sender.setVariables params (Sender.parser s)))
    as [o1 q1],
    (ScriptParser.parse random _ (Sender.setVariables params (Sender.parser s')))
    as [o2 q2].
  cbn [fst snd] in E1, E2. subst o2.
  destruct o1 as [[ctx|rate' errs]|]; cbn [fst snd Sender.rate Sender.parser];
    try (repeat split; [reflexivity..|apply E2|apply E2]).
  destruct (0 <? length errs)%nat; cbn [fst snd Sender.rate Sender.parser];
    repeat split; try reflexivity; apply E2.
Qed.

Section Same.

Context `{host : Math.Host}.
Variable random : nat -> nat -> nat -> float.
Variable stopRequested : nat -> bool.

Lemma updateSender_same step traffic params i errors e e' :
  i < 2 -> inStep e e' ->
  (updateSender random step traffic params i errors e).1
  = (updateSender random step traffic params i errors e').1
  /\ inStep (updateSender random step traffic params i errors e).2
       (updateSender random step traffic params i errors e').2.
Proof.
  intros Hi (D & R & I & T & S). unfold updateSender, rttOf. rewrite R.
  destruct (due step _); [|split; [reflexivity|repeat split; try assumption; apply S; assumption]].
  cbv zeta.
  destruct (S 0 ltac:(lia)) as [S0r S0a], (S 1 ltac:(lia)) as [S1r S1a].
  destruct i as [|[|i]]; try lia.
  - destruct (calculate_same (random step 0) traffic (sender0 params)
                (sender 0 e) (sender 0 e') S0r S0a) as (E1 & E2 & E3).
    change (sender 0 (emit (Calculate step 0) e)) with (sender 0 e).
    change (sender 0 (emit (Calculate step 0) e')) with (sender 0 e').
    cbn [Nat.eqb].
    destruct (Sender.calculate (random step 0) traffic (sender0 params) (sender 0 e))
      as [o s], (Sender.calculate (random step 0) traffic (sender0 params) (sender 0 e'))
      as [o' s'].
    cbn [fst snd] in *. subst o'.
    assert (Hin : inStep (set_sender 0 s (emit (Calculate step 0) e))
                    (set_sender 0 s' (emit (Calculate step 0) e'))).
    { repeat split; try assumption; destruct i as [|[|i]]; try lia; cbn; try assumption;
        apply E3 || apply S1a. }
    destruct o as [res|m|]; cbn [fst snd]; split; try reflexivity; exact Hin.
  - destruct (calculate_same (random step 1) traffic (sender1 params)
                (sender 1 e) (sender 1 e') S1r S1a) as (E1 & E2 & E3).
    change (sender 1 (emit (Calculate step 1) e)) with (sender 1 e).
    change (sender 1 (emit (Calculate step 1) e')) with (sender 1 e').
    cbn [Nat.eqb].
    destruct (Sender.calculate (random step 1) traffic (sender1 params) (sender 1 e))
      as [o s], (Sender.calculate (random step 1) traffic (sender1 params) (sender 1 e'))
      as [o' s'].
    cbn [fst snd] in *. subst o'.
    assert (Hin : inStep (set_sender 1 s (emit (Calculate step 1) e))
                    (set_sender 1 s' (emit (Calculate step 1) e'))).
    { repeat split; try assumption; destruct i as [|[|i]]; try lia; cbn; try assumption;
        apply E3 || apply S0a. }
    destruct o as [res|m|]; cbn [fst snd]; split; try reflexivity; exact Hin.
Qed.

Lemma runStep_same params step e e' :
  inStep e e' ->
  (runStep random params step e).1 = (runStep random params step e').1
  /\ inStep (runStep random params step e).2 (runStep random params step e').2.
Proof.
  intros H. unfold runStep. cbv zeta. cbn [fst snd].
  assert (H1 : inStep (set_currentStep step e) (set_currentStep step e')).
  { destruct H as (D & R & I & T & S). repeat split; try assumption; apply S; assumption. }
  assert (Ht : PrimFloat.add (Sender.getRate (sender 0 (set_currentStep step e)))
                 (Sender.getRate (sender 1 (set_currentStep step e)))
               = PrimFloat.add (Sender.getRate (sender 0 (set_currentStep step e')))
                   (Sender.getRate (sender 1 (set_currentStep step e')))).
  { destruct H as (_ & _ & _ & _ & S).
    destruct (S 0 ltac:(lia)) as [S0r _], (S 1 ltac:(lia)) as [S1r _].
    exact (f_equal2 PrimFloat.add S0r S1r). }
  assert (Hold : Sender.getRate (sender 0 (set_currentStep step e))
                 = Sender.getRate (sender 0 (set_currentStep step e'))
                 /\ Sender.getRate (sender 1 (set_currentStep step e))
                    = Sender.getRate (sender 1 (set_currentStep step e'))).
  { destruct H as (_ & _ & _ & _ & S).
    destruct (S 0 ltac:(lia)) as [S0r _], (S 1 ltac:(lia)) as [S1r _].
    split; [exact S0r|exact S1r]. }
  destruct Hold as [Hold0 Hold1]. rewrite Ht, Hold0, Hold1.
  set (traffic := PrimFloat.add _ _).
  destruct (updateSender_same step traffic params 0 [] _ _ ltac:(lia) H1) as [E1 H2].
  destruct (updateSender random step traffic params 0 [] (set_currentStep step e))
    as [o1 e2],
    (updateSender random step traffic params 0 [] (set_currentStep step e')) as [o1' e2'].
  cbn [fst snd] in *. subst o1'.
  destruct o1 as [errors1|m|]; [|split; [reflexivity|exact H2]..].
  destruct (updateSender_same step traffic params 1 errors1 _ _ ltac:(lia) H2) as [E2 H3].
  destruct (updateSender random step traffic params 1 errors1 e2) as [o2 e3],
    (updateSender random step traffic params 1 errors1 e2') as [o2' e3'].
  cbn [fst snd] in *. subst o2'.
  destruct o2 as [errors2|m|]; [|split; [reflexivity|exact H3]..].
  split; [reflexivity|].
  assert (H4 : inStep (if (0 <? length errors2)%nat then emit (OnError errors2) e3 else e3)
                 (if (0 <? length errors2)%nat then emit (OnError errors2) e3' else e3')).
  { destruct (0 <? length errors2)%nat; [|exact H3].
    destruct H3 as (D & R & I & T & S). repeat split; try assumption; apply S; assumption. }
  set (e4 := if (0 <? length errors2)%nat then emit (OnError errors2) e3 else e3) in *.
  set (e4' := if (0 <? length errors2)%nat then emit (OnError errors2) e3' else e3') in *.
  destruct H4 as (D & R & I & T & S).
  destruct (S 0 ltac:(lia)) as [S0r S0a], (S 1 ltac:(lia)) as [S1r S1a].
  cbn [fst snd]. unfold Sender.getRate. rewrite S0r, S1r, D.
  repeat split; try assumption.
  - cbn. rewrite T. reflexivity.
  - destruct i as [|[|i]]; try lia; assumption.
  - destruct i as [|[|i]]; try lia; [apply S0a|apply S1a].
  - destruct i as [|[|i]]; try lia; [apply S0a|apply S1a].
Qed.

Lemma steps_same params remaining : forall step e e',
  inStep e e' ->
  (steps random stopRequested remaining params step e).1
  = (steps random stopRequested remaining params step e').1
  /\ inStep (steps random stopRequested remaining params step e).2
       (steps random stopRequested remaining params step e').2.
Proof.
  induction remaining as [|remaining IH]; intros step e e' H; cbn [steps];
    [split; [reflexivity|exact H]|].
  assert (I : isRunning e = isRunning e') by apply H. rewrite <- I.
  destruct (isRunning e); [|split; [reflexivity|exact H]].
  destruct (runStep_same params step e e' H) as [E H1].
  destruct (runStep random params step e) as [o e1],
    (runStep random params step e') as [o' e1'].
  cbn [fst snd] in *. subst o'.
  destruct o as [[]|m|]; [|split; [reflexivity|exact H1]..].
  apply IH. destruct (stopRequested step); [|exact H1].
  destruct H1 as (D & R & _ & T & S). repeat split; try assumption; apply S; assumption.
Qed.

End Same.

End RunFacts.



(** X16.  The trajectory of a run is one path: its first entry is the start
    position, the rates of the two senders when the run starts, and every
    later entry [k] is the record of step [k], whose old position is the
    position of entry [k - 1] and whose traffic is the sum of its two new
    rates. *)
Theorem trajectory_is_linked `{host : Math.Host}
    (random : nat -> nat -> nat -> float) (stopRequested : nat -> bool)
    (params : SimulationEngine.Params) (e : SimulationEngine.t) :
  SimulationEngine.isRunning e = false ->
  let tr := SimulationEngine.trajectory
              (SimulationEngine.run random stopRequested params e).2 in
  tr !! 0 = Some (SimulationEngine.Start (Sender.rate (SimulationEngine.sender 0 e))
                    (Sender.rate (SimulationEngine.sender 1 e)))
  /\ RunProps.Linked tr.
Proof.
  intros Hrun tr. subst tr. unfold SimulationEngine.run. rewrite Hrun. cbv zeta.
  set (e0 := SimulationEngine.set_trajectory _ _).
  assert (Ht0 : SimulationEngine.trajectory e0
                = [SimulationEngine.Start (Sender.rate (SimulationEngine.sender 0 e))
                     (Sender.rate (SimulationEngine.sender 1 e))]) by reflexivity.
  assert (Hl : RunProps.Linked
                 (SimulationEngine.trajectory
                    (SimulationEngine.steps random stopRequested
                       (SimulationEngine.duration e0) params 1 e0).2)).
  { apply RunFacts.steps_linked; [lia|rewrite Ht0; reflexivity| |].
    - eexists. rewrite Ht0. split; [reflexivity|]. split; reflexivity.
    - rewrite Ht0. intros k pt Hk. destruct k; discriminate. }
  assert (Hfirst : forall remaining step e1,
            SimulationEngine.trajectory e1 !! 0 <> None ->
            SimulationEngine.trajectory
              (SimulationEngine.steps random stopRequested remaining params step e1).2 !! 0
            = SimulationEngine.trajectory e1 !! 0).
  { induction remaining as [|remaining IH]; intros step e1 Hne;
      cbn [SimulationEngine.steps]; [reflexivity|].
    destruct (SimulationEngine.isRunning e1); [|reflexivity].
    destruct (RunFacts.runStep_data random params step e1) as (_ & _ & _ & Hok & Hno).
    destruct (SimulationEngine.runStep random params step e1) as [[[]|m|] e2];
      cbn [fst snd] in *; [|rewrite Hno by discriminate; reflexivity..].
    destruct (Hok eq_refl) as (d & Htr & _).
    destruct (RunFacts.pause_fields stopRequested step e2) as (_ & _ & _ & T2 & _).
    assert (E : SimulationEngine.trajectory
                  (if stopRequested step then SimulationEngine.stop e2 else e2) !! 0
                = SimulationEngine.trajectory e1 !! 0).
    { rewrite T2, Htr. destruct (SimulationEngine.trajectory e1); [contradiction|reflexivity]. }
    rewrite IH; [exact E|]. rewrite E. exact Hne. }
  specialize (Hfirst (SimulationEngine.duration e0) 1 e0).
  rewrite Ht0 in Hfirst. specialize (Hfirst ltac:(discriminate)).
  destruct (SimulationEngine.steps random stopRequested _ params 1 e0) as [[[]|m|] e1];
    cbn [fst snd SimulationEngine.trajectory SimulationEngine.emit
         SimulationEngine.set_isRunning] in *;
    split; assumption.
Qed.

Lemma trajectory_is_linked_witness :
  SimulationEngine.isRunning gatedEngine = false
  /\ RunProps.Linked
       (SimulationEngine.trajectory
          (SimulationEngine.run (host := exampleHost) (fun _ _ => noRandom) noStop
             {| SimulationEngine.sender0 := []; SimulationEngine.sender1 := [] |}
             gatedEngine).2).
Proof.
  assert (H1 : SimulationEngine.isRunning gatedEngine = false) by reflexivity.
  split; [exact H1|].
  exact (proj2 (trajectory_is_linked (host := exampleHost) (fun _ _ => noRandom) noStop
                  {| SimulationEngine.sender0 := []; SimulationEngine.sender1 := [] |}
                  gatedEngine H1)).
Defined.

(** X17.  [stop()] ends a run after the step that is under way: when it is
    first called in the pause after step [k], the run records the steps 1 to
    [k] and no more, completes, and leaves the engine stopped. *)
Theorem stop_ends_the_run `{host : Math.Host}
    (random : nat -> nat -> nat -> float) (stopRequested : nat -> bool)
    (params : SimulationEngine.Params) (e : SimulationEngine.t) (k : nat) :
  SimulationEngine.isRunning e = false ->
  1 <= k <= SimulationEngine.duration e ->
  stopRequested k = true -> (forall j, j < k -> stopRequested j = false) ->
  (SimulationEngine.run random stopRequested params e).1 = Ok tt ->
  length (SimulationEngine.trajectory (SimulationEngine.run random stopRequested params e).2)
  = k + 1
  /\ SimulationEngine.isRunning (SimulationEngine.run random stopRequested params e).2
     = false.
Proof.
  intros Hrun Hk Hstop Hbefore. unfold SimulationEngine.run. rewrite Hrun. cbv zeta.
  set (e0 := SimulationEngine.set_trajectory _ _).
  pose proof (RunFacts.steps_length_stop random stopRequested params k
                (SimulationEngine.duration e0) 1 e0 eq_refl) as Hs.
  destruct (SimulationEngine.steps random stopRequested _ params 1 e0) as [[[]|m|] e1];
    cbn [fst snd] in *; try discriminate.
  intros _. split; [|reflexivity].
  destruct Hs as [Hs _]; try assumption; try lia.
  - change (SimulationEngine.duration e0) with (SimulationEngine.duration e). lia.
  - reflexivity.
  - cbn [SimulationEngine.trajectory SimulationEngine.emit SimulationEngine.set_isRunning].
    rewrite Hs. cbn. lia.
Qed.

Lemma stop_ends_the_run_witness :
  SimulationEngine.isRunning gatedEngine = false
  /\ 1 <= 2 <= SimulationEngine.duration gatedEngine
  /\ length
       (SimulationEngine.trajectory
          (SimulationEngine.run (host := exampleHost) (fun _ _ => noRandom)
             (fun step => (2 <=? step)%nat)
             {| SimulationEngine.sender0 := []; SimulationEngine.sender1 := [] |}
             gatedEngine).2)
     = 3.
Proof.
  assert (H1 : SimulationEngine.isRunning gatedEngine = false) by reflexivity.
  assert (H2 : 1 <= 2 <= SimulationEngine.duration gatedEngine)
    by (split; apply Nat.leb_le; vm_compute; reflexivity).
  assert (H3 : (fun step => (2 <=? step)%nat) 2 = true) by reflexivity.
  assert (H4 : forall j, j < 2 -> (fun step => (2 <=? step)%nat) j = false).
  { intros j Hj. apply Nat.leb_gt. exact Hj. }
  assert (H5 : (SimulationEngine.run (host := exampleHost) (fun _ _ => noRandom)
                  (fun step => (2 <=? step)%nat)
                  {| SimulationEngine.sender0 := []; SimulationEngine.sender1 := [] |}
                  gatedEngine).1 = Ok tt) by (vm_compute; reflexivity).
  split; [exact H1|]. split; [exact H2|].
  exact (proj1 (stop_ends_the_run (host := exampleHost) (fun _ _ => noRandom)
                  (fun step => (2 <=? step)%nat)
                  {| SimulationEngine.sender0 := []; SimulationEngine.sender1 := [] |}
                  gatedEngine 2 H1 H2 H3 H4 H5)).
Defined.

(** X18.  The promise of [run()] is rejected only by the [TypeError] that
    [calculate] throws after a lexical error; the engine is then left with
    [isRunning] set, so that every later [run()] returns at once without
    doing anything, until [stop()] is called. *)
Theorem rejected_run_leaves_engine_running `{host : Math.Host}
    (random random' : nat -> nat -> nat -> float) (stopRequested stopRequested' : nat -> bool)
    (params params' : SimulationEngine.Params) (e : SimulationEngine.t) (m : Message) :
  (SimulationEngine.run random stopRequested params e).1 = Throw m ->
  let e' := (SimulationEngine.run random stopRequested params e).2 in
  m = CannotReadLength
  /\ SimulationEngine.isRunning e' = true
  /\ SimulationEngine.run random' stopRequested' params' e' = (Ok tt, e')
  /\ SimulationEngine.isRunning (SimulationEngine.stop e') = false.
Proof.
  unfold SimulationEngine.run.
  destruct (SimulationEngine.isRunning e) eqn:Hrun; [discriminate|]. cbv zeta.
  set (e0 := SimulationEngine.set_trajectory _ _).
  pose proof (RunFacts.steps_throw random stopRequested params
                (SimulationEngine.duration e0) 1 e0) as Hs.
  destruct (SimulationEngine.steps random stopRequested _ params 1 e0) as [[[]|m'|] e1];
    cbn [fst snd] in *; try discriminate.
  intros H. injection H as <-. destruct (Hs m' eq_refl) as [-> Hr].
  split; [reflexivity|]. split; [exact Hr|]. rewrite Hr. split; reflexivity.
Qed.

Lemma rejected_run_leaves_engine_running_witness :
  (SimulationEngine.run (host := exampleHost) (fun _ _ => noRandom) noStop
     {| SimulationEngine.sender0 := []; SimulationEngine.sender1 := [] |}
     (SimulationEngine.setScript 0 "rate = 1 $ 2;" SimulationEngine.create)).1
  = Throw CannotReadLength
  /\ SimulationEngine.isRunning
       (SimulationEngine.run (host := exampleHost) (fun _ _ => noRandom) noStop
          {| SimulationEngine.sender0 := []; SimulationEngine.sender1 := [] |}
          (SimulationEngine.setScript 0 "rate = 1 $ 2;" SimulationEngine.create)).2
     = true.
Proof.
  assert (H : (SimulationEngine.run (host := exampleHost) (fun _ _ => noRandom) noStop
                 {| SimulationEngine.sender0 := []; SimulationEngine.sender1 := [] |}
                 (SimulationEngine.setScript 0 "rate = 1 $ 2;" SimulationEngine.create)).1
              = Throw CannotReadLength) by (vm_compute; reflexivity).
  split; [exact H|].
  exact (proj1 (proj2 (rejected_run_leaves_engine_running (host := exampleHost)
                         (fun _ _ => noRandom) (fun _ _ => noRandom) noStop noStop
                         {| SimulationEngine.sender0 := []; SimulationEngine.sender1 := [] |}
                         {| SimulationEngine.sender0 := []; SimulationEngine.sender1 := [] |}
                         _ _ H))).
Defined.

(** X19.  A run depends on the set-up of the engine only: two engines with
    the same duration, round trip times, start rates and scripts, given the
    same random numbers and the same stop requests, settle their runs alike
    and record the same trajectory, whatever earlier runs have left in the
    static stores, trajectories and step counters of the two. *)
Theorem run_is_reproducible `{host : Math.Host}
    (random : nat -> nat -> nat -> float) (stopRequested : nat -> bool)
    (params : SimulationEngine.Params) (e e' : SimulationEngine.t) :
  RunProps.sameSetup e e' ->
  SimulationEngine.isRunning e = false -> SimulationEngine.isRunning e' = false ->
  (SimulationEngine.run random stopRequested params e).1
  = (SimulationEngine.run random stopRequested params e').1
  /\ SimulationEngine.trajectory (SimulationEngine.run random stopRequested params e).2
     = SimulationEngine.trajectory (SimulationEngine.run random stopRequested params e').2.
Proof.
  intros (D & R & (R0 & S0) & (R1 & S1)) Hrun Hrun'.
  unfold SimulationEngine.run. rewrite Hrun, Hrun'. cbv zeta.
  set (e0 := SimulationEngine.set_trajectory _ _).
  set (e0' := SimulationEngine.set_trajectory _ _).
  assert (H : RunProps.inStep e0 e0').
  { repeat split; try assumption.
    - cbn. unfold Sender.getRate. cbn. rewrite R0, R1. reflexivity.
    - destruct i as [|[|i]]; try lia; cbn; assumption.
    - destruct i as [|[|i]]; try lia; cbn; assumption.
    - destruct i as [|[|i]]; try lia; reflexivity. }
  destruct (RunFacts.steps_same random stopRequested params
              (SimulationEngine.duration e0) 1 e0 e0' H) as [E I].
  replace (SimulationEngine.duration e0') with (SimulationEngine.duration e0)
    by exact D.
  destruct (SimulationEngine.steps random stopRequested _ params 1 e0) as [o e1],
    (SimulationEngine.steps random stopRequested _ params 1 e0') as [o' e1'].
  cbn [fst snd] in *. subst o'. destruct I as (_ & _ & _ & T & _).
  destruct o as [[]|m|]; cbn; split; try reflexivity; exact T.
Qed.

Lemma run_is_reproducible_witness :
  RunProps.sameSetup gatedEngine (SimulationEngine.reset gatedEngine)
  /\ (SimulationEngine.run (host := exampleHost) (fun _ _ => noRandom) noStop
        {| SimulationEngine.sender0 := []; SimulationEngine.sender1 := [] |}
        gatedEngine).1
     = (SimulationEngine.run (host := exampleHost) (fun _ _ => noRandom) noStop
          {| SimulationEngine.sender0 := []; SimulationEngine.sender1 := [] |}
          (SimulationEngine.reset gatedEngine)).1.
Proof.
  assert (H : RunProps.sameSetup gatedEngine (SimulationEngine.reset gatedEngine))
    by (repeat split; reflexivity).
  split; [exact H|].
  exact (proj1 (run_is_reproducible (host := exampleHost) (fun _ _ => noRandom) noStop
                  {| SimulationEngine.sender0 := []; SimulationEngine.sender1 := [] |}
                  gatedEngine (SimulationEngine.reset gatedEngine)
                  H eq_refl eq_refl)).
Defined.

Module SettingFacts.

Import SimulationEngine.

Lemma atLeastOne_bound v fallback : 1 <= atLeastOne v fallback.
Proof. unfold atLeastOne. cbv zeta. lia. Qed.

Lemma atLeastOne_cases v fallback :
  (1 <= fallback)%Z ->
  atLeastOne v fallback
  = match v with
    | Some z => if (z =? 0)%Z then Z.to_nat fallback
                else if (z <? 0)%Z then 1 else Z.to_nat z
    | None => Z.to_nat fallback
    end.
Proof.
  intros H. unfold atLeastOne. cbv zeta. destruct v as [z|]; [|f_equal; lia].
  destruct (Z.eqb_spec z 0); [f_equal; lia|].
  destruct (Z.ltb_spec z 0); [|f_equal]; lia.
Qed.

End SettingFacts.

(** X20.  The duration, the round trip times and the animation delay of an
    engine are never less than one.  The setters store the integer they are
    given when it is positive, one when it is negative, and the default (50
    for the duration, 1 otherwise) when it is zero or not a number; and
    neither the other methods nor a run change what the setters have
    stored. *)
Theorem settings_are_at_least_one `{host : Math.Host}
    (random : nat -> nat -> nat -> float) (stopRequested : nat -> bool)
    (params : SimulationEngine.Params) :
  RunProps.Configured SimulationEngine.create
  /\ (forall v e,
        SimulationEngine.duration (SimulationEngine.setDuration v e)
        = match v with
          | Some z => if (z =? 0)%Z then 50 else if (z <? 0)%Z then 1 else Z.to_nat z
          | None => 50
          end)
  /\ (forall v e i, i < 2 ->
        SimulationEngine.rttOf i (SimulationEngine.setRTT i v e)
        = match v with
          | Some z => if (z =? 0)%Z then 1 else if (z <? 0)%Z then 1 else Z.to_nat z
          | None => 1
          end
        /\ SimulationEngine.rttOf (1 - i) (SimulationEngine.setRTT i v e)
           = SimulationEngine.rttOf (1 - i) e)
  /\ forall e, RunProps.Configured e ->
       (forall v, RunProps.Configured (SimulationEngine.setDuration v e))
       /\ (forall v i, i < 2 -> RunProps.Configured (SimulationEngine.setRTT i v e))
       /\ (forall v, RunProps.Configured (SimulationEngine.setAnimationDelay v e))
       /\ (forall i content, i < 2 ->
             RunProps.Configured (SimulationEngine.setScript i content e))
       /\ (forall x y, RunProps.Configured (SimulationEngine.setStartPosition x y e))
       /\ RunProps.Configured (SimulationEngine.reset e)
       /\ RunProps.Configured (SimulationEngine.stop e)
       /\ RunProps.Configured (SimulationEngine.run random stopRequested params e).2.
Proof.
  split; [repeat split; cbn; lia|].
  split.
  { intros v e. cbn [SimulationEngine.setDuration SimulationEngine.duration].
    rewrite SettingFacts.atLeastOne_cases by lia. reflexivity. }
  split.
  { intros v e i Hi. destruct i as [|[|i]]; try lia;
      (split; [|reflexivity]);
      cbn [SimulationEngine.setRTT SimulationEngine.rttOf SimulationEngine.rtt Nat.eqb fst snd];
      cbv zeta; rewrite SettingFacts.atLeastOne_cases by lia; reflexivity. }
  intros e (D & R0 & R1 & A).
  split; [intros v; repeat split; try assumption; apply SettingFacts.atLeastOne_bound|].
  split.
  { intros v i _. unfold RunProps.Configured, SimulationEngine.setRTT. cbv zeta.
    destruct (i =? 0)%nat; cbn; repeat split; try assumption;
      apply SettingFacts.atLeastOne_bound. }
  split; [intros v; repeat split; try assumption; apply SettingFacts.atLeastOne_bound|].
  split.
  { intros i content _. unfold SimulationEngine.setScript, SimulationEngine.set_sender.
    destruct (i =? 0)%nat; repeat split; assumption. }
  split; [intros x y; repeat split; assumption|].
  split; [repeat split; assumption|]. split; [repeat split; assumption|].
  unfold SimulationEngine.run. destruct (SimulationEngine.isRunning e);
    [repeat split; assumption|]. cbv zeta.
  set (e0 := SimulationEngine.set_trajectory _ _).
  destruct (RunFacts.steps_settings random stopRequested params
              (SimulationEngine.duration e0) 1 e0) as (D1 & R1' & A1).
  destruct (SimulationEngine.steps random stopRequested _ params 1 e0) as [[[]|m|] e1];
    cbn [fst snd] in *; unfold RunProps.Configured;
    cbn [SimulationEngine.duration SimulationEngine.rtt SimulationEngine.animationDelay
         SimulationEngine.emit SimulationEngine.set_isRunning];
    rewrite D1, R1', A1; repeat split; assumption.
Qed.

Module CallbackFacts.

Import SimulationEngine EngineProps RunProps.

Lemma notified_app l1 l2 : notified (l1 ++ l2) = notified l1 ++ notified l2.
Proof. apply omap_app. Qed.

Lemma completed_app l1 l2 : completed (l1 ++ l2) = completed l1 ++ completed l2.
Proof. apply omap_app. Qed.

Lemma reported_app l1 l2 : reported (l1 ++ l2) = reported l1 ++ reported l2.
Proof. apply omap_app. Qed.

Lemma recorded_app l1 l2 : recorded (l1 ++ l2) = recorded l1 ++ recorded l2.
Proof. apply omap_app. Qed.

(** A failure of [calculate] carries one message. *)
Lemma calculate_failure_length `{host : Math.Host} (random : nat -> float) traffic params s
    errors :
  (Sender.calculate random traffic params s).1 = Ok (Sender.Failure errors) ->
  length errors = 1.
Proof.
  unfold Sender.calculate.
  destruct (parse_cases random
              {| ScriptParser.rate := Sender.rate s; ScriptParser.traffic := traffic |}
              (Sender.setVariables params (Sender.parser s)))
    as [(e & q & _ & E)|[(q & _ & E)|[(q & X & E)|(e & q & X & E)]]];
    rewrite E; try discriminate.
  - rewrite (execute_errors random _ _ _ _ X). cbn. discriminate.
  - rewrite (execute_errors random _ _ _ _ X). cbn. intros H. injection H as <-. reflexivity.
Qed.

Section Run.

Context `{host : Math.Host}.
Variable random : nat -> nat -> nat -> float.
Variable stopRequested : nat -> bool.

(** What [updateSender] adds to the errors of the step and to the events. *)
Lemma updateSender_errors step traffic params i errors e :
  let r := updateSender random step traffic params i errors e in
  trajectory r.2 = trajectory e
  /\ (exists events, trace r.2 = trace e ++ events
        /\ notified events = [] /\ completed events = [] /\ reported events = [])
  /\ forall errors', r.1 = Ok errors' ->
       length errors <= length errors' <= S (length errors).
Proof.
  cbv zeta. unfold updateSender. destruct (due step (rttOf i e)); cbv zeta.
  - pose proof (calculate_failure_length (random step i) traffic
                  (if (i =? 0)%nat then sender0 params else sender1 params)
                  (sender i (emit (Calculate step i) e))) as L.
    destruct (Sender.calculate _ _ _ _) as [[res|m|] s]; cbn [fst snd] in *.
    + split; [destruct i as [|i]; reflexivity|]. split.
      * exists [Calculate step i]. destruct i as [|i]; repeat split.
      * intros errors' H. injection H as <-. destruct res as [errs|rate'].
        -- rewrite length_app, (L errs eq_refl). lia.
        -- lia.
    + split; [destruct i as [|i]; reflexivity|]. split; [|discriminate].
      exists [Calculate step i]. destruct i as [|i]; repeat split.
    + split; [destruct i as [|i]; reflexivity|]. split; [|discriminate].
      exists [Calculate step i]. destruct i as [|i]; repeat split.
  - cbn [fst snd]. split; [reflexivity|]. split.
    + exists []. rewrite app_nil_r. repeat split.
    + intros errors' H. injection H as <-. lia.
Qed.

(** One step tells [onStep] the record that it appends. *)
Lemma runStep_told params base step e :
  Told base e -> Told base (runStep random params step e).2.
Proof.
  intros (events & Tr & N & C & R). unfold runStep. cbv zeta.
  set (e1 := set_currentStep step e).
  set (traffic := PrimFloat.add _ _).
  destruct (updateSender_errors step traffic params 0 [] e1)
    as (T1 & (ev1 & Tr1 & N1 & C1 & R1) & L1).
  destruct (updateSender random step traffic params 0 [] e1) as [o1 e2].
  cbn [fst snd] in *.
  change (trajectory e1) with (trajectory e) in T1.
  change (trace e1) with (trace e) in Tr1.
  assert (H2 : Told base e2).
  { exists (events ++ ev1). rewrite Tr1, Tr, <- app_assoc. split; [reflexivity|].
    rewrite notified_app, completed_app, reported_app, N1, C1, R1, !app_nil_r, T1.
    repeat split; assumption. }
  destruct o1 as [errors1|m|]; [|exact H2..].
  specialize (L1 errors1 eq_refl). cbn [length] in L1.
  destruct (updateSender_errors step traffic params 1 errors1 e2)
    as (T2 & (ev2 & Tr2 & N2 & C2 & R2) & L2).
  destruct (updateSender random step traffic params 1 errors1 e2) as [o2 e3].
  cbn [fst snd] in *.
  assert (H3 : Told base e3).
  { exists (events ++ ev1 ++ ev2). rewrite Tr2, Tr1, Tr, <- !app_assoc.
    split; [reflexivity|].
    rewrite !notified_app, !completed_app, !reported_app, N1, C1, R1, N2, C2, R2,
      !app_nil_r, T2, T1.
    repeat split; assumption. }
  destruct o2 as [errors2|m|]; [|exact H3..].
  specialize (L2 errors2 eq_refl).
  destruct H3 as (events3 & Tr3 & N3 & C3 & R3).
  set (e4 := if (0 <? length errors2)%nat then emit (OnError errors2) e3 else e3).
  assert (H4 : trajectory e4 = trajectory e3
               /\ exists events4, trace e4 = base ++ events4
                    /\ notified events4 = recorded (trajectory e3)
                    /\ completed events4 = []
                    /\ Forall (fun errors => 1 <= length errors <= 2) (reported events4)).
  { subst e4. destruct (0 <? length errors2)%nat eqn:E.
    - split; [reflexivity|]. exists (events3 ++ [OnError errors2]).
      cbn [trace emit]. rewrite Tr3, <- app_assoc. split; [reflexivity|].
      rewrite notified_app, completed_app, reported_app, C3, N3. cbn.
      rewrite app_nil_r. repeat split.
      apply Forall_app. split; [exact R3|]. constructor; [|constructor].
      apply Nat.ltb_lt in E. lia.
    - split; [reflexivity|]. exists events3. repeat split; assumption. }
  destruct H4 as (T4 & events4 & Tr4 & N4 & C4 & R4).
  cbn [fst snd].
  match goal with |- context [OnStep ?d] => set (data := d) end.
  exists (events4 ++ [OnStep data]).
  cbn [trace emit set_trajectory trajectory].
  rewrite Tr4, <- app_assoc. split; [reflexivity|].
  rewrite notified_app, completed_app, reported_app, recorded_app, N4, C4, T4.
  cbn. rewrite app_nil_r. repeat split. exact R4.
Qed.

Lemma steps_told params base remaining : forall step e,
  Told base e -> Told base (steps random stopRequested remaining params step e).2.
Proof.
  induction remaining as [|remaining IH]; intros step e H; cbn [steps]; [exact H|].
  destruct (isRunning e); [|exact H].
  pose proof (runStep_told params base step e H) as H1.
  destruct (runStep random params step e) as [[[]|m|] e1]; cbn [fst snd] in *;
    [|exact H1..].
  apply IH. destruct (stopRequested step); exact H1.
Qed.

End Run.

End CallbackFacts.

(** X21.  The callbacks of a run: [onStep] is given the records of the
    trajectory, each one once and in the order of the steps; [onError] is
    given one or two messages whenever it is called; and [onComplete] is
    called once, with the trajectory of the run, when the promise of [run]
    is fulfilled, and not at all when it is not. *)
Theorem callbacks_follow_the_trajectory `{host : Math.Host}
    (random : nat -> nat -> nat -> float) (stopRequested : nat -> bool)
    (params : SimulationEngine.Params) (e : SimulationEngine.t) :
  SimulationEngine.isRunning e = false ->
  let result := SimulationEngine.run random stopRequested params e in
  exists events,
    SimulationEngine.trace result.2 = SimulationEngine.trace e ++ events
    /\ RunProps.notified events = RunProps.recorded (SimulationEngine.trajectory result.2)
    /\ Forall (fun errors => 1 <= length errors <= 2) (RunProps.reported events)
    /\ RunProps.completed events
       = match result.1 with
         | Ok _ => [SimulationEngine.trajectory result.2]
         | _ => []
         end.
Proof.
  intros Hrun result. subst result. unfold SimulationEngine.run. rewrite Hrun. cbv zeta.
  set (e0 := SimulationEngine.set_trajectory _ _).
  assert (H0 : RunProps.Told (SimulationEngine.trace e) e0).
  { exists []. cbn. rewrite app_nil_r. repeat split. constructor. }
  pose proof (CallbackFacts.steps_told random stopRequested params
                (SimulationEngine.trace e) (SimulationEngine.duration e0) 1 e0 H0) as H.
  destruct (SimulationEngine.steps random stopRequested _ params 1 e0) as [[[]|m|] e1];
    cbn [fst snd] in *; destruct H as (events & Tr & N & C & R).
  - exists (events ++ [SimulationEngine.OnComplete (SimulationEngine.trajectory e1)]).
    cbn [SimulationEngine.trace SimulationEngine.emit SimulationEngine.set_isRunning
         SimulationEngine.trajectory].
    rewrite Tr, <- app_assoc. split; [reflexivity|].
    rewrite CallbackFacts.notified_app, CallbackFacts.reported_app,
      CallbackFacts.completed_app, C.
    cbn. rewrite !app_nil_r. repeat split; assumption.
  - exists events. repeat split; assumption.
  - exists events. repeat split; assumption.
Qed.

Lemma callbacks_follow_the_trajectory_witness :
  SimulationEngine.isRunning gatedEngine = false
  /\ exists events,
       SimulationEngine.trace
         (SimulationEngine.run (host := exampleHost) (fun _ _ => noRandom) noStop
            {| SimulationEngine.sender0 := []; SimulationEngine.sender1 := [] |}
            gatedEngine).2
       = SimulationEngine.trace gatedEngine ++ events
       /\ length (RunProps.notified events) = 4.
Proof.
  assert (H1 : SimulationEngine.isRunning gatedEngine = false) by reflexivity.
  split; [exact H1|].
  destruct (callbacks_follow_the_trajectory (host := exampleHost) (fun _ _ => noRandom)
              noStop {| SimulationEngine.sender0 := []; SimulationEngine.sender1 := [] |}
              gatedEngine H1) as (events & Tr & N & _).
  exists events. split; [exact Tr|]. rewrite N. vm_compute. reflexivity.
Defined.
